(** * criativos-api: the extraction-and-scoring core

    A shallow embedding of [utils.py], of the record types of [models.py],
    of the result pipeline and the search endpoint of [main.py]
    ([enhance_results], [filter_results], [search_ads] and its final sort)
    and of the Playwright scraper of [scraper.py].

    Conventions of the embedding.
    - A Python [int] is a [Z]; an optional value is an [option].
    - A Python [str] is the list of its Unicode code points ([list N]).
    - A Python [float] is read as the real number it denotes: the
      arithmetic of [compute_score] is exact real arithmetic on [R],
      [math.tanh] is the hyperbolic tangent and [round(x, 2)] rounds to
      the nearest hundredth, ties to even.  Rounding error of the binary
      format is outside this model; the finite range of [float] is in it
      where an integer is converted: [float(n)] raises beyond it.
    - The interpreter and its platform are CPython 3.11 on glibc with the
      default settings: [int] converts at most 4300 digits, and
      [strftime] renders [%Y] without leading zeros.
    - A function that raises returns [None] (or an explicit error value);
      a [try ... except] is a [match] on that result.
    - The browser is not modelled: each call the scraper makes on a page
      or an element is a parameter that tells what the call returns, or
      that it raises. *)

From Stdlib Require Import ZArith NArith List Bool Lia Lra.
From Stdlib Require Import Reals.
From Stdlib Require Import Permutation Sorted.
From Stdlib Require Import Ascii String.
Import ListNotations.

(* ================================================================= *)
(** ** Python strings: code points, the character classes of [str] and
       [re], and the [str] methods the program calls *)

Module PyStr.

Local Open Scope N_scope.

(** A character is its Unicode code point. *)
Definition char : Type := N.
Definition str : Type := list char.

(** The source files are UTF-8: a string literal of the program is the
    decoding of its bytes. *)
Fixpoint utf8_decode (bs : list N) : str :=
  match bs with
  | [] => []
  | b :: r =>
      if b <? 0x80 then b :: utf8_decode r
      else if b <? 0xE0 then
        match r with
        | b1 :: r1 => ((b mod 0x20) * 0x40 + b1 mod 0x40) :: utf8_decode r1
        | _ => []
        end
      else if b <? 0xF0 then
        match r with
        | b1 :: b2 :: r2 =>
            ((b mod 0x10) * 0x1000 + (b1 mod 0x40) * 0x40 + b2 mod 0x40)
              :: utf8_decode r2
        | _ => []
        end
      else
        match r with
        | b1 :: b2 :: b3 :: r3 =>
            ((b mod 0x08) * 0x40000 + (b1 mod 0x40) * 0x1000
             + (b2 mod 0x40) * 0x40 + b3 mod 0x40) :: utf8_decode r3
        | _ => []
        end
  end.

Definition lit (s : string) : str :=
  utf8_decode (map N_of_ascii (list_ascii_of_string s)).

Definition ch (a : ascii) : char := N_of_ascii a.

Definition str_eqb (a b : str) : bool :=
  if list_eq_dec N.eq_dec a b then true else false.

(** [str.isspace] on one character, which is also the class [\s] of a
    [str] pattern. *)
Definition isspace (c : char) : bool :=
  ((0x09 <=? c) && (c <=? 0x0D)) || ((0x1C <=? c) && (c <=? 0x20))
  || (c =? 0x85) || (c =? 0xA0) || (c =? 0x1680)
  || ((0x2000 <=? c) && (c <=? 0x200A))
  || (c =? 0x2028) || (c =? 0x2029) || (c =? 0x202F) || (c =? 0x205F)
  || (c =? 0x3000).

(** The decimal digits of Unicode (category Nd, the class [\d] of a [str]
    pattern) come in runs of ten, [0] to [9]; these are the code points of
    the zeros. *)
Definition decimal_zeros : list N :=
  [48; 1632; 1776; 1984; 2406; 2534; 2662; 2790; 2918; 3046; 3174; 3302;
   3430; 3558; 3664; 3792; 3872; 4160; 4240; 6112; 6160; 6470; 6608; 6784;
   6800; 6992; 7088; 7232; 7248; 42528; 43216; 43264; 43472; 43504; 43600;
   44016; 65296; 66720; 68912; 69734; 69872; 69942; 70096; 70384; 70736;
   70864; 71248; 71360; 71472; 71904; 72016; 72784; 73040; 73120; 92768;
   92864; 93008; 120782; 120792; 120802; 120812; 120822; 123200; 123632;
   125264; 130032].

Definition decimal_value (c : char) : option N :=
  match find (fun z => (z <=? c) && (c <? z + 10)) decimal_zeros with
  | Some z => Some (c - z)
  | None => None
  end.

Definition isdecimal (c : char) : bool :=
  match decimal_value c with Some _ => true | None => false end.

(** [str.lower] on one character.  Exact on every character whose lower
    case contains a Basic Latin or Latin-1 character; the other cased
    letters, whose lower case lies outside Latin-1, are left as they are:
    every literal the program compares a lowered text with is made of
    Basic Latin and Latin-1 characters. *)
Definition lower_char (c : char) : str :=
  if (0x41 <=? c) && (c <=? 0x5A) then [c + 0x20]
  else if (0xC0 <=? c) && (c <=? 0xDE) && negb (c =? 0xD7) then [c + 0x20]
  else if c =? 0x130 then [0x69; 0x307]
  else if c =? 0x178 then [0xFF]
  else if c =? 0x1E9E then [0xDF]
  else if c =? 0x212A then [0x6B]
  else if c =? 0x212B then [0xE5]
  else [c].

Definition lower (s : str) : str := flat_map lower_char s.

Fixpoint lstrip (s : str) : str :=
  match s with
  | c :: s' => if isspace c then lstrip s' else s
  | [] => []
  end.

Definition rstrip (s : str) : str := rev (lstrip (rev s)).

(** [s.strip()] *)
Definition strip (s : str) : str := rstrip (lstrip s).

(** A text with no white space at either end. *)
Definition trimmed (s : str) : Prop := lstrip s = s /\ rstrip s = s.

(** [s.startswith(prefix)] *)
Fixpoint startswith (s prefix : str) : bool :=
  match prefix, s with
  | [], _ => true
  | p :: prefix', c :: s' => (c =? p) && startswith s' prefix'
  | _ :: _, [] => false
  end.

(** [sub in s] *)
Fixpoint contains (sub s : str) : bool :=
  startswith s sub
  || match s with
     | [] => false
     | _ :: s' => contains sub s'
     end.

(** [s.zfill(width)]: zeros go after a leading sign. *)
Definition zfill (width : nat) (s : str) : str :=
  let fill := repeat (ch "0") (width - List.length s) in
  match s with
  | c :: s' =>
      if (c =? ch "+") || (c =? ch "-") then c :: fill ++ s' else fill ++ s
  | [] => fill
  end.

(** The value of a run of decimal digits, [None] when the run is empty or
    holds another character. *)
Fixpoint digits_value (acc : option N) (s : str) : option N :=
  match s with
  | [] => acc
  | c :: s' =>
      match decimal_value c with
      | Some d =>
          digits_value (Some (10 * match acc with Some a => a | None => 0 end + d)) s'
      | None => None
      end
  end.

(** The interpreter's default limit on the number of digits that [int]
    converts ([sys.int_info.default_max_str_digits]). *)
Definition max_str_digits : N := 4300.

(** The value of the digits of [int(s)]: [None] is [ValueError], for an
    empty run, a character that is no decimal digit, or more digits than
    the limit (leading zeros count). *)
Definition digits_int (s : str) : option N :=
  if max_str_digits <? N.of_nat (List.length s) then None
  else digits_value None s.

(** [int(s)] for a string: surrounding white space and one sign are
    accepted, then digits only; [None] is [ValueError].  (Underscores
    between digits are not modelled; the program passes runs of digits.) *)
Definition int (s : str) : option Z :=
  match strip s with
  | [] => None
  | c :: s' =>
      if c =? ch "-" then option_map (fun n => (- Z.of_N n)%Z) (digits_int s')
      else if c =? ch "+" then option_map Z.of_N (digits_int s')
      else option_map Z.of_N (digits_int (c :: s'))
  end.

(** Decimal rendering of a natural number, at least [width] digits. *)
Fixpoint digits_of (fuel : nat) (n : N) (acc : str) : str :=
  match fuel with
  | O => acc
  | S fuel' =>
      let acc' := (ch "0" + n mod 10) :: acc in
      if n <? 10 then acc' else digits_of fuel' (n / 10) acc'
  end.

Definition str_of_N (n : N) : str := digits_of (S (N.to_nat (N.log2 n))) n [].

Definition pad (width : nat) (n : N) : str := zfill width (str_of_N n).

End PyStr.

(* ================================================================= *)
(** ** Regular expressions: the fragment of [re] the program's patterns use *)

Module Re.

Import PyStr.

(** Repetition applies to one-character atoms only, as in every pattern of
    the program ([\d+], [\s*], [\w+], [\d{1,2}], [,?]); it is greedy. *)
Inductive regex : Type :=
| Eps : regex
| Chr : char -> regex
| Cls : (char -> bool) -> regex
| Seq : regex -> regex -> regex
| Alt : regex -> regex -> regex
| Rep : (char -> bool) -> nat -> option nat -> regex
| Grp : nat -> regex -> regex.

(** A literal string. *)
Fixpoint Str (s : str) : regex :=
  match s with
  | [] => Eps
  | c :: s' => Seq (Chr c) (Str s')
  end.

(** Captured groups, the latest capture first. *)
Definition groups : Type := list (nat * str).

Fixpoint group (i : nat) (g : groups) : option str :=
  match g with
  | [] => None
  | (j, w) :: g' => if Nat.eqb i j then Some w else group i g'
  end.

(** Length of the longest prefix of [s] made of at most [hi] characters of
    the class [p]. *)
Fixpoint span (p : char -> bool) (hi : option nat) (s : str) : nat :=
  match hi, s with
  | Some O, _ => O
  | _, [] => O
  | _, c :: s' =>
      if p c then S (span p (option_map Nat.pred hi) s') else O
  end.

(** [n], [n - 1], ..., [lo]: a greedy repetition gives back one character
    at a time. *)
Fixpoint count_down (n lo : nat) : list nat :=
  if Nat.ltb n lo then []
  else match n with
       | O => [O]
       | S n' => n :: count_down n' lo
       end.

(** All the ways [r] matches a prefix of [s], in the order a backtracking
    matcher tries them: each is the rest of the text and the groups. *)
Fixpoint run (r : regex) (s : str) (g : groups) : list (str * groups) :=
  match r with
  | Eps => [(s, g)]
  | Chr c =>
      match s with
      | x :: s' => if N.eqb x c then [(s', g)] else []
      | [] => []
      end
  | Cls p =>
      match s with
      | x :: s' => if p x then [(s', g)] else []
      | [] => []
      end
  | Seq a b => flat_map (fun sg => run b (fst sg) (snd sg)) (run a s g)
  | Alt a b => run a s g ++ run b s g
  | Rep p lo hi => map (fun n => (skipn n s, g)) (count_down (span p hi s) lo)
  | Grp i a =>
      map (fun sg =>
             (fst sg, (i, firstn (List.length s - List.length (fst sg)) s) :: snd sg))
          (run a s g)
  end.

(** Every character of [w] is in the class [p]. *)
Definition is_true_on (p : char -> bool) (w : str) : Prop :=
  Forall (fun c => p c = true) w.

(** [re.match(r, s)]: the first way [r] matches at the start of [s]. *)
Definition rmatch (r : regex) (s : str) : option (str * groups) :=
  match run r s [] with
  | sg :: _ => Some sg
  | [] => None
  end.

(** [re.search(r, s)]: the match at the leftmost position that has one;
    the result is its groups. *)
Fixpoint search (r : regex) (s : str) : option groups :=
  match rmatch r s with
  | Some sg => Some (snd sg)
  | None =>
      match s with
      | [] => None
      | _ :: s' => search r s'
      end
  end.

(** A run of decimal digits that is not empty. *)
Definition digit_run (w : str) : Prop := w <> [] /\ is_true_on isdecimal w.

(** Decimal digits, at most [n] and at least one, or exactly [n] of them. *)
Definition digits_upto (n : nat) (w : str) : Prop :=
  is_true_on isdecimal w /\ (1 <= List.length w <= n)%nat.

Definition digits_exactly (n : nat) (w : str) : Prop :=
  is_true_on isdecimal w /\ List.length w = n.

Definition two_digits (w : str) : bool :=
  match w with
  | [a; b] => isdecimal a && isdecimal b
  | _ => false
  end.

End Re.

(* ================================================================= *)
(** ** DateNormalizer: [parse_date_any], [days_between] *)

Module Dates.

Import PyStr Re.

Local Open Scope Z_scope.

(** A [datetime.date] value. *)
Record date : Type := mkdate { year : Z; month : Z; day : Z }.

(** The calendar of the [datetime] module. *)
Definition is_leap (y : Z) : bool :=
  (y mod 4 =? 0) && (negb (y mod 100 =? 0) || (y mod 400 =? 0)).

Definition DAYS_IN_MONTH : list Z :=
  [-1; 31; 28; 31; 30; 31; 30; 31; 31; 30; 31; 30; 31].

Definition DAYS_BEFORE_MONTH : list Z :=
  [-1; 0; 31; 59; 90; 120; 151; 181; 212; 243; 273; 304; 334].

Definition days_before_year (y : Z) : Z :=
  let y := y - 1 in y * 365 + y / 4 - y / 100 + y / 400.

Definition days_in_month (y m : Z) : Z :=
  if (m =? 2) && is_leap y then 29 else nth (Z.to_nat m) DAYS_IN_MONTH 0.

Definition days_before_month (y m : Z) : Z :=
  nth (Z.to_nat m) DAYS_BEFORE_MONTH 0
  + (if (2 <? m) && is_leap y then 1 else 0).

(** [date(y, m, d)]: [None] is the [ValueError] of a field out of range. *)
Definition check_date_fields (y m d : Z) : bool :=
  (1 <=? y) && (y <=? 9999) && (1 <=? m) && (m <=? 12)
  && (1 <=? d) && (d <=? days_in_month y m).

Definition make_date (y m d : Z) : option date :=
  if check_date_fields y m d then Some (mkdate y m d) else None.

Definition valid_date (d : date) : Prop :=
  check_date_fields (year d) (month d) (day d) = true.

(** The day after [d] in the calendar. *)
Definition tomorrow (d : date) : date :=
  if day d <? days_in_month (year d) (month d)
  then mkdate (year d) (month d) (day d + 1)
  else if month d <? 12 then mkdate (year d) (month d + 1) 1
  else mkdate (year d + 1) 1 1.

(** [d.toordinal()]: day 1 is 0001-01-01. *)
Definition toordinal (d : date) : Z :=
  days_before_year (year d) + days_before_month (year d) (month d) + day d.

(** [d.isoformat()]: [YYYY-MM-DD], the year on four digits. *)
Definition isoformat (d : date) : str :=
  pad 4 (Z.to_N (year d)) ++ lit "-" ++ pad 2 (Z.to_N (month d))
  ++ lit "-" ++ pad 2 (Z.to_N (day d)).

(** [d.strftime('%Y-%m-%d')] as the C library of the platform renders it
    (glibc): the year without leading zeros, so on fewer than four digits
    for a year below 1000; month and day on two digits. *)
Definition strftime_ymd (d : date) : str :=
  str_of_N (Z.to_N (year d)) ++ lit "-" ++ pad 2 (Z.to_N (month d))
  ++ lit "-" ++ pad 2 (Z.to_N (day d)).

Definition in_range (lo hi : ascii) (c : char) : bool :=
  (ch lo <=? c)%N && (c <=? ch hi)%N.

(** The pattern [strptime] compiles for the format ['%Y-%m-%d']:
    [(?P<Y>\d\d\d\d)-(?P<m>1[0-2]|0[1-9]|[1-9])-(?P<d>3[0-1]|[1-2]\d|0[1-9]|[1-9]| [1-9])]. *)
Definition re_Y : regex :=
  Seq (Cls isdecimal) (Seq (Cls isdecimal) (Seq (Cls isdecimal) (Cls isdecimal))).

Definition re_m : regex :=
  Alt (Seq (Chr (ch "1")) (Cls (in_range "0" "2")))
      (Alt (Seq (Chr (ch "0")) (Cls (in_range "1" "9")))
           (Cls (in_range "1" "9"))).

Definition re_d : regex :=
  Alt (Seq (Chr (ch "3")) (Cls (in_range "0" "1")))
      (Alt (Seq (Cls (in_range "1" "2")) (Cls isdecimal))
           (Alt (Seq (Chr (ch "0")) (Cls (in_range "1" "9")))
                (Alt (Cls (in_range "1" "9"))
                     (Seq (Chr (ch " ")) (Cls (in_range "1" "9")))))).

Definition format_regex : regex :=
  Seq (Grp 1 re_Y)
      (Seq (Chr (ch "-")) (Seq (Grp 2 re_m) (Seq (Chr (ch "-")) (Grp 3 re_d)))).

(** [datetime.strptime(s, '%Y-%m-%d').date()]; [None] is [ValueError]: no
    match, unconverted data after the match, or no such calendar day. *)
Definition strptime_ymd (s : str) : option date :=
  match rmatch format_regex s with
  | Some ([], g) =>
      match group 1 g, group 2 g, group 3 g with
      | Some Y, Some m, Some d =>
          match int Y, int m, int d with
          | Some y, Some m, Some d => make_date y m d
          | _, _, _ => None
          end
      | _, _, _ => None
      end
  | _ => None
  end.

(** [days_between(date_str, today)]; [clock] is [date.today()]. *)
Definition days_between (clock : date) (date_str : option str)
    (today : option date) : Z :=
  match date_str with
  | None | Some [] => 0
  | Some s =>
      let today := match today with None => clock | Some t => t end in
      match strptime_ymd s with
      | Some start_date =>
          let delta := toordinal today - toordinal start_date in
          Z.max 0 delta
      | None => 0
      end
  end.

(** *** Checks by computation used for the round trip of a date

    The numbers from [lo] to [hi]; the year [n] renders as four digits
    that read back as [n]; the text after the year, for month [m] and day
    [d], matches the rest of the pattern and reads back as [m] and [d]. *)
Definition N_range (lo hi : N) : list N :=
  map N.of_nat (seq (N.to_nat lo) (N.to_nat hi + 1 - N.to_nat lo)).

Definition year_ok (n : N) : bool :=
  match pad 4 n with
  | [a; b; c; d] =>
      isdecimal a && isdecimal b && isdecimal c && isdecimal d
      && match int [a; b; c; d] with
         | Some v => v =? Z.of_N n
         | None => false
         end
  | _ => false
  end.

Definition tail_regex : regex :=
  Seq (Chr (ch "-")) (Seq (Grp 2 re_m) (Seq (Chr (ch "-")) (Grp 3 re_d))).

Definition tail_ok (m d : N) : bool :=
  match run tail_regex (lit "-" ++ pad 2 m ++ lit "-" ++ pad 2 d) [] with
  | ([], [(3%nat, D); (2%nat, M)]) :: _ =>
      match int M, int D with
      | Some vm, Some vd => (vm =? Z.of_N m) && (vd =? Z.of_N d)
      | _, _ => false
      end
  | _ => false
  end.

Definition meses_pt : list (str * str) :=
  [ (lit "janeiro", lit "01"); (lit "jan", lit "01");
    (lit "fevereiro", lit "02"); (lit "fev", lit "02");
    (lit "março", lit "03"); (lit "mar", lit "03");
    (lit "abril", lit "04"); (lit "abr", lit "04");
    (lit "maio", lit "05"); (lit "mai", lit "05");
    (lit "junho", lit "06"); (lit "jun", lit "06");
    (lit "julho", lit "07"); (lit "jul", lit "07");
    (lit "agosto", lit "08"); (lit "ago", lit "08");
    (lit "setembro", lit "09"); (lit "set", lit "09");
    (lit "outubro", lit "10"); (lit "out", lit "10");
    (lit "novembro", lit "11"); (lit "nov", lit "11");
    (lit "dezembro", lit "12"); (lit "dez", lit "12") ].

(** [d.get(key, default)] *)
Fixpoint dict_get (d : list (str * str)) (key default : str) : str :=
  match d with
  | [] => default
  | (k, v) :: d' => if str_eqb k key then v else dict_get d' key default
  end.

(** [f"{year}-{month.zfill(2)}-{day.zfill(2)}"] *)
Definition ymd (year month day : str) : str :=
  year ++ lit "-" ++ zfill 2 month ++ lit "-" ++ zfill 2 day.

Section ParseDateAny.

(** Two parts of the run-time are parameters: [dateutil]'s
    [parse(text, fuzzy=True, dayfirst=True)], with [None] for the exception
    it raises on a text it cannot read, and [str.isalnum] on one character,
    which with the underscore makes the class [\w]. *)
Variable fuzzy_parse : str -> option date.
Variable isalnum : char -> bool.

Definition isword (c : char) : bool := isalnum c || (c =? ch "_")%N.

Definition digits (lo : nat) (hi : option nat) : regex := Rep isdecimal lo hi.
Definition spaces1 : regex := Rep isspace 1 None.
Definition word1 : regex := Rep isword 1 None.

(** [(\d{1,2})/(\d{1,2})/(\d{4})] *)
Definition pattern0 : regex :=
  Seq (Grp 1 (digits 1 (Some 2%nat)))
      (Seq (Chr (ch "/")) (Seq (Grp 2 (digits 1 (Some 2%nat)))
                               (Seq (Chr (ch "/")) (Grp 3 (digits 4 (Some 4%nat)))))).

(** [(\d{4})-(\d{1,2})-(\d{1,2})] *)
Definition pattern1 : regex :=
  Seq (Grp 1 (digits 4 (Some 4%nat)))
      (Seq (Chr (ch "-")) (Seq (Grp 2 (digits 1 (Some 2%nat)))
                               (Seq (Chr (ch "-")) (Grp 3 (digits 1 (Some 2%nat)))))).

(** [(\d{1,2})\s+de\s+(\w+)\s+de\s+(\d{4})] *)
Definition pattern2 : regex :=
  Seq (Grp 1 (digits 1 (Some 2%nat)))
      (Seq spaces1 (Seq (Str (lit "de")) (Seq spaces1 (Seq (Grp 2 word1)
      (Seq spaces1 (Seq (Str (lit "de")) (Seq spaces1 (Grp 3 (digits 4 (Some 4%nat)))))))))).

(** [(\w+)\s+(\d{1,2}),?\s+(\d{4})] *)
Definition pattern3 : regex :=
  Seq (Grp 1 word1)
      (Seq spaces1 (Seq (Grp 2 (digits 1 (Some 2%nat)))
      (Seq (Rep (N.eqb (ch ",")) 0 (Some 1%nat)) (Seq spaces1 (Grp 3 (digits 4 (Some 4%nat))))))).

(** [(\d{1,2})\s+(\w+)\s+(\d{4})] *)
Definition pattern4 : regex :=
  Seq (Grp 1 (digits 1 (Some 2%nat)))
      (Seq spaces1 (Seq (Grp 2 word1) (Seq spaces1 (Grp 3 (digits 4 (Some 4%nat)))))).

(** The five patterns with the way each one's three groups are put
    together; the name of a month goes through [meses_pt], ["01"] when it
    is not a key. *)
Inductive layout : Type := DMY | YMD | D_MONTH_Y | MONTH_D_Y.

Definition patterns : list (regex * layout) :=
  [ (pattern0, DMY); (pattern1, YMD); (pattern2, D_MONTH_Y);
    (pattern3, MONTH_D_Y); (pattern4, D_MONTH_Y) ].

Definition month_of_name (month_name : str) : str :=
  dict_get meses_pt (lower month_name) (lit "01").

Definition assemble (l : layout) (g1 g2 g3 : str) : str :=
  match l with
  | DMY => ymd g3 g2 g1
  | YMD => ymd g1 g2 g3
  | D_MONTH_Y => ymd g3 (month_of_name g2) g1
  | MONTH_D_Y => ymd g3 (month_of_name g1) g2
  end.

(** The loop over the patterns: the first pattern found in the lowered
    text gives the result. *)
Fixpoint fallback (ps : list (regex * layout)) (date_text : str) : option str :=
  match ps with
  | [] => None
  | (pattern, l) :: ps' =>
      match search pattern (lower date_text) with
      | Some g =>
          match group 1 g, group 2 g, group 3 g with
          | Some g1, Some g2, Some g3 => Some (assemble l g1 g2 g3)
          | _, _, _ => fallback ps' date_text
          end
      | None => fallback ps' date_text
      end
  end.

Definition parse_date_any (date_text : option str) : option str :=
  match date_text with
  | None | Some [] => None
  | Some date_text =>
      let date_text := strip date_text in
      match fuzzy_parse date_text with
      | Some parsed => Some (strftime_ymd parsed)
      | None => fallback patterns date_text
      end
  end.

End ParseDateAny.

(** [str.isalnum] on the characters of Basic Latin and Latin-1, the
    instance used in the examples. *)
Definition latin_isalnum (c : char) : bool :=
  (isdecimal c || in_range "a" "z" c || in_range "A" "Z" c
   || (c =? 0xAA) || (c =? 0xB2) || (c =? 0xB3) || (c =? 0xB5)
   || (c =? 0xB9) || (c =? 0xBA) || ((0xBC <=? c) && (c <=? 0xBE))
   || ((0xC0 <=? c) && (c <=? 0xFF) && negb (c =? 0xD7) && negb (c =? 0xF7)))%N.

(** A string of the shape of a date: four digits, two digits and two
    digits, with hyphens between them. *)
Definition date_shaped (s : str) : Prop :=
  exists y m d,
    s = y ++ lit "-" ++ m ++ lit "-" ++ d
    /\ List.length y = 4%nat /\ List.length m = 2%nat /\ List.length d = 2%nat
    /\ is_true_on isdecimal y /\ is_true_on isdecimal m
    /\ is_true_on isdecimal d.

(** The canonical rendering of a day of the calendar. *)
Definition canonical_date (s : str) : Prop :=
  exists d, valid_date d /\ s = isoformat d.

(** No pattern of the list is found in the lowered text. *)
Definition none_found (ps : list (regex * layout)) (date_text : str) : Prop :=
  Forall (fun pl => search (fst pl) (lower date_text) = None) ps.

End Dates.

(* ================================================================= *)
(** ** TextNormalizer: [normalize_text], [clean_headline] *)

Module Text.

Import PyStr.

(** [re.sub(r'\s+', ' ', s)]: every maximal run of white space becomes one
    space; [in_run] tells that the previous character belonged to a run. *)
Fixpoint sub_spaces (in_run : bool) (s : str) : str :=
  match s with
  | [] => []
  | c :: s' =>
      if isspace c
      then (if in_run then sub_spaces true s' else ch " " :: sub_spaces true s')
      else c :: sub_spaces false s'
  end.

(** The class [[\x00-\x1f\x7f-\x9f]]. *)
Definition iscontrol (c : char) : bool :=
  ((c <=? 0x1F) || ((0x7F <=? c) && (c <=? 0x9F)))%N.

(** [re.sub(r'[\x00-\x1f\x7f-\x9f]', '', s)] *)
Definition sub_control (s : str) : str := filter (fun c => negb (iscontrol c)) s.

Definition normalize_text (text : option str) : str :=
  match text with
  | None | Some [] => []
  | Some text =>
      let text := sub_spaces false (strip text) in
      let text := sub_control text in
      text
  end.

(** A control character that is not white space: the first substitution
    leaves it, the second removes it. *)
Definition hidden_control (c : char) : bool := iscontrol c && negb (isspace c).

(** The text starts with white space. *)
Definition starts_space (s : str) : bool :=
  match s with
  | c :: _ => isspace c
  | [] => false
  end.

(** Two consecutive spaces somewhere in [s]. *)
Fixpoint has_double_space (s : str) : bool :=
  match s with
  | a :: (b :: _) as s' =>
      ((a =? ch " ") && (b =? ch " "))%N || has_double_space s'
  | _ => false
  end.

Definition prefixes_to_remove : list str :=
  [ lit "Anúncio"; lit "Ad:"; lit "Sponsored:"; lit "Patrocinado:" ].

(** One turn of the loop of [clean_headline]. *)
Definition remove_prefix (headline prefix : str) : str :=
  if startswith headline prefix
  then strip (skipn (List.length prefix) headline)
  else headline.

Definition clean_headline (headline : option str) : str :=
  match headline with
  | None | Some [] => []
  | Some headline =>
      normalize_text (Some (fold_left remove_prefix prefixes_to_remove headline))
  end.

(** The first prefix of the list that [headline] starts with, and the
    prefixes that come after it in the list. *)
Fixpoint first_match (prefixes : list str) (headline : str)
    : option (str * list str) :=
  match prefixes with
  | [] => None
  | prefix :: later =>
      if startswith headline prefix then Some (prefix, later)
      else first_match later headline
  end.

(** [clean_headline] as the specification words it: the first matching
    prefix goes, and nothing else. *)
Definition clean_headline_first_only (headline : option str) : str :=
  match headline with
  | None | Some [] => []
  | Some headline =>
      normalize_text
        (Some (match first_match prefixes_to_remove headline with
               | Some (prefix, _) => skipn (List.length prefix) headline
               | None => headline
               end))
  end.

End Text.

(* ================================================================= *)
(** ** UrlClassifier: [is_marketplace], [is_probable_dropshipping] *)

Module Url.

Import PyStr.

Definition marketplaces : list str :=
  [ lit "mercadolivre.com"; lit "mercadolibre.com";
    lit "amazon.com"; lit "amazon.com.br";
    lit "shopee.com.br";
    lit "magazineluiza.com.br"; lit "magalu.com.br";
    lit "americanas.com.br";
    lit "casasbahia.com.br";
    lit "submarino.com.br";
    lit "extra.com.br";
    lit "pontofrio.com.br" ].

Definition is_marketplace (url : option str) : bool :=
  match url with
  | None | Some [] => false
  | Some url =>
      let url_lower := lower url in
      existsb (fun marketplace => contains marketplace url_lower) marketplaces
  end.

Definition dropshipping_patterns : list str :=
  [ lit "myshopify.com";
    lit "/products/";
    lit "yampi.com.br";
    lit "appmax.com.br";
    lit "cartpanda.com.br";
    lit "nuvemshop.com.br";
    lit "tray.com.br";
    lit "loja.com.br";
    lit "checkout";
    lit "comprar-agora";
    lit "add-to-cart";
    lit "produto-" ].

Definition is_probable_dropshipping (url : option str) : bool :=
  match url with
  | None | Some [] => false
  | Some url =>
      let url_lower := lower url in
      existsb (fun pattern => contains pattern url_lower) dropshipping_patterns
  end.

End Url.

(* ================================================================= *)
(** ** VariationEstimator: [estimate_variations_from_text] *)

Module Variations.

Import PyStr Re.

Local Open Scope Z_scope.

Definition number : regex := Grp 1 (Rep isdecimal 1 None).
Definition spaces0 : regex := Rep isspace 0 None.
Definition spaces1 : regex := Rep isspace 1 None.

Definition variation_indicators : list regex :=
  [ (* (\d+)\s*(versões|variações|opções) *)
    Seq number (Seq spaces0
      (Grp 2 (Alt (Str (lit "versões"))
                  (Alt (Str (lit "variações")) (Str (lit "opções"))))));
    (* disponível\s+em\s+(\d+) *)
    Seq (Str (lit "disponível")) (Seq spaces1 (Seq (Str (lit "em"))
      (Seq spaces1 number)));
    (* (\d+)\s*cores *)
    Seq number (Seq spaces0 (Str (lit "cores")));
    (* (\d+)\s*tamanhos *)
    Seq number (Seq spaces0 (Str (lit "tamanhos"))) ].

(** [int(match.group(1))] inside the [try]: [None] is the exception. *)
Definition captured_count (g : groups) : option Z :=
  match group 1 g with
  | Some w => int w
  | None => None
  end.

(** The loop over the patterns, on the lowered text. *)
Fixpoint first_indicator (patterns : list regex) (text_lower : str) : Z :=
  match patterns with
  | [] => 1
  | pattern :: patterns' =>
      match search pattern text_lower with
      | Some g =>
          match captured_count g with
          | Some count => Z.min count 20
          | None => first_indicator patterns' text_lower
          end
      | None => first_indicator patterns' text_lower
      end
  end.

Definition estimate_variations_from_text (text : option str) : Z :=
  match text with
  | None | Some [] => 1
  | Some text => first_indicator variation_indicators (lower text)
  end.

(** A pattern is passed over on a text: it is not found, or the number
    it captures has more digits than [int] converts. *)
Definition passed_over (text_lower : str) (pattern : regex) : Prop :=
  match search pattern text_lower with
  | None => True
  | Some g => exists w, group 1 g = Some w /\ (4300 < List.length w)%nat
  end.

(** A text in which the first pattern captures 4301 digits and the
    second pattern captures 5. *)
Definition long_count_text : str :=
  repeat (ch "1") (N.to_nat 4301) ++ lit " versões, disponível em 5".

End Variations.

(* ================================================================= *)
(** ** NumericScore: [clamp], [safe_tanh], [compute_score] *)

Module Score.

Local Open Scope R_scope.

(** [clamp(value, min_val, max_val)] is [max(min_val, min(value, max_val))]. *)
Definition clamp (value min_val max_val : R) : R :=
  Rmax min_val (Rmin value max_val).

(** [math.tanh]: total on the reals, it has no failing input. *)
Definition math_tanh (x : R) : option R := Some (tanh x).

(** [safe_tanh]: the [except] branch answers by the sign of [x]. *)
Definition safe_tanh (x : R) : R :=
  match math_tanh x with
  | Some y => y
  | None => if Rlt_dec 0 x then 1 else -1
  end.

(** [x or d] on an optional integer: [None] and [0] are falsy. *)
Definition int_or (x : option Z) (d : Z) : Z :=
  match x with
  | None => d
  | Some 0%Z => d
  | Some n => n
  end.

(** [float(n)] of an integer.  [None] is [OverflowError]: the conversion
    rounds to the nearest float and raises when that is beyond the largest
    one, which is so from [2^1024 - 2^970] in absolute value.  The float
    it returns is read as the real number [n]. *)
Definition float_limit : Z := 2 ^ 1024 - 2 ^ 970.

Definition float (n : Z) : option R :=
  if (Z.abs n <? float_limit)%Z then Some (IZR n) else None.

(** Nearest integer, ties to even. *)
Definition round_half_even (x : R) : Z :=
  let f := Zfloor x in
  let r := x - IZR f in
  if Rlt_dec r (1 / 2) then f
  else if Rlt_dec (1 / 2) r then (f + 1)%Z
  else if Z.even f then f else (f + 1)%Z.

(** [round(x, 2)]. *)
Definition round2 (x : R) : R := IZR (round_half_even (x * 100)) / 100.

(** The unrounded score of [compute_score], on the clamped terms. *)
Definition raw_score (A D V : R) : R :=
  100 * (0.5 * (A / 50) + 0.3 * (D / 60) + 0.2 * safe_tanh (V / 5)).

(** [None] is the [OverflowError] of one of the three conversions. *)
Definition compute_score
    (advertiser_active_ads_est days_active variations_count : option Z)
    : option R :=
  match float (int_or advertiser_active_ads_est 0) with
  | None => None
  | Some fa =>
      let A := clamp fa 0 50 in
      match float (int_or days_active 0) with
      | None => None
      | Some fd =>
          let D := clamp fd 0 60 in
          match float (int_or variations_count 1) with
          | None => None
          | Some fv =>
              let V := Rmax 1 fv in
              let score := raw_score A D V in
              Some (round2 score)
          end
      end
  end.

End Score.

(* ================================================================= *)
(** ** The records of [models.py] *)

Module Models.

Import PyStr.

Record AdData : Type := mkAdData {
  ad_id : option str;
  advertiser_name : option str;
  advertiser_url : option str;
  landing_url : option str;
  headline : option str;
  text : option str;
  media_type : str;
  start_date : option str;
  days_active : Z;
  active_status : str;
  variations_count : Z;
  advertiser_active_ads_est : Z;
  is_probable_dropshipping : bool;
  exclusion_reason : option str;
  score : R;
  ad_library_result_url : option str
}.

Record AdOut : Type := mkAdOut {
  query : str;
  country : str;
  ad : AdData
}.

Inductive Depth : Type := fast | standard | deep.

Record SearchRequest : Type := mkSearchRequest {
  request_query : str;
  depth : Depth;
  exclude_marketplaces : bool;
  min_days : Z;
  min_active_ads : Z
}.

(** Assignments to the fields the pipeline writes. *)
Definition set_score (a : AdData) (v : R) : AdData :=
  mkAdData (ad_id a) (advertiser_name a) (advertiser_url a) (landing_url a)
    (headline a) (text a) (media_type a) (start_date a) (days_active a)
    (active_status a) (variations_count a) (advertiser_active_ads_est a)
    (is_probable_dropshipping a) (exclusion_reason a) v
    (ad_library_result_url a).

Definition set_is_probable_dropshipping (a : AdData) (v : bool) : AdData :=
  mkAdData (ad_id a) (advertiser_name a) (advertiser_url a) (landing_url a)
    (headline a) (text a) (media_type a) (start_date a) (days_active a)
    (active_status a) (variations_count a) (advertiser_active_ads_est a)
    v (exclusion_reason a) (score a) (ad_library_result_url a).

Definition set_exclusion_reason (a : AdData) (v : option str) : AdData :=
  mkAdData (ad_id a) (advertiser_name a) (advertiser_url a) (landing_url a)
    (headline a) (text a) (media_type a) (start_date a) (days_active a)
    (active_status a) (variations_count a) (advertiser_active_ads_est a)
    (is_probable_dropshipping a) v (score a) (ad_library_result_url a).

Definition set_ad (r : AdOut) (a : AdData) : AdOut :=
  mkAdOut (query r) (country r) a.

(** Truth value of an optional string: [None] and [""] are falsy. *)
Definition truthy (s : option str) : bool :=
  match s with
  | None | Some [] => false
  | Some _ => true
  end.

End Models.

(* ================================================================= *)
(** ** ResultPipeline: [enhance_results], [filter_results] and the sort of
       [search_ads] *)

Module Pipeline.

Import PyStr Models.

Local Open Scope Z_scope.

(** The body of the loop of [filter_results] for one record: [None] when
    the record is skipped, the appended record otherwise. *)
Definition filter_result (request : SearchRequest) (result : AdOut) : option AdOut :=
  let ad := ad result in
  if exclude_marketplaces request && truthy (landing_url ad) then
    if Url.is_marketplace (landing_url ad) then
      Some (set_ad result (set_exclusion_reason ad (Some (lit "Marketplace"))))
    else if days_active ad <? min_days request then None
    else if advertiser_active_ads_est ad <? min_active_ads request then None
    else Some result
  else if days_active ad <? min_days request then None
  else if advertiser_active_ads_est ad <? min_active_ads request then None
  else Some result.

Fixpoint filter_results (results : list AdOut) (request : SearchRequest) : list AdOut :=
  match results with
  | [] => []
  | result :: results' =>
      match filter_result request result with
      | Some kept => kept :: filter_results results' request
      | None => filter_results results' request
      end
  end.

(** The body of the loop of [enhance_results]; [None] when
    [compute_score] raises. *)
Definition enhance_result (result : AdOut) : option AdOut :=
  let ad := ad result in
  match Score.compute_score (Some (advertiser_active_ads_est ad))
          (Some (days_active ad)) (Some (variations_count ad)) with
  | None => None
  | Some score =>
      let ad := set_score ad score in
      let ad :=
        if negb (is_probable_dropshipping ad) && truthy (landing_url ad)
        then set_is_probable_dropshipping ad
               (Url.is_probable_dropshipping (landing_url ad))
        else ad in
      Some (set_ad result ad)
  end.

(** The loop: the exception of one turn ends it, and no list is
    returned. *)
Fixpoint enhance_results (results : list AdOut) : option (list AdOut) :=
  match results with
  | [] => Some []
  | result :: results' =>
      match enhance_result result with
      | None => None
      | Some enhanced =>
          match enhance_results results' with
          | None => None
          | Some enhanced_results => Some (enhanced :: enhanced_results)
          end
      end
  end.

(** The sort key [(-x.ad.score, -x.ad.days_active)] and the order of
    tuples: the first components decide unless they are equal. *)
Definition sort_key (x : AdOut) : R * Z :=
  ((- score (ad x))%R, - days_active (ad x)).

Definition Rltb (x y : R) : bool := if Rlt_dec x y then true else false.
Definition Reqb (x y : R) : bool := if Req_dec_T x y then true else false.

Definition key_lt (k1 k2 : R * Z) : bool :=
  if Reqb (fst k1) (fst k2) then snd k1 <? snd k2 else Rltb (fst k1) (fst k2).

Definition key_eqb (k1 k2 : R * Z) : bool :=
  Reqb (fst k1) (fst k2) && (snd k1 =? snd k2).

(** [list.sort(key=...)] is a stable sort: it gives the one arrangement in
    key order that keeps records of equal keys in their order.  Insertion
    from the right computes it. *)
Fixpoint insert (x : AdOut) (l : list AdOut) : list AdOut :=
  match l with
  | [] => [x]
  | y :: l' =>
      if key_lt (sort_key y) (sort_key x) then y :: insert x l'
      else x :: y :: l'
  end.

Fixpoint list_sort (l : list AdOut) : list AdOut :=
  match l with
  | [] => []
  | x :: l' => insert x (list_sort l')
  end.

(** [search_ads] after the acquisition: enhance, filter, sort; [None]
    when [enhance_results] raises. *)
Definition pipeline (results : list AdOut) (request : SearchRequest)
    : option (list AdOut) :=
  match enhance_results results with
  | None => None
  | Some enhanced_results =>
      let filtered_results := filter_results enhanced_results request in
      Some (list_sort filtered_results)
  end.

(** *** The filter stage as the specification words it

    Three rules tried in order on each record; the first that applies
    decides. *)
Inductive verdict : Type := SoftExclude | Drop | Keep.

Definition first_rule (request : SearchRequest) (a : AdData) : verdict :=
  if exclude_marketplaces request && Url.is_marketplace (landing_url a)
  then SoftExclude
  else if days_active a <? min_days request then Drop
  else if advertiser_active_ads_est a <? min_active_ads request then Drop
  else Keep.

Definition soft_exclude (result : AdOut) : AdOut :=
  set_ad result (set_exclusion_reason (ad result) (Some (lit "Marketplace"))).

(** The outcome for one record, with the reason of a kept record unset. *)
Definition outcome_unset (request : SearchRequest) (result : AdOut) : list AdOut :=
  match first_rule request (ad result) with
  | SoftExclude => [soft_exclude result]
  | Drop => []
  | Keep => [set_ad result (set_exclusion_reason (ad result) None)]
  end.

(** The outcome for one record, a kept record left as it came. *)
Definition outcome_untouched (request : SearchRequest) (result : AdOut) : list AdOut :=
  match first_rule request (ad result) with
  | SoftExclude => [soft_exclude result]
  | Drop => []
  | Keep => [result]
  end.

(** *** The order of the output *)

(** [a] may stand before [b]: a higher score, or the same score and at
    least as many days. *)
Definition ranks_before (a b : AdOut) : Prop :=
  (score (ad b) < score (ad a))%R
  \/ (score (ad a) = score (ad b) /\ days_active (ad b) <= days_active (ad a)).

(** The records of [l] whose key is [k], in their order in [l]. *)
Definition with_key (k : R * Z) (l : list AdOut) : list AdOut :=
  filter (fun x => key_eqb (sort_key x) k) l.

(** The score of a record is the one its counters give. *)
Definition score_is_fresh (x : AdOut) : Prop :=
  Score.compute_score (Some (advertiser_active_ads_est (ad x)))
    (Some (days_active (ad x))) (Some (variations_count (ad x)))
  = Some (score (ad x)).

(** A record is settled when neither stage changes it. *)
Definition settled (request : SearchRequest) (r : AdOut) : Prop :=
  enhance_result r = Some r /\ filter_result request r = Some r.

(** A record that comes in with a reason already set, and a request that
    excludes nothing. *)
Definition stale_record : AdOut :=
  mkAdOut (lit "lamp") (lit "BR")
    (mkAdData None None None (Some (lit "https://mystore.com")) None None
       (lit "unknown") None 0 (lit "active") 1 0 false
       (Some (lit "Marketplace")) 0%R None).

Definition no_exclusion : SearchRequest :=
  mkSearchRequest (lit "lamp") standard false 0 0.

(** The scenario of the specification: [record_X] lands on a marketplace,
    [record_Y] on a shop of its own, and the request has the defaults. *)
Definition record_X : AdOut :=
  mkAdOut (lit "lamp") (lit "BR")
    (mkAdData None None None (Some (lit "https://www.mercadolivre.com.br/x"))
       None None (lit "unknown") None 5 (lit "active") 1 10 false None 0%R
       None).

Definition record_Y : AdOut :=
  mkAdOut (lit "lamp") (lit "BR")
    (mkAdData None None None (Some (lit "https://mystore.com")) None None
       (lit "unknown") None 50 (lit "active") 3 40 false None 0%R None).

Definition default_request : SearchRequest :=
  mkSearchRequest (lit "lamp") standard true 0 0.

End Pipeline.

(* ================================================================= *)
(** ** [extract_ad_id_from_url] *)

Module AdId.

Import PyStr Re.

(** The class [[^&]]. *)
Definition not_amp (c : char) : bool := negb (c =? ch "&")%N.

(** The class [[a-zA-Z0-9_-]]. *)
Definition id_char (c : char) : bool :=
  Dates.in_range "a" "z" c || Dates.in_range "A" "Z" c
  || Dates.in_range "0" "9" c || (c =? ch "_")%N || (c =? ch "-")%N.

Definition patterns : list regex :=
  [ (* ad_id=([^&]+) *)
    Seq (Str (lit "ad_id=")) (Grp 1 (Rep not_amp 1 None));
    (* /ads/(\d+) *)
    Seq (Str (lit "/ads/")) (Grp 1 (Rep isdecimal 1 None));
    (* creative_id=([^&]+) *)
    Seq (Str (lit "creative_id=")) (Grp 1 (Rep not_amp 1 None));
    (* id=([a-zA-Z0-9_-]+) *)
    Seq (Str (lit "id=")) (Grp 1 (Rep id_char 1 None)) ].

(** The loop over the patterns: [match.group(1)] of the first pattern found
    in the URL. *)
Fixpoint first_id (ps : list regex) (url : str) : option str :=
  match ps with
  | [] => None
  | pattern :: ps' =>
      match search pattern url with
      | Some g =>
          match group 1 g with
          | Some w => Some w
          | None => None
          end
      | None => first_id ps' url
      end
  end.

Definition extract_ad_id_from_url (url : option str) : option str :=
  match url with
  | None | Some [] => None
  | Some url => first_id patterns url
  end.

End AdId.

(* ================================================================= *)
(** ** The acquisition layer of [scraper.py]: [check_for_captcha],
       [navigate_to_ads_library], [scroll_and_load], [extract_ad_data],
       [estimate_advertiser_active_ads], [scrape_ads],
       [buscar_criativos_facebook]

    The browser is a parameter: for each call the program makes on it,
    what the call gives back, or that it raises.  Exceptions are the
    subclasses of [Exception]; the waiting calls ([random_delay],
    [asyncio.sleep]) return. *)

Module Acquisition.

Import PyStr Re Models.

Local Open Scope Z_scope.

(** The result of a call that can raise. *)
Inductive outcome (A : Type) : Type :=
| Raised : outcome A
| Returned : A -> outcome A.

Arguments Raised {A}.
Arguments Returned {A} _.

(** An element handle: [inner_text()], [get_attribute('href')] and
    [is_visible()]. *)
Record element : Type := mkelement {
  inner_text : outcome str;
  href : outcome (option str);
  is_visible : outcome bool
}.

(** The selectors the scraper queries, by the part they look for:
    - [PageNameLink]: [data-testid=page-name-link], [role=link][aria-label*=Page]
    - [AdTitle], [RoleHeading], [H3], [AdCreativeTitle]:
      [data-testid=ad-title], [role=heading], h3, .ad-creative-title
    - [AdText], [UserContent], [ArticleP], [AdCreativeBody]:
      [data-testid=ad-text], .userContent, [role=article] p, .ad-creative-body
    - [LinkLFacebook], [AdLink], [RoleLinkNotPage]:
      a[href*=l.facebook.com], a[data-testid=ad-link],
      a[role=link]:not([aria-label*=Page])
    - [AriaStarted], [SpanStarted], [SpanIniciou], [AdCreationDate]:
      [aria-label*=started], span:has-text(started), span:has-text(iniciou),
      .ad-creation-date
    - [Video], [Img]: video, img
    - [ResultsCount], [AdsLibraryResultsCount], [SpanResults],
      [SpanResultados]: [data-testid=results-count],
      .ads-library-results-count, span:has-text(results),
      span:has-text(resultados)
    - [PoliticalAd], [RoleArticle], [AdLibraryResult], [DataPageletAd]:
      [data-testid=political_ad], [role=article], .ad-library-result,
      [data-pagelet*=ad]
    - [CaptchaTestId], [CaptchaClass], [CaptchaId], [IframeCaptcha],
      [IframeRecaptcha], [GRecaptcha], [AriaCaptcha], [AriaVerification]:
      [data-testid=captcha], .captcha, #captcha, iframe[src*=captcha],
      iframe[src*=recaptcha], .g-recaptcha, [aria-label*=captcha i],
      [aria-label*=verification i] *)
Inductive selector : Type :=
| PageNameLink
| AdTitle | RoleHeading | H3 | AdCreativeTitle
| AdText | UserContent | ArticleP | AdCreativeBody
| LinkLFacebook | AdLink | RoleLinkNotPage
| AriaStarted | SpanStarted | SpanIniciou | AdCreationDate
| Video | Img
| ResultsCount | AdsLibraryResultsCount | SpanResults | SpanResultados
| PoliticalAd | RoleArticle | AdLibraryResult | DataPageletAd
| CaptchaTestId | CaptchaClass | CaptchaId | IframeCaptcha
| IframeRecaptcha | GRecaptcha | AriaCaptcha | AriaVerification.

(** [query_selector] on an element or a page: the first element found, if
    there is one.  No function below queries one selector twice on the
    same element or page. *)
Definition lookup : Type := selector -> outcome (option element).

(** [AdData()]: every field at its default. *)
Definition AdData_default : AdData :=
  mkAdData None None None None None None (lit "unknown") None 0
    (lit "active") 1 0 false None 0%R None.

(** Assignments to the fields the scraper writes. *)
Definition set_advertiser_name (a : AdData) (v : option str) : AdData :=
  mkAdData (ad_id a) v (advertiser_url a) (landing_url a)
    (headline a) (text a) (media_type a) (start_date a) (days_active a)
    (active_status a) (variations_count a) (advertiser_active_ads_est a)
    (is_probable_dropshipping a) (exclusion_reason a) (score a)
    (ad_library_result_url a).

Definition set_advertiser_url (a : AdData) (v : option str) : AdData :=
  mkAdData (ad_id a) (advertiser_name a) v (landing_url a)
    (headline a) (text a) (media_type a) (start_date a) (days_active a)
    (active_status a) (variations_count a) (advertiser_active_ads_est a)
    (is_probable_dropshipping a) (exclusion_reason a) (score a)
    (ad_library_result_url a).

Definition set_landing_url (a : AdData) (v : option str) : AdData :=
  mkAdData (ad_id a) (advertiser_name a) (advertiser_url a) v
    (headline a) (text a) (media_type a) (start_date a) (days_active a)
    (active_status a) (variations_count a) (advertiser_active_ads_est a)
    (is_probable_dropshipping a) (exclusion_reason a) (score a)
    (ad_library_result_url a).

Definition set_headline (a : AdData) (v : option str) : AdData :=
  mkAdData (ad_id a) (advertiser_name a) (advertiser_url a) (landing_url a)
    v (text a) (media_type a) (start_date a) (days_active a)
    (active_status a) (variations_count a) (advertiser_active_ads_est a)
    (is_probable_dropshipping a) (exclusion_reason a) (score a)
    (ad_library_result_url a).

Definition set_text (a : AdData) (v : option str) : AdData :=
  mkAdData (ad_id a) (advertiser_name a) (advertiser_url a) (landing_url a)
    (headline a) v (media_type a) (start_date a) (days_active a)
    (active_status a) (variations_count a) (advertiser_active_ads_est a)
    (is_probable_dropshipping a) (exclusion_reason a) (score a)
    (ad_library_result_url a).

Definition set_media_type (a : AdData) (v : str) : AdData :=
  mkAdData (ad_id a) (advertiser_name a) (advertiser_url a) (landing_url a)
    (headline a) (text a) v (start_date a) (days_active a)
    (active_status a) (variations_count a) (advertiser_active_ads_est a)
    (is_probable_dropshipping a) (exclusion_reason a) (score a)
    (ad_library_result_url a).

(** [start_date] and [days_active] are written together. *)
Definition set_start (a : AdData) (v : str) (days : Z) : AdData :=
  mkAdData (ad_id a) (advertiser_name a) (advertiser_url a) (landing_url a)
    (headline a) (text a) (media_type a) (Some v) days
    (active_status a) (variations_count a) (advertiser_active_ads_est a)
    (is_probable_dropshipping a) (exclusion_reason a) (score a)
    (ad_library_result_url a).

Definition set_variations_count (a : AdData) (v : Z) : AdData :=
  mkAdData (ad_id a) (advertiser_name a) (advertiser_url a) (landing_url a)
    (headline a) (text a) (media_type a) (start_date a) (days_active a)
    (active_status a) v (advertiser_active_ads_est a)
    (is_probable_dropshipping a) (exclusion_reason a) (score a)
    (ad_library_result_url a).

Definition set_advertiser_active_ads_est (a : AdData) (v : Z) : AdData :=
  mkAdData (ad_id a) (advertiser_name a) (advertiser_url a) (landing_url a)
    (headline a) (text a) (media_type a) (start_date a) (days_active a)
    (active_status a) (variations_count a) v
    (is_probable_dropshipping a) (exclusion_reason a) (score a)
    (ad_library_result_url a).

Definition set_ad_library_result_url (a : AdData) (v : option str) : AdData :=
  mkAdData (ad_id a) (advertiser_name a) (advertiser_url a) (landing_url a)
    (headline a) (text a) (media_type a) (start_date a) (days_active a)
    (active_status a) (variations_count a) (advertiser_active_ads_est a)
    (is_probable_dropshipping a) (exclusion_reason a) (score a) v.

(** Truth value of a string, and [s or ''] on an optional string. *)
Definition nonempty (s : str) : bool :=
  match s with [] => false | _ :: _ => true end.

Definition or_empty (s : option str) : str :=
  match s with Some t => if nonempty t then t else [] | None => [] end.

(** *** [check_for_captcha] *)

Definition captcha_selectors : list selector :=
  [CaptchaTestId; CaptchaClass; CaptchaId; IframeCaptcha; IframeRecaptcha;
   GRecaptcha; AriaCaptcha; AriaVerification].

Definition captcha_texts : list str :=
  [lit "captcha"; lit "verification"; lit "robot"; lit "human"].

(** The loop over the selectors: a call that raises goes on to the next
    selector. *)
Fixpoint visible_captcha (q : lookup) (selectors : list selector) : bool :=
  match selectors with
  | [] => false
  | selector :: selectors' =>
      match q selector with
      | Returned (Some element) =>
          match is_visible element with
          | Returned true => true
          | _ => visible_captcha q selectors'
          end
      | _ => visible_captcha q selectors'
      end
  end.

(** [q] is [page.query_selector], [content] is [page.content()], which is
    called outside any [try]. *)
Definition check_for_captcha (q : lookup) (content : outcome str) : outcome bool :=
  if visible_captcha q captcha_selectors then Returned true
  else
    match content with
    | Raised => Raised
    | Returned page_content =>
        Returned (existsb (fun text => contains text (lower page_content))
                    captcha_texts)
    end.

(** *** The page of the scraper *)

(** The page as it is at one stage of the run. *)
Record page : Type := mkpage {
  query_selector : lookup;
  query_selector_all : selector -> outcome (list lookup);
  content : outcome str;
  (* wait_for_selector('[role=main]') *)
  wait_for_main : outcome unit;
  (* the i-th evaluate('window.scrollTo...') *)
  evaluate : Z -> outcome unit
}.

(** *** [navigate_to_ads_library] *)

Definition full_url (query : str) : str :=
  lit "https://www.facebook.com/ads/library/" ++ lit "?"
  ++ lit "active_status=active" ++ lit "&" ++ lit "ad_type=all" ++ lit "&"
  ++ lit "country=BR" ++ lit "&" ++ lit "q=" ++ query ++ lit "&"
  ++ lit "sort_data[direction]=desc" ++ lit "&"
  ++ lit "sort_data[mode]=relevancy_monthly_grouped".

(** [goto] is [page.goto], [p] the page once loaded.  Every exception is
    caught and answered with [False], so the retry decorator runs the body
    once. *)
Definition navigate_to_ads_library (goto : str -> outcome unit) (p : page)
    (query : str) : bool :=
  match goto (full_url query) with
  | Raised => false
  | Returned _ =>
      match check_for_captcha (query_selector p) (content p) with
      | Raised => false
      | Returned true => false
      | Returned false =>
          match wait_for_main p with
          | Raised => false
          | Returned _ => true
          end
      end
  end.

(** *** [scroll_and_load] *)

Definition scroll_count (depth : Depth) : nat :=
  match depth with
  | fast => 2
  | standard => 5
  | deep => 10
  end.

(** [for i in range(scroll_count)], from index [i] with [n] turns left. *)
Fixpoint scroll_loop (p : page) (i : Z) (n : nat) : outcome unit :=
  match n with
  | O => Returned tt
  | S n' =>
      match evaluate p i with
      | Raised => Raised
      | Returned _ => scroll_loop p (i + 1) n'
      end
  end.

Definition scroll_and_load (p : page) (depth : Depth) : outcome unit :=
  scroll_loop p 0 (scroll_count depth).

(** *** [extract_ad_data] *)

(** One turn of a loop over selectors: the turn raises, goes on to the
    next selector, or assigns and breaks. *)
Inductive turn (A : Type) : Type :=
| Abort : turn A
| Next : turn A
| Break : A -> turn A.

Arguments Abort {A}.
Arguments Next {A}.
Arguments Break {A} _.

(** [for selector in selectors: elem = query_selector(selector); if elem:
    body] inside a [try]: the value of the turn that breaks, [None] when
    no turn does or when a call raises. *)
Fixpoint first_break {A : Type} (q : lookup) (body : element -> turn A)
    (selectors : list selector) : option A :=
  match selectors with
  | [] => None
  | selector :: selectors' =>
      match q selector with
      | Raised => None
      | Returned None => first_break q body selectors'
      | Returned (Some elem) =>
          match body elem with
          | Abort => None
          | Next => first_break q body selectors'
          | Break a => Some a
          end
      end
  end.

Definition headline_selectors : list selector :=
  [AdTitle; RoleHeading; H3; AdCreativeTitle].

Definition text_selectors : list selector :=
  [AdText; UserContent; ArticleP; AdCreativeBody].

Definition link_selectors : list selector :=
  [LinkLFacebook; AdLink; RoleLinkNotPage].

Definition date_selectors : list selector :=
  [AriaStarted; SpanStarted; SpanIniciou; AdCreationDate].

Definition advertiser_step (q : lookup) (ad_data : AdData) : AdData :=
  match q PageNameLink with
  | Returned (Some advertiser_elem) =>
      match inner_text advertiser_elem with
      | Returned t =>
          let ad_data :=
            set_advertiser_name ad_data (Some (Text.normalize_text (Some t))) in
          match href advertiser_elem with
          | Returned h => set_advertiser_url ad_data h
          | Raised => ad_data
          end
      | Raised => ad_data
      end
  | _ => ad_data
  end.

Definition headline_turn (headline_elem : element) : turn str :=
  match inner_text headline_elem with
  | Raised => Abort
  | Returned headline =>
      if nonempty headline && (5 <? Z.of_nat (List.length (strip headline)))
      then Break (Text.clean_headline (Some headline))
      else Next
  end.

Definition headline_step (q : lookup) (ad_data : AdData) : AdData :=
  match first_break q headline_turn headline_selectors with
  | Some h => set_headline ad_data (Some h)
  | None => ad_data
  end.

Definition text_turn (text_elem : element) : turn str :=
  match inner_text text_elem with
  | Raised => Abort
  | Returned text =>
      if nonempty text && (10 <? Z.of_nat (List.length (strip text)))
      then Break (Text.normalize_text (Some text))
      else Next
  end.

Definition text_step (q : lookup) (ad_data : AdData) : AdData :=
  match first_break q text_turn text_selectors with
  | Some t => set_text ad_data (Some t)
  | None => ad_data
  end.

Definition link_turn (link_elem : element) : turn str :=
  match href link_elem with
  | Raised => Abort
  | Returned (Some h) =>
      if nonempty h
         && (contains (lit "l.facebook.com") h || contains (lit "http") h)
      then Break h
      else Next
  | Returned None => Next
  end.

Definition link_step (q : lookup) (ad_data : AdData) : AdData :=
  match first_break q link_turn link_selectors with
  | Some h => set_landing_url ad_data (Some h)
  | None => ad_data
  end.

Section ExtractAdData.

(** [dateutil]'s parse and [str.isalnum], as for [parse_date_any], and the
    date of the day, [date.today()]. *)
Variable fuzzy_parse : str -> option Dates.date.
Variable isalnum : char -> bool.
Variable clock : Dates.date.

Definition date_turn (date_elem : element) : turn (str * Z) :=
  match inner_text date_elem with
  | Raised => Abort
  | Returned date_text =>
      if nonempty date_text then
        match Dates.parse_date_any fuzzy_parse isalnum (Some date_text) with
        | Some parsed_date =>
            if nonempty parsed_date
            then Break (parsed_date,
                        Dates.days_between clock (Some parsed_date) None)
            else Next
        | None => Next
        end
      else Next
  end.

Definition date_step (q : lookup) (ad_data : AdData) : AdData :=
  match first_break q date_turn date_selectors with
  | Some (parsed_date, days) => set_start ad_data parsed_date days
  | None => ad_data
  end.

Definition media_step (q : lookup) (ad_data : AdData) : AdData :=
  match q Video with
  | Raised => ad_data
  | Returned (Some _) => set_media_type ad_data (lit "video")
  | Returned None =>
      match q Img with
      | Returned (Some _) => set_media_type ad_data (lit "image")
      | _ => ad_data
      end
  end.

Definition url_step (page_url : outcome str) (ad_data : AdData) : AdData :=
  match page_url with
  | Returned current_url => set_ad_library_result_url ad_data (Some current_url)
  | Raised => ad_data
  end.

Definition variations_step (ad_data : AdData) : AdData :=
  if truthy (text ad_data) || truthy (headline ad_data) then
    let text_for_analysis :=
      or_empty (text ad_data) ++ lit " " ++ or_empty (headline ad_data) in
    set_variations_count ad_data
      (Variations.estimate_variations_from_text (Some text_for_analysis))
  else ad_data.

Definition dropshipping_step (ad_data : AdData) : AdData :=
  if truthy (landing_url ad_data)
  then set_is_probable_dropshipping ad_data
         (Url.is_probable_dropshipping (landing_url ad_data))
  else ad_data.

(** [extract_ad_data(ad_element)]: [q] is [ad_element.query_selector] and
    [page_url] is [self.page.url].  Each step that calls the browser sits
    in its own [try], so the outer [except], the only way to [None], is
    not reached. *)
Definition extract_ad_data (q : lookup) (page_url : outcome str) : option AdData :=
  let ad_data := AdData_default in
  let ad_data := advertiser_step q ad_data in
  let ad_data := headline_step q ad_data in
  let ad_data := text_step q ad_data in
  let ad_data := link_step q ad_data in
  let ad_data := date_step q ad_data in
  let ad_data := media_step q ad_data in
  let ad_data := url_step page_url ad_data in
  let ad_data := variations_step ad_data in
  let ad_data := dropshipping_step ad_data in
  Some ad_data.

End ExtractAdData.

(** What the steps of [extract_ad_data] keep true of the record they
    build.  [final] tells that the last step has run, [bound] bounds the
    estimate of the advertiser's ads. *)
Definition no_control (s : option str) : Prop :=
  match s with
  | Some t => Forall (fun c => Text.iscontrol c = false) t
  | None => True
  end.

Definition built (clock : Dates.date) (final : bool) (bound : Z) (a : AdData)
    : Prop :=
  ad_id a = None /\ exclusion_reason a = None /\ score a = 0%R
  /\ active_status a = lit "active"
  /\ 0 <= advertiser_active_ads_est a <= bound
  /\ 0 <= variations_count a <= 20
  /\ days_active a = Dates.days_between clock (start_date a) None
  /\ In (media_type a) [lit "unknown"; lit "video"; lit "image"]
  /\ no_control (advertiser_name a) /\ no_control (headline a)
  /\ no_control (text a)
  /\ match landing_url a with
     | Some h => contains (lit "l.facebook.com") h || contains (lit "http") h = true
     | None => True
     end
  /\ is_probable_dropshipping a
     = if final then Url.is_probable_dropshipping (landing_url a) else false.

(** *** [estimate_advertiser_active_ads] *)

(** The browser for the advertiser's page: opening a tab, loading a URL,
    which gives the [query_selector] of the loaded page, and closing the
    tab. *)
Record browser : Type := mkbrowser {
  new_page : outcome unit;
  new_page_goto : str -> outcome lookup;
  new_page_close : outcome unit
}.

(** [/(\d+)/?] *)
Definition page_id_pattern : regex :=
  Seq (Chr (ch "/"))
      (Seq (Grp 1 (Rep isdecimal 1 None))
           (Rep (N.eqb (ch "/")) 0 (Some 1%nat))).

(** [count_text.replace(',', '').replace('.', '')] *)
Definition remove_separators (s : str) : str :=
  filter (fun c => negb ((c =? ch ",") || (c =? ch "."))%N) s.

(** [re.findall(r'\d+', s)]: the maximal runs of decimal digits, in order;
    [cur] is the run being read, reversed. *)
Fixpoint findall_digits (cur : str) (s : str) : list str :=
  match s with
  | [] => match cur with [] => [] | _ :: _ => [rev cur] end
  | c :: s' =>
      if isdecimal c then findall_digits (c :: cur) s'
      else match cur with
           | [] => findall_digits [] s'
           | _ :: _ => rev cur :: findall_digits [] s'
           end
  end.

Definition count_selectors : list selector :=
  [ResultsCount; AdsLibraryResultsCount; SpanResults; SpanResultados].

Definition ads_url (page_id : str) : str :=
  lit "https://www.facebook.com/ads/library/?active_status=active&ad_type=all&country=BR&view_all_page_id="
  ++ page_id.

(** The loop over the count selectors: it raises, returns a count, or ends
    without one. *)
Fixpoint count_loop (q : lookup) (closing : outcome unit)
    (selectors : list selector) : outcome (option Z) :=
  match selectors with
  | [] => Returned None
  | selector :: selectors' =>
      match q selector with
      | Raised => Raised
      | Returned None => count_loop q closing selectors'
      | Returned (Some count_elem) =>
          match inner_text count_elem with
          | Raised => Raised
          | Returned count_text =>
              match findall_digits [] (remove_separators count_text) with
              | first :: _ =>
                  match closing with
                  | Raised => Raised
                  | Returned _ =>
                      match int first with
                      | Some n => Returned (Some (Z.min n 500))
                      | None => Raised
                      end
                  end
              | [] => count_loop q closing selectors'
              end
          end
      end
  end.

(** Every path but the one that reads a count gives 0: the paths that
    raise through the [except], the others after closing the tab. *)
Definition estimate_advertiser_active_ads (b : browser)
    (advertiser_url : option str) : Z :=
  match advertiser_url with
  | None | Some [] => 0
  | Some url =>
      match new_page b with
      | Raised => 0
      | Returned _ =>
          if contains (lit "facebook.com") url then
            match search page_id_pattern url with
            | Some g =>
                match group 1 g with
                | Some page_id =>
                    match new_page_goto b (ads_url page_id) with
                    | Raised => 0
                    | Returned q =>
                        match count_loop q (new_page_close b) count_selectors with
                        | Returned (Some n) => n
                        | Returned None => 0
                        | Raised => 0
                        end
                    end
                | None => 0
                end
            | None => 0
            end
          else 0
      end
  end.

(** *** [scrape_ads] *)

Definition ad_selectors : list selector :=
  [PoliticalAd; RoleArticle; AdLibraryResult; DataPageletAd].

(** The elements of the first selector that finds any
    ([query_selector_all]); a call that raises ends the scraping. *)
Fixpoint find_ads (query_all : selector -> outcome (list lookup))
    (selectors : list selector) : outcome (list lookup) :=
  match selectors with
  | [] => Returned []
  | selector :: selectors' =>
      match query_all selector with
      | Raised => Raised
      | Returned [] => find_ads query_all selectors'
      | Returned elements => Returned elements
      end
  end.

(** What the processing of the ad at one index sees: the date of the
    day, the URL of the page, the browser that opens the advertiser's
    page. *)
Record moment : Type := mkmoment {
  today : Dates.date;
  page_url : outcome str;
  tabs : browser
}.

(** A scraper: entering its context, the page before any navigation,
    [page.goto], the page after it, the moments of the ads, and leaving
    the context. *)
Record scraper : Type := mkscraper {
  entered : outcome unit;
  first_page : page;
  goto : str -> outcome unit;
  results_page : page;
  moments : Z -> moment;
  exited : outcome unit
}.

(** A run in which nothing is found on the pages, the results page
    mentions a robot, and no tab opens. *)
Definition no_element : lookup := fun _ => Returned None.

Definition blank_page : page :=
  mkpage no_element (fun _ => Returned []) (Returned []) (Returned tt)
    (fun _ => Returned tt).

Definition robot_page : page :=
  mkpage no_element (fun _ => Returned []) (Returned (lit "Robot vacuum cleaners"))
    (Returned tt) (fun _ => Returned tt).

Definition closed_browser : browser := mkbrowser Raised (fun _ => Raised) Raised.

(** A browser whose advertiser page shows a count of results. *)
Definition counting_page : lookup :=
  fun selector =>
    match selector with
    | ResultsCount =>
        Returned (Some (mkelement (Returned (lit "1.234 resultados"))
                          (Returned None) (Returned true)))
    | _ => Returned None
    end.

Definition counting_browser : browser :=
  mkbrowser (Returned tt) (fun _ => Returned counting_page) (Returned tt).

Definition robot_scraper : scraper :=
  mkscraper (Returned tt) blank_page (fun _ => Returned tt) robot_page
    (fun _ => mkmoment (Dates.mkdate 2025 1 10) (Returned []) closed_browser)
    (Returned tt).

Section ScrapeAds.

Variable fuzzy_parse : str -> option Dates.date.
Variable isalnum : char -> bool.

(** The loop [for i, ad_element in enumerate(...)], from index [i]. *)
Fixpoint process_ads (s : scraper) (i : Z) (ads_found : list lookup)
    : list AdData :=
  match ads_found with
  | [] => []
  | ad_element :: rest =>
      let m := moments s i in
      match extract_ad_data fuzzy_parse isalnum (today m) ad_element (page_url m) with
      | Some ad_data =>
          let ad_data :=
            if (i <? 10) && truthy (advertiser_url ad_data)
            then set_advertiser_active_ads_est ad_data
                   (estimate_advertiser_active_ads (tabs m)
                      (advertiser_url ad_data))
            else ad_data in
          ad_data :: process_ads s (i + 1) rest
      | None => process_ads s (i + 1) rest
      end
  end.

Definition scrape_ads (s : scraper) (query : str) (depth : Depth) : list AdData :=
  if negb (navigate_to_ads_library (goto s) (results_page s) query) then []
  else
    match scroll_and_load (results_page s) depth with
    | Raised => []
    | Returned _ =>
        match find_ads (query_selector_all (results_page s)) ad_selectors with
        | Raised => []
        | Returned ads_found => process_ads s 0 (firstn 50 ads_found)
        end
    end.

(** *** [buscar_criativos_facebook] *)

(** What the function returns: the one-element list that asks for a manual
    solve, or a list of results. *)
Inductive acquired : Type :=
| NeedsManualSolve : str -> acquired
| Results : list AdOut -> acquired.

(** One turn of the loop over [ads_data]; [None] when [compute_score]
    raises. *)
Definition with_score (descricao_produto : str) (ad_data : AdData)
    : option AdOut :=
  match Score.compute_score (Some (advertiser_active_ads_est ad_data))
          (Some (days_active ad_data)) (Some (variations_count ad_data)) with
  | None => None
  | Some score =>
      Some (mkAdOut descricao_produto (lit "BR") (set_score ad_data score))
  end.

Fixpoint score_all (descricao_produto : str) (ads_data : list AdData)
    : option (list AdOut) :=
  match ads_data with
  | [] => Some []
  | ad_data :: ads_data' =>
      match with_score descricao_produto ad_data with
      | None => None
      | Some ad_out =>
          match score_all descricao_produto ads_data' with
          | None => None
          | Some results => Some (ad_out :: results)
          end
      end
  end.

(** Leaving the context comes before the [return] takes effect: when it
    raises, the [except] answers with the empty list, as it does for
    every exception raised inside the context. *)
Definition buscar_criativos_facebook (s : scraper) (descricao_produto : str)
    (depth : Depth) : acquired :=
  match entered s with
  | Raised => Results []
  | Returned _ =>
      match check_for_captcha (query_selector (first_page s))
              (content (first_page s)) with
      | Raised => Results []
      | Returned true =>
          match exited s with
          | Raised => Results []
          | Returned _ => NeedsManualSolve (lit "CAPTCHA detectado")
          end
      | Returned false =>
          let ads_data := scrape_ads s descricao_produto depth in
          match score_all descricao_produto ads_data with
          | None => Results []
          | Some results =>
              match exited s with
              | Raised => Results []
              | Returned _ => Results (Pipeline.list_sort results)
              end
          end
      end
  end.

End ScrapeAds.

(** The records a run of the scraper builds, and what holds of every
    record [buscar_criativos_facebook] returns for a description. *)
Definition scraped (s : scraper) (a : AdData) : Prop :=
  exists i, built (today (moments s i)) true 500 a.

Definition delivered (descricao_produto : str) (r : AdOut) : Prop :=
  query r = descricao_produto /\ country r = lit "BR"
  /\ Pipeline.score_is_fresh r /\ exclusion_reason (ad r) = None
  /\ Pipeline.enhance_result r = Some r
  /\ 0 <= days_active (ad r)
  /\ 0 <= advertiser_active_ads_est (ad r) <= 500
  /\ 0 <= variations_count (ad r) <= 20.

End Acquisition.

(* ================================================================= *)
(** ** The endpoint [search_ads] of [main.py] *)

Module Api.

Import PyStr Models Acquisition.

Local Open Scope Z_scope.

Inductive failure : Type := ScrapingError | InternalError.

(** The responses: HTTP 400 with its detail, the answer that asks for a
    manual solve, HTTP 500, and the list of results. *)
Inductive response : Type :=
| BadRequest : str -> response
| ManualSolve : str -> response
| ServerError : failure -> response
| Ok : list AdOut -> response.

(** [search_ads(request)]: [playwright] is the outcome of the call of
    [buscar_criativos_facebook], [selenium] that of
    [buscar_criativos_facebook_selenium].  The list that asks for a manual
    solve is looked for on the first path only; on the second path it
    reaches [enhance_results], which raises on an element that is no
    record. *)
Definition search_ads (use_selenium_fallback : bool)
    (playwright selenium : outcome acquired) (request : SearchRequest)
    : response :=
  let finish results :=
    match results with
    | [] => Ok []
    | _ :: _ =>
        match Pipeline.pipeline results request with
        | Some filtered_results => Ok filtered_results
        | None => ServerError InternalError
        end
    end in
  if negb (nonempty (strip (request_query request))) then
    BadRequest (lit "Query não pode ser vazia")
  else if Z.of_nat (List.length (strip (request_query request))) <? 2 then
    BadRequest (lit "Query deve ter pelo menos 2 caracteres")
  else
    match playwright with
    | Returned (NeedsManualSolve message) => ManualSolve message
    | Returned (Results results) => finish results
    | Raised =>
        if use_selenium_fallback then
          match selenium with
          | Raised => ServerError ScrapingError
          | Returned (Results results) => finish results
          | Returned (NeedsManualSolve _) => ServerError InternalError
          end
        else ServerError ScrapingError
    end.

End Api.

(* ================================================================= *)
(** * Properties *)

(* ================================================================= *)
(** ** The matcher *)

Section RegexFacts.

Import PyStr Re.

Lemma span_le_length (p : char -> bool) (hi : option nat) (s : str) :
  (span p hi s <= List.length s)%nat.
Proof.
  revert hi. induction s as [| c s IH]; intros hi.
  - destruct hi as [[| h] |]; simpl; lia.
  - destruct hi as [[| h] |]; simpl; try lia;
      destruct (p c); simpl; try lia.
    + specialize (IH (Some h)). simpl in IH. lia.
    + specialize (IH None). simpl in IH. lia.
Qed.

Lemma span_le_hi (p : char -> bool) (h : nat) (s : str) :
  (span p (Some h) s <= h)%nat.
Proof.
  revert h. induction s as [| c s IH]; intros [| h]; simpl; try lia.
  destruct (p c); [| lia]. specialize (IH h). simpl. lia.
Qed.

Lemma span_firstn (p : char -> bool) (hi : option nat) (s : str) (n : nat) :
  (n <= span p hi s)%nat -> is_true_on p (firstn n s).
Proof.
  revert hi n. induction s as [| c s IH]; intros hi n H.
  - destruct n; constructor || (destruct hi as [[| h] |]; simpl in H; lia).
  - destruct n as [| n]; [constructor |].
    assert (E : p c = true /\ (n <= span p (option_map Nat.pred hi) s)%nat).
    { destruct hi as [[| h] |]; simpl in H; try lia;
        destruct (p c); simpl in *; try lia; split; auto; lia. }
    destruct E as [E1 E2]. simpl. constructor; [exact E1 |].
    now apply IH with (hi := option_map Nat.pred hi).
Qed.

Lemma in_count_down (n lo k : nat) :
  In k (count_down n lo) -> (lo <= k <= n)%nat.
Proof.
  induction n as [| n IH]; simpl.
  - destruct (Nat.ltb 0 lo) eqn:E; simpl; [tauto |].
    apply Nat.ltb_ge in E. intros [<- | []]. lia.
  - destruct (Nat.ltb (S n) lo) eqn:E; simpl; [tauto |].
    apply Nat.ltb_ge in E. intros [<- | H]; [lia |].
    specialize (IH H). lia.
Qed.

(** What a greedy repetition can consume. *)
Lemma in_run_Rep (p : char -> bool) (lo : nat) (hi : option nat)
    (s s' : str) (g g' : groups) :
  In (s', g') (run (Rep p lo hi) s g) ->
  g' = g /\ exists w, s = w ++ s' /\ is_true_on p w
    /\ (lo <= List.length w)%nat
    /\ (forall h, hi = Some h -> (List.length w <= h)%nat).
Proof.
  simpl. rewrite in_map_iff. intros [n [E Hn]]. injection E as <- <-.
  apply in_count_down in Hn. split; [reflexivity |].
  exists (firstn n s). pose proof (span_le_length p hi s) as Hl.
  repeat split.
  - symmetry. apply firstn_skipn.
  - apply span_firstn with (hi := hi). lia.
  - rewrite length_firstn. lia.
  - intros h ->. rewrite length_firstn. pose proof (span_le_hi p h s). lia.
Qed.

Lemma in_run_Seq (a b : regex) (s s' : str) (g g' : groups) :
  In (s', g') (run (Seq a b) s g) ->
  exists s1 g1, In (s1, g1) (run a s g) /\ In (s', g') (run b s1 g1).
Proof.
  simpl. rewrite in_flat_map. intros [[s1 g1] [H1 H2]]. now exists s1, g1.
Qed.

Lemma in_run_Alt (a b : regex) (s s' : str) (g g' : groups) :
  In (s', g') (run (Alt a b) s g) ->
  In (s', g') (run a s g) \/ In (s', g') (run b s g).
Proof. simpl. apply in_app_or. Qed.

Lemma in_run_Chr (c : char) (s s' : str) (g g' : groups) :
  In (s', g') (run (Chr c) s g) -> g' = g /\ s = c :: s'.
Proof.
  simpl. destruct s as [| x s0]; [intros [] |].
  destruct (N.eqb_spec x c) as [-> |]; [| intros []].
  intros [E | []]. injection E as <- <-. auto.
Qed.

Lemma in_run_Cls (p : char -> bool) (s s' : str) (g g' : groups) :
  In (s', g') (run (Cls p) s g) -> g' = g /\ exists c, s = c :: s' /\ p c = true.
Proof.
  simpl. destruct s as [| x s0]; [intros [] |].
  destruct (p x) eqn:E; [| intros []].
  intros [H | []]. injection H as <- <-. eauto.
Qed.

(** Every way to match leaves a suffix of the text. *)
Lemma run_suffix (r : regex) (s s' : str) (g g' : groups) :
  In (s', g') (run r s g) -> exists w, s = w ++ s'.
Proof.
  revert s s' g g'. induction r; intros s s' g g' H.
  - destruct H as [E | []]. injection E as <- <-. now exists [].
  - apply in_run_Chr in H as [_ ->]. now exists [c].
  - apply in_run_Cls in H as [_ [c [-> _]]]. now exists [c].
  - apply in_run_Seq in H as [s1 [g1 [H1 H2]]].
    apply IHr1 in H1 as [w1 ->]. apply IHr2 in H2 as [w2 ->].
    exists (w1 ++ w2). now rewrite app_assoc.
  - apply in_run_Alt in H as [H | H]; eauto.
  - apply in_run_Rep in H as [_ [w [-> _]]]. now exists w.
  - simpl in H. apply in_map_iff in H as [[s1 g1] [E H]].
    injection E as <- <-. simpl. eauto.
Qed.

(** A group records the text its body consumed. *)
Lemma in_run_Grp (i : nat) (a : regex) (s s' : str) (g g' : groups) :
  In (s', g') (run (Grp i a) s g) ->
  exists w g1, s = w ++ s' /\ In (s', g1) (run a s g) /\ g' = (i, w) :: g1.
Proof.
  simpl. rewrite in_map_iff. intros [[s1 g1] [E H]]. injection E as <- <-.
  simpl. destruct (run_suffix _ _ _ _ _ H) as [w ->].
  exists w, g1. repeat split; [exact H |].
  rewrite length_app, Nat.add_sub, firstn_app, Nat.sub_diag, firstn_all.
  simpl. now rewrite app_nil_r.
Qed.

Lemma in_run_Str (l : str) (s s' : str) (g g' : groups) :
  In (s', g') (run (Str l) s g) -> g' = g /\ s = l ++ s'.
Proof.
  revert s g. induction l as [| c l IH]; intros s g H.
  - destruct H as [E | []]. injection E as <- <-. auto.
  - simpl Str in H. apply in_run_Seq in H as [s1 [g1 [H1 H2]]].
    apply in_run_Chr in H1 as [-> ->]. apply IH in H2 as [-> ->]. auto.
Qed.

(** A capturing repetition: the group is what the repetition consumed. *)
Lemma in_run_Grp_Rep (i : nat) (p : char -> bool) (lo : nat) (hi : option nat)
    (s s' : str) (g g' : groups) :
  In (s', g') (run (Grp i (Rep p lo hi)) s g) ->
  exists w, g' = (i, w) :: g /\ s = w ++ s' /\ is_true_on p w
    /\ (lo <= List.length w)%nat
    /\ (forall h, hi = Some h -> (List.length w <= h)%nat).
Proof.
  intros H. apply in_run_Grp in H as [w [g1 [E [H ->]]]].
  apply in_run_Rep in H as [-> [w' [E' [Hp [Hlo Hhi]]]]].
  assert (w' = w) as ->.
  { rewrite E' in E. now apply app_inv_tail in E. }
  exists w. auto.
Qed.

Lemma rmatch_some (r : regex) (s : str) (sg : str * groups) :
  rmatch r s = Some sg -> In sg (run r s []).
Proof.
  unfold rmatch. destruct (run r s []) as [| x l]; [discriminate |].
  intros E. injection E as <-. now left.
Qed.

(** A successful search is a match at the start of some suffix. *)
Lemma search_some (r : regex) (s : str) (g : groups) :
  search r s = Some g ->
  exists before s0 s', s = before ++ s0 /\ In (s', g) (run r s0 []).
Proof.
  induction s as [| c s IH]; simpl.
  - destruct (rmatch r []) as [sg |] eqn:E; [| discriminate].
    intros H. injection H as <-. apply rmatch_some in E.
    exists [], [], (fst sg). split; [reflexivity |]. now destruct sg.
  - destruct (rmatch r (c :: s)) as [sg |] eqn:E.
    + intros H. injection H as <-. apply rmatch_some in E.
      exists [], (c :: s), (fst sg). split; [reflexivity |]. now destruct sg.
    + intros H. apply IH in H as [before [s0 [s' [-> H]]]].
      exists (c :: before), s0, s'. auto.
Qed.

(** *** Digits and [int] *)

Lemma isspace_cases (c : char) :
  isspace c = true ->
  In c [0x09; 0x0A; 0x0B; 0x0C; 0x0D; 0x1C; 0x1D; 0x1E; 0x1F; 0x20; 0x85;
        0xA0; 0x1680; 0x2000; 0x2001; 0x2002; 0x2003; 0x2004; 0x2005;
        0x2006; 0x2007; 0x2008; 0x2009; 0x200A; 0x2028; 0x2029; 0x202F;
        0x205F; 0x3000]%N.
Proof.
  unfold isspace. rewrite !orb_true_iff, !andb_true_iff, !N.leb_le, !N.eqb_eq.
  intros H. simpl.
  assert (K : (9 <= c <= 13 \/ 28 <= c <= 32 \/ c = 133 \/ c = 160 \/ c = 5760
          \/ 8192 <= c <= 8202 \/ c = 8232 \/ c = 8233 \/ c = 8239
          \/ c = 8287 \/ c = 12288)%N) by lia.
  clear H. lia.
Qed.

Lemma decimal_not_space (c : char) : isdecimal c = true -> isspace c = false.
Proof.
  intros D. destruct (isspace c) eqn:S; [| reflexivity].
  apply isspace_cases in S.
  repeat (destruct S as [<- | S]; [vm_compute in D; discriminate D |]).
  destruct S.
Qed.

Lemma decimal_not_sign (c : char) :
  isdecimal c = true -> (c =? ch "-")%N = false /\ (c =? ch "+")%N = false.
Proof.
  intros D. split; apply N.eqb_neq; intros ->; vm_compute in D; discriminate D.
Qed.

Lemma lstrip_decimal (c : char) (w : str) :
  isdecimal c = true -> lstrip (c :: w) = c :: w.
Proof. intros D. simpl. now rewrite (decimal_not_space c D). Qed.

Lemma strip_digits (w : str) : is_true_on isdecimal w -> strip w = w.
Proof.
  intros H. unfold strip, rstrip.
  assert (L : forall v, is_true_on isdecimal v -> lstrip v = v).
  { intros v Hv. destruct Hv as [| c v Hc _]; [reflexivity |].
    now apply lstrip_decimal. }
  rewrite (L w H), L, rev_involutive; [reflexivity |].
  now apply Forall_rev.
Qed.

Lemma digits_value_some (w : str) (acc : option N) :
  is_true_on isdecimal w -> (w <> [] \/ acc <> None) ->
  exists n, digits_value acc w = Some n.
Proof.
  intros H. revert acc. induction H as [| c w Hc _ IH]; intros acc Hne.
  - destruct acc as [a |]; [now exists a | destruct Hne; congruence].
  - simpl. unfold isdecimal in Hc.
    destruct (decimal_value c) as [d |]; [| discriminate Hc].
    apply IH. right. discriminate.
Qed.

(** [int] on a run of decimal digits: a value that is not negative when
    the run has at most 4300 digits, [ValueError] beyond. *)
Lemma int_digits (w : str) :
  is_true_on isdecimal w -> w <> [] -> (List.length w <= 4300)%nat ->
  exists n, int w = Some (Z.of_N n).
Proof.
  intros H Hne Hl. unfold int. rewrite (strip_digits w H).
  destruct w as [| c w]; [congruence |].
  assert (Hc : isdecimal c = true) by now inversion H.
  destruct (decimal_not_sign c Hc) as [-> ->].
  unfold digits_int, max_str_digits.
  replace (4300 <? N.of_nat (List.length (c :: w)))%N with false
    by (symmetry; apply N.ltb_ge; lia).
  destruct (digits_value_some (c :: w) None H) as [n ->]; [now left |].
  now exists n.
Qed.

Lemma int_digits_beyond (w : str) :
  is_true_on isdecimal w -> (4300 < List.length w)%nat -> int w = None.
Proof.
  intros H Hl. unfold int. rewrite (strip_digits w H).
  destruct w as [| c w]; [reflexivity |].
  assert (Hc : isdecimal c = true) by now inversion H.
  destruct (decimal_not_sign c Hc) as [-> ->].
  unfold digits_int, max_str_digits.
  replace (4300 <? N.of_nat (List.length (c :: w)))%N with true
    by (symmetry; apply N.ltb_lt; lia).
  reflexivity.
Qed.

Lemma int_digits_nonneg (w : str) (n : Z) :
  is_true_on isdecimal w -> int w = Some n -> (0 <= n)%Z.
Proof.
  intros H. unfold int. rewrite (strip_digits w H).
  destruct w as [| c w]; [discriminate |].
  assert (Hc : isdecimal c = true) by now inversion H.
  destruct (decimal_not_sign c Hc) as [-> ->].
  destruct (digits_int (c :: w)) as [m |]; [| discriminate].
  cbn [option_map]. intros E. injection E as <-. lia.
Qed.

End RegexFacts.

Lemma in_run_Eps (s s' : PyStr.str) (g g' : Re.groups) :
  In (s', g') (Re.run Re.Eps s g) -> g' = g /\ s = s'.
Proof. intros [E | []]. injection E as <- <-. auto. Qed.

Ltac invert_run :=
  repeat match goal with
  | H : In _ (Re.run (Re.Seq _ _) _ _) |- _ =>
      apply in_run_Seq in H; destruct H as (? & ? & ? & H)
  | H : In _ (Re.run (Re.Str _) _ _) |- _ =>
      apply in_run_Str in H; destruct H as (? & ?)
  | H : In _ (Re.run (Re.Chr _) _ _) |- _ =>
      apply in_run_Chr in H; destruct H as (? & ?)
  | H : In _ (Re.run (Re.Grp _ (Re.Rep _ _ _)) _ _) |- _ =>
      apply in_run_Grp_Rep in H; destruct H as (? & ? & ? & ? & ? & ?)
  | H : In _ (Re.run (Re.Grp _ _) _ _) |- _ =>
      apply in_run_Grp in H; destruct H as (? & ? & ? & ? & ?)
  | H : In _ (Re.run (Re.Rep _ _ _) _ _) |- _ =>
      apply in_run_Rep in H; destruct H as (? & ? & ? & ? & ? & ?)
  | H : In _ (Re.run (Re.Alt _ _) _ _) |- _ =>
      apply in_run_Alt in H; destruct H as [H | H]
  | H : In _ (Re.run Re.Eps _ _) |- _ =>
      apply in_run_Eps in H; destruct H as (? & ?)
  end.

(* ================================================================= *)
(** ** NumericScore *)

Section ScoreFacts.

Import Score.
Local Open Scope R_scope.

(** The hyperbolic tangent in one fraction: increasing, below 1. *)
Lemma tanh_alt (x : R) : tanh x = 1 - 2 / (exp x * exp x + 1).
Proof.
  unfold tanh, sinh, cosh. rewrite exp_Ropp.
  pose proof (exp_pos x) as Hp. field. split; nra.
Qed.

Lemma exp_le_mono (x y : R) : x <= y -> exp x <= exp y.
Proof.
  intros [H | ->]; [left; now apply exp_increasing | right; reflexivity].
Qed.

Lemma tanh_mono (x y : R) : x <= y -> tanh x <= tanh y.
Proof.
  intros H. rewrite !tanh_alt.
  pose proof (exp_pos x) as Hx. pose proof (exp_pos y) as Hy.
  pose proof (exp_le_mono x y H) as Hxy.
  assert (Hsq : exp x * exp x + 1 <= exp y * exp y + 1) by nra.
  assert (Hpx : 0 < exp x * exp x + 1) by nra.
  assert (Hinv : / (exp y * exp y + 1) <= / (exp x * exp x + 1)).
  { apply Rinv_le_contravar; assumption. }
  unfold Rdiv. lra.
Qed.

Lemma tanh_lt_1 (x : R) : tanh x < 1.
Proof.
  rewrite tanh_alt. pose proof (exp_pos x) as Hx.
  assert (0 < / (exp x * exp x + 1)) by (apply Rinv_0_lt_compat; nra).
  unfold Rdiv. lra.
Qed.

Lemma tanh_nonneg (x : R) : 0 <= x -> 0 <= tanh x.
Proof.
  intros H. replace 0 with (tanh 0) at 1.
  - now apply tanh_mono.
  - rewrite tanh_alt, exp_0. field.
Qed.

(** Rounding to the nearest integer is monotone and fixes the integers. *)
Lemma Zfloor_mono (x y : R) : x <= y -> (Zfloor x <= Zfloor y)%Z.
Proof.
  intros H. apply Zfloor_lub. pose proof (Zfloor_bound x). lra.
Qed.

Lemma round_half_even_bounds (x : R) :
  (Zfloor x <= round_half_even x <= Zfloor x + 1)%Z.
Proof.
  unfold round_half_even.
  destruct (Rlt_dec _ _); [lia |].
  destruct (Rlt_dec _ _); [lia |].
  destruct (Z.even _); lia.
Qed.

Lemma round_half_even_mono (x y : R) :
  x <= y -> (round_half_even x <= round_half_even y)%Z.
Proof.
  intros H. pose proof (Zfloor_mono x y H) as Hf.
  destruct (Z.eq_dec (Zfloor x) (Zfloor y)) as [E | NE].
  - unfold round_half_even. rewrite E.
    destruct (Rlt_dec (x - IZR (Zfloor y)) (1 / 2)) as [a | a].
    + repeat destruct (Rlt_dec _ _); try destruct (Z.even _); lia.
    + destruct (Rlt_dec (y - IZR (Zfloor y)) (1 / 2)) as [b | b]; [lra |].
      destruct (Rlt_dec (1 / 2) (x - IZR (Zfloor y))) as [c | c].
      * destruct (Rlt_dec (1 / 2) (y - IZR (Zfloor y))) as [d | d]; [lia | lra].
      * destruct (Rlt_dec (1 / 2) (y - IZR (Zfloor y))); destruct (Z.even _); lia.
  - pose proof (round_half_even_bounds x). pose proof (round_half_even_bounds y). lia.
Qed.

Lemma round_half_even_IZR (n : Z) : round_half_even (IZR n) = n.
Proof.
  unfold round_half_even.
  assert (E : Zfloor (IZR n) = n) by (apply Zfloor_eq; lra).
  rewrite E. destruct (Rlt_dec _ _); [reflexivity | lra].
Qed.

Lemma round2_mono (x y : R) : x <= y -> round2 x <= round2 y.
Proof.
  intros H. unfold round2.
  assert (Hz : (round_half_even (x * 100) <= round_half_even (y * 100))%Z)
    by (apply round_half_even_mono; lra).
  apply IZR_le in Hz. lra.
Qed.

Lemma round2_hundredths (n : Z) : round2 (IZR n / 100) = IZR n / 100.
Proof.
  unfold round2. replace (IZR n / 100 * 100) with (IZR n) by field.
  now rewrite round_half_even_IZR.
Qed.

Lemma clamp_bounds (v lo hi : R) : lo <= hi -> lo <= clamp v lo hi <= hi.
Proof.
  intros H. unfold clamp, Rmax, Rmin.
  repeat destruct (Rle_dec _ _); lra.
Qed.

Lemma clamp_mono (v v' lo hi : R) : v <= v' -> clamp v lo hi <= clamp v' lo hi.
Proof.
  intros H. unfold clamp, Rmax, Rmin.
  repeat destruct (Rle_dec _ _); lra.
Qed.

Lemma Rmax_mono_r (a x y : R) : x <= y -> Rmax a x <= Rmax a y.
Proof. intros H. unfold Rmax. repeat destruct (Rle_dec _ _); lra. Qed.

(** [math.tanh] has no failing input: the [except] branch of [safe_tanh] is
    never taken. *)
Lemma safe_tanh_tanh (x : R) : safe_tanh x = tanh x.
Proof. reflexivity. Qed.

Lemma raw_score_mono (A D V A' D' V' : R) :
  A <= A' -> D <= D' -> V <= V' -> raw_score A D V <= raw_score A' D' V'.
Proof.
  intros HA HD HV. unfold raw_score, safe_tanh, math_tanh.
  assert (Ht : tanh (V / 5) <= tanh (V' / 5)) by (apply tanh_mono; lra).
  lra.
Qed.

Lemma raw_score_range (A D V : R) :
  0 <= A <= 50 -> 0 <= D <= 60 -> 0 <= V -> 0 <= raw_score A D V <= 100.
Proof.
  intros HA HD HV. unfold raw_score, safe_tanh, math_tanh.
  assert (H0 : 0 <= tanh (V / 5)) by (apply tanh_nonneg; lra).
  pose proof (tanh_lt_1 (V / 5)) as H1.
  lra.
Qed.

(** The conversion to float: the integers it takes. *)
Lemma float_inv (n : Z) (f : R) :
  float n = Some f -> f = IZR n /\ (Z.abs n < float_limit)%Z.
Proof.
  unfold float. destruct (Z.abs n <? float_limit)%Z eqn:E; [| discriminate].
  intros H. injection H as <-. split; [reflexivity | now apply Z.ltb_lt].
Qed.

Lemma float_fits (n : Z) :
  (Z.abs n < float_limit)%Z -> float n = Some (IZR n).
Proof. intros H. unfold float. apply Z.ltb_lt in H. now rewrite H. Qed.

Lemma float_overflow (n : Z) :
  (float_limit <= Z.abs n)%Z -> float n = None.
Proof. intros H. unfold float. apply Z.ltb_ge in H. now rewrite H. Qed.

Lemma float_limit_large : (1000000 < float_limit)%Z.
Proof. vm_compute. reflexivity. Qed.

(** The three counters as [compute_score] converts them are below the
    limit of [float]. *)
Lemma compute_score_inv (a d v : option Z) (s : R) :
  compute_score a d v = Some s ->
  s = round2 (raw_score (clamp (IZR (int_or a 0)) 0 50)
                (clamp (IZR (int_or d 0)) 0 60) (Rmax 1 (IZR (int_or v 1))))
  /\ (Z.abs (int_or a 0) < float_limit)%Z
  /\ (Z.abs (int_or d 0) < float_limit)%Z
  /\ (Z.abs (int_or v 1) < float_limit)%Z.
Proof.
  unfold compute_score.
  destruct (float (int_or a 0)) as [fa |] eqn:Ea; [| discriminate].
  destruct (float (int_or d 0)) as [fd |] eqn:Ed; [| discriminate].
  destruct (float (int_or v 1)) as [fv |] eqn:Ev; [| discriminate].
  apply float_inv in Ea as [-> Ha], Ed as [-> Hd], Ev as [-> Hv].
  cbv zeta. intros H. injection H as <-. auto.
Qed.

Lemma compute_score_fits (a d v : option Z) :
  (Z.abs (int_or a 0) < float_limit)%Z ->
  (Z.abs (int_or d 0) < float_limit)%Z ->
  (Z.abs (int_or v 1) < float_limit)%Z ->
  compute_score a d v
  = Some (round2 (raw_score (clamp (IZR (int_or a 0)) 0 50)
                    (clamp (IZR (int_or d 0)) 0 60)
                    (Rmax 1 (IZR (int_or v 1))))).
Proof.
  intros Ha Hd Hv. unfold compute_score.
  now rewrite (float_fits _ Ha), (float_fits _ Hd), (float_fits _ Hv).
Qed.

Lemma compute_score_none (a d v : option Z) :
  compute_score a d v = None
  <-> (float_limit <= Z.abs (int_or a 0))%Z
      \/ (float_limit <= Z.abs (int_or d 0))%Z
      \/ (float_limit <= Z.abs (int_or v 1))%Z.
Proof.
  split.
  - intros H.
    destruct (Z_lt_le_dec (Z.abs (int_or a 0)) float_limit) as [Ha | Ha]; [| auto].
    destruct (Z_lt_le_dec (Z.abs (int_or d 0)) float_limit) as [Hd | Hd]; [| auto].
    destruct (Z_lt_le_dec (Z.abs (int_or v 1)) float_limit) as [Hv | Hv]; [| auto].
    rewrite (compute_score_fits a d v Ha Hd Hv) in H. discriminate H.
  - intros H. destruct (compute_score a d v) as [s |] eqn:E; [| reflexivity].
    apply compute_score_inv in E as (_ & Ha & Hd & Hv). lia.
Qed.

Lemma compute_score_mono (a d v a' d' v' : option Z) (s s' : R) :
  compute_score a d v = Some s -> compute_score a' d' v' = Some s' ->
  (int_or a 0 <= int_or a' 0)%Z -> (int_or d 0 <= int_or d' 0)%Z ->
  (int_or v 1 <= int_or v' 1)%Z ->
  s <= s'.
Proof.
  intros E E' Ha Hd Hv.
  apply compute_score_inv in E as [-> _], E' as [-> _].
  apply round2_mono, raw_score_mono.
  - apply clamp_mono. now apply IZR_le.
  - apply clamp_mono. now apply IZR_le.
  - apply Rmax_mono_r. now apply IZR_le.
Qed.

Lemma compute_score_range (a d v : option Z) (s : R) :
  compute_score a d v = Some s -> 0 <= s <= 100.
Proof.
  intros E. apply compute_score_inv in E as [-> _].
  set (A := clamp _ 0 50). set (D := clamp _ 0 60). set (V := Rmax 1 _).
  assert (HR : 0 <= raw_score A D V <= 100).
  { apply raw_score_range.
    - apply clamp_bounds; lra.
    - apply clamp_bounds; lra.
    - pose proof (Rmax_l 1 (IZR (int_or v 1))). fold V in H. lra. }
  split.
  - apply Rle_trans with (round2 (IZR 0 / 100)).
    + rewrite round2_hundredths; lra.
    + apply round2_mono; lra.
  - apply Rle_trans with (round2 (IZR 10000 / 100)).
    + apply round2_mono; lra.
    + rewrite round2_hundredths; lra.
Qed.

Lemma int_or_some_0 (a : Z) : int_or (Some a) 0 = a.
Proof. destruct a; reflexivity. Qed.

Lemma int_or_some_1 (v : Z) : (1 <= v)%Z -> int_or (Some v) 1 = v.
Proof. destruct v; simpl; intros; try reflexivity; lia. Qed.

(** Claim C2, amended.  For integers [a >= 0], [d >= 0] and [v >= 1] below
    the limit of [float], [compute_score a d v] returns a value in
    [0, 100], and the value does not decrease when one of the three
    arguments grows below that limit and the other two stay.  An argument
    at the limit or beyond makes [float] raise, and [compute_score] with
    it. *)
Theorem compute_score_range_monotone (a d v : Z) :
  (0 <= a < float_limit)%Z -> (0 <= d < float_limit)%Z ->
  (1 <= v < float_limit)%Z ->
  exists s,
    compute_score (Some a) (Some d) (Some v) = Some s
    /\ 0 <= s <= 100
    /\ (forall a', (a <= a' < float_limit)%Z ->
          exists s', compute_score (Some a') (Some d) (Some v) = Some s'
                     /\ s <= s')
    /\ (forall d', (d <= d' < float_limit)%Z ->
          exists s', compute_score (Some a) (Some d') (Some v) = Some s'
                     /\ s <= s')
    /\ (forall v', (v <= v' < float_limit)%Z ->
          exists s', compute_score (Some a) (Some d) (Some v') = Some s'
                     /\ s <= s')
    /\ (forall n, (float_limit <= n)%Z ->
          compute_score (Some n) (Some d) (Some v) = None
          /\ compute_score (Some a) (Some n) (Some v) = None
          /\ compute_score (Some a) (Some d) (Some n) = None).
Proof.
  intros Ha Hd Hv.
  assert (R : forall x y z, (0 <= x < float_limit)%Z -> (0 <= y < float_limit)%Z ->
                (1 <= z < float_limit)%Z ->
                exists s, compute_score (Some x) (Some y) (Some z) = Some s).
  { intros x y z Hx Hy Hz. eexists. apply compute_score_fits;
      rewrite ?int_or_some_0, ?int_or_some_1; lia. }
  destruct (R a d v Ha Hd Hv) as [s E]. exists s.
  split; [exact E |]. split; [exact (compute_score_range _ _ _ _ E) |].
  repeat split.
  - intros a' Ha'. destruct (R a' d v ltac:(lia) Hd Hv) as [s' E'].
    exists s'. split; [exact E' |].
    apply (compute_score_mono _ _ _ _ _ _ _ _ E E');
      rewrite ?int_or_some_0, ?int_or_some_1; lia.
  - intros d' Hd'. destruct (R a d' v Ha ltac:(lia) Hv) as [s' E'].
    exists s'. split; [exact E' |].
    apply (compute_score_mono _ _ _ _ _ _ _ _ E E');
      rewrite ?int_or_some_0, ?int_or_some_1; lia.
  - intros v' Hv'. destruct (R a d v' Ha Hd ltac:(lia)) as [s' E'].
    exists s'. split; [exact E' |].
    apply (compute_score_mono _ _ _ _ _ _ _ _ E E');
      rewrite ?int_or_some_0, ?int_or_some_1; lia.
  - apply compute_score_none. left. rewrite int_or_some_0. lia.
  - apply compute_score_none. right. left. rewrite int_or_some_0. lia.
  - apply compute_score_none. right. right.
    rewrite int_or_some_1 by (pose proof float_limit_large; lia). lia.
Qed.

(** Claim C2 as stated fails: for a non-negative integer beyond the range
    of [float], here [10^400], [compute_score] returns no value,
    [float] raises. *)
Lemma compute_score_overflow :
  (0 <= 10 ^ 400)%Z
  /\ compute_score (Some (10 ^ 400)%Z) (Some 0%Z) (Some 1%Z) = None
  /\ ~ (exists s, compute_score (Some (10 ^ 400)%Z) (Some 0%Z) (Some 1%Z) = Some s
                  /\ 0 <= s <= 100).
Proof.
  assert (E : compute_score (Some (10 ^ 400)%Z) (Some 0%Z) (Some 1%Z) = None).
  { apply compute_score_none. left. rewrite int_or_some_0.
    vm_compute. discriminate. }
  split; [vm_compute; discriminate |]. split; [exact E |].
  intros [s [H _]]. rewrite E in H. discriminate H.
Qed.

(** The score of counters inside the clamps, within the width of the
    variation term. *)
Lemma clamp_inside (x lo hi : R) : lo <= x <= hi -> clamp x lo hi = x.
Proof.
  intros H. unfold Score.clamp, Rmax, Rmin. repeat destruct (Rle_dec _ _); lra.
Qed.

Lemma compute_score_window (a d : Z) (v : option Z) (s : R) :
  (0 <= a <= 50)%Z -> (0 <= d <= 60)%Z ->
  compute_score (Some a) (Some d) v = Some s ->
  IZR (100 * a + 50 * d) / 100 <= s <= IZR (100 * a + 50 * d + 2000) / 100.
Proof.
  intros Ha Hd E. apply compute_score_inv in E as [-> _].
  rewrite !int_or_some_0.
  rewrite (clamp_inside (IZR a) 0 50), (clamp_inside (IZR d) 0 60);
    try (split; apply IZR_le; lia).
  set (V := Rmax 1 (IZR (Score.int_or v 1))).
  assert (HV0 : 0 <= V / 5) by
    (pose proof (Rmax_l 1 (IZR (int_or v 1))) as HV; fold V in HV; lra).
  pose proof (tanh_nonneg _ HV0) as T0. pose proof (tanh_lt_1 (V / 5)) as T1.
  rewrite <- (round2_hundredths (100 * a + 50 * d)%Z),
    <- (round2_hundredths (100 * a + 50 * d + 2000)%Z).
  rewrite !plus_IZR, !mult_IZR.
  unfold Score.raw_score, Score.safe_tanh, Score.math_tanh.
  split; apply round2_mono; lra.
Qed.

Lemma compute_score_range_monotone_witness :
  exists s,
    compute_score (Some 10%Z) (Some 5%Z) (Some 1%Z) = Some s /\ 0 <= s <= 100.
Proof.
  destruct (compute_score_range_monotone 10 5 1) as (s & E & R & _).
  - split; [lia | vm_compute; reflexivity].
  - split; [lia | vm_compute; reflexivity].
  - split; [lia | vm_compute; reflexivity].
  - exists s. split; [exact E | exact R].
Defined.

(** Bounds on [exp (1/5)] by repeated squaring from [exp (1/1280)]. *)
Lemma exp_double_bounds (x l u l' u' : R) :
  0 < l -> l <= exp x <= u -> l' <= l * l -> u * u <= u' ->
  l' <= exp (2 * x) <= u'.
Proof.
  intros Hl [H1 H2] Hl' Hu'.
  replace (2 * x) with (x + x) by lra. rewrite exp_plus.
  split; nra.
Qed.

Lemma exp_small_bounds (x : R) :
  0 < x < 1 -> 1 + x <= exp x <= / (1 - x).
Proof.
  intros Hx. split; [apply exp_ineq1_le |].
  pose proof (exp_ineq1_le (- x)) as Hn. rewrite exp_Ropp in Hn.
  pose proof (exp_pos x) as Hp.
  apply Rmult_le_reg_r with (1 - x); [lra |].
  rewrite Rinv_l by lra.
  assert (Hi : / exp x * exp x = 1) by (apply Rinv_l; lra).
  nra.
Qed.

Lemma exp_fifth_bounds : 1.221307389265 <= exp (1 / 5) <= 1.221498233815.
Proof.
  assert (H0 : 1281 / 1280 <= exp (1 / 1280) <= 1280 / 1279).
  { pose proof (exp_small_bounds (1 / 1280)) as H.
    replace (/ (1 - 1 / 1280)) with (1280 / 1279) in H by field.
    lra. }
  assert (H1 : 1.001563110351 <= exp (1 / 640) <= 1.001564332964).
  { replace (1 / 640) with (2 * (1 / 1280)) by lra.
    eapply exp_double_bounds; [| exact H0 | |]; lra. }
  assert (H2 : 1.003128664015 <= exp (1 / 320) <= 1.003131113066).
  { replace (1 / 320) with (2 * (1 / 640)) by lra.
    eapply exp_double_bounds; [| exact H1 | |]; lra. }
  assert (H3 : 1.006267116568 <= exp (1 / 160) <= 1.006272030002).
  { replace (1 / 160) with (2 * (1 / 320)) by lra.
    eapply exp_double_bounds; [| exact H2 | |]; lra. }
  assert (H4 : 1.012573509886 <= exp (1 / 80) <= 1.012583398365).
  { replace (1 / 80) with (2 * (1 / 160)) by lra.
    eapply exp_double_bounds; [| exact H3 | |]; lra. }
  assert (H5 : 1.025305112922 <= exp (1 / 40) <= 1.025325138645).
  { replace (1 / 40) with (2 * (1 / 80)) by lra.
    eapply exp_double_bounds; [| exact H4 | |]; lra. }
  assert (H6 : 1.051250574583 <= exp (1 / 20) <= 1.051291639938).
  { replace (1 / 20) with (2 * (1 / 40)) by lra.
    eapply exp_double_bounds; [| exact H5 | |]; lra. }
  assert (H7 : 1.105127770561 <= exp (1 / 10) <= 1.105214112204).
  { replace (1 / 10) with (2 * (1 / 20)) by lra.
    eapply exp_double_bounds; [| exact H6 | |]; lra. }
  replace (1 / 5) with (2 * (1 / 10)) by lra.
  eapply exp_double_bounds; [| exact H7 | |]; lra.
Qed.

Lemma tanh_fifth_bounds : 0.19725 < tanh (1 / 5) < 0.19775.
Proof.
  rewrite tanh_alt. destruct exp_fifth_bounds as [Hl Hu].
  set (a := exp (1 / 5)) in *.
  assert (Ha2l : 1.4915 <= a * a) by nra.
  assert (Ha2u : a * a <= 1.4921) by nra.
  set (b := a * a) in *. clearbody b. clear Hl Hu. clearbody a.
  assert (Hq : / (b + 1) * (b + 1) = 1) by (apply Rinv_l; lra).
  assert (Hq0 : 0 < / (b + 1)) by (apply Rinv_0_lt_compat; lra).
  unfold Rdiv. set (q := / (b + 1)) in *. clearbody q.
  assert (H1 : 0 <= q * (b - 1.4915)) by (apply Rmult_le_pos; lra).
  assert (H2 : 0 <= q * (1.4921 - b)) by (apply Rmult_le_pos; lra).
  split; lra.
Qed.

Lemma round_half_even_near (n : Z) (y : R) :
  IZR n - 1 / 2 < y < IZR n + 1 / 2 -> round_half_even y = n.
Proof.
  intros [H1 H2]. unfold round_half_even.
  destruct (Rlt_dec y (IZR n)) as [Hlt | Hge].
  - assert (E : Zfloor y = (n - 1)%Z).
    { apply Zfloor_eq. rewrite minus_IZR. lra. }
    rewrite E, minus_IZR.
    destruct (Rlt_dec _ _); [lra |].
    destruct (Rlt_dec _ _); [lia | lra].
  - assert (E : Zfloor y = n) by (apply Zfloor_eq; lra).
    rewrite E. destruct (Rlt_dec _ _); [reflexivity | lra].
Qed.

Lemma round2_lowest : round2 (100 * 0.2 * tanh (1 / 5)) = 3.95.
Proof.
  unfold round2. pose proof tanh_fifth_bounds as H.
  rewrite (round_half_even_near 395).
  - lra.
  - lra.
Qed.

(** Claim C10, amended.  [round(100 * 0.2 * tanh(1/5), 2)] is 3.95, and
    for every triple of arguments, [None] and negative numbers included,
    a value that [compute_score] returns is at least 3.95, so never 0.  It
    returns a value exactly when the three counters, as it converts them,
    are below the limit of [float] in absolute value. *)
Theorem compute_score_at_least_3_95 :
  round2 (100 * 0.2 * tanh (1 / 5)) = 3.95
  /\ forall a d v : option Z,
       match compute_score a d v with
       | Some s =>
           3.95 <= s /\ s <> 0
           /\ (Z.abs (int_or a 0) < float_limit)%Z
           /\ (Z.abs (int_or d 0) < float_limit)%Z
           /\ (Z.abs (int_or v 1) < float_limit)%Z
       | None =>
           (float_limit <= Z.abs (int_or a 0))%Z
           \/ (float_limit <= Z.abs (int_or d 0))%Z
           \/ (float_limit <= Z.abs (int_or v 1))%Z
       end.
Proof.
  split; [exact round2_lowest |].
  intros a d v. destruct (compute_score a d v) as [s |] eqn:E.
  - apply compute_score_inv in E as (-> & Ha & Hd & Hv).
    assert (H : 3.95 <= round2 (raw_score (clamp (IZR (int_or a 0)) 0 50)
                              (clamp (IZR (int_or d 0)) 0 60)
                              (Rmax 1 (IZR (int_or v 1))))).
    { rewrite <- round2_lowest.
      apply Rle_trans with (round2 (raw_score 0 0 1)).
      - apply round2_mono. unfold raw_score, safe_tanh, math_tanh. lra.
      - apply round2_mono, raw_score_mono.
        + apply clamp_bounds; lra.
        + apply clamp_bounds; lra.
        + apply Rmax_l. }
    repeat split; try assumption; lra.
  - now apply compute_score_none.
Qed.

(** Claim C10 as stated fails: for a counter beyond the range of [float]
    there is no value to compare with 3.95. *)
Lemma compute_score_no_value :
  compute_score (Some (10 ^ 400)%Z) None None = None
  /\ compute_score None (Some (- 10 ^ 400)%Z) None = None
  /\ ~ (forall a d v : option Z,
          exists s, compute_score a d v = Some s /\ 3.95 <= s).
Proof.
  assert (E : compute_score (Some (10 ^ 400)%Z) None None = None).
  { apply compute_score_none. left. rewrite int_or_some_0.
    vm_compute. discriminate. }
  split; [exact E |]. split.
  - apply compute_score_none. right. left. rewrite int_or_some_0.
    vm_compute. discriminate.
  - intros H. destruct (H (Some (10 ^ 400)%Z) None None) as [s [F _]].
    rewrite E in F. discriminate F.
Qed.

End ScoreFacts.

(* ================================================================= *)
(** ** VariationEstimator *)

Section VariationFacts.

Import PyStr Re Variations.
Local Open Scope Z_scope.

Lemma length_pos_nonempty (w : str) : (1 <= List.length w)%nat -> w <> [].
Proof. destruct w; simpl; [lia | discriminate]. Qed.

Lemma indicator_captures_digits (pattern : regex) (s : str) (g : groups) :
  In pattern variation_indicators -> search pattern s = Some g ->
  exists w, group 1 g = Some w /\ digit_run w.
Proof.
  intros Hp Hs. apply search_some in Hs as (before & s0 & s' & _ & H).
  unfold variation_indicators, number, spaces0, spaces1 in Hp.
  simpl in Hp.
  destruct Hp as [<- | [<- | [<- | [<- | []]]]]; invert_run; subst;
    simpl; eexists; (split; [reflexivity | split; [now apply length_pos_nonempty | assumption]]).
Qed.

Lemma captured_count_cases (g : groups) (w : str) :
  group 1 g = Some w -> digit_run w ->
  ((List.length w <= 4300)%nat
   /\ exists n, int w = Some (Z.of_N n) /\ captured_count g = Some (Z.of_N n))
  \/ ((4300 < List.length w)%nat /\ captured_count g = None).
Proof.
  intros G [Hne Hd]. unfold captured_count. rewrite G.
  destruct (le_lt_dec (List.length w) 4300) as [L | L].
  - left. split; [exact L |]. destruct (int_digits w Hd Hne L) as [n E].
    exists n. now split.
  - right. split; [exact L |]. now apply int_digits_beyond.
Qed.

(** The loop stops at the first pattern that is found and whose number
    [int] converts; the patterns before it are passed over. *)
Lemma first_indicator_cases (patterns : list regex) (s : str) :
  incl patterns variation_indicators ->
  (Forall (passed_over s) patterns /\ first_indicator patterns s = 1)
  \/ exists skipped p later g w n,
       patterns = skipped ++ p :: later
       /\ Forall (passed_over s) skipped
       /\ search p s = Some g /\ group 1 g = Some w /\ digit_run w
       /\ (List.length w <= 4300)%nat
       /\ int w = Some (Z.of_N n)
       /\ first_indicator patterns s = Z.min (Z.of_N n) 20.
Proof.
  induction patterns as [| p ps IH]; intros Hincl; cbn [first_indicator].
  - left. split; [constructor | reflexivity].
  - assert (Hrest : incl ps variation_indicators)
      by (intros x Hx; apply Hincl; now right).
    assert (Next : forall (P : passed_over s p),
              (Forall (passed_over s) (p :: ps) /\ first_indicator ps s = 1)
              \/ exists skipped p0 later g w n,
                   p :: ps = skipped ++ p0 :: later
                   /\ Forall (passed_over s) skipped
                   /\ search p0 s = Some g /\ group 1 g = Some w /\ digit_run w
                   /\ (List.length w <= 4300)%nat
                   /\ int w = Some (Z.of_N n)
                   /\ first_indicator ps s = Z.min (Z.of_N n) 20).
    { intros P. destruct (IH Hrest) as [[F E] | (sk & p0 & la & g & w & n & -> & F & R)].
      - left. split; [now constructor | exact E].
      - right. exists (p :: sk), p0, la, g, w, n.
        split; [reflexivity |]. split; [now constructor | exact R]. }
    destruct (search p s) as [g |] eqn:E.
    + assert (Hp : In p variation_indicators) by (apply Hincl; now left).
      destruct (indicator_captures_digits p s g Hp E) as [w [G D]].
      destruct (captured_count_cases g w G D) as [[L (n & Hi & Hc)] | [L Hc]];
        rewrite Hc.
      * right. exists [], p, ps, g, w, n.
        split; [reflexivity |]. split; [constructor |]. auto 10.
      * apply Next. unfold passed_over. rewrite E. now exists w.
    + apply Next. unfold passed_over. now rewrite E.
Qed.

(** Claim C5, amended.  For every text, [estimate_variations_from_text]
    returns an integer from 0 to 20.  The patterns are tried in the order
    of the list on the lowered text: a pattern that is not found, or whose
    captured number [int] does not convert (more than 4300 digits), is
    passed over; the first other pattern gives its captured number cut to
    at most 20 (so 0 for a captured 0).  It returns 1 when every pattern
    is passed over or the text is absent or empty. *)
Theorem estimate_variations_from_text_result (text : option str) :
  0 <= estimate_variations_from_text text <= 20
  /\ match text with
     | None | Some [] => estimate_variations_from_text text = 1
     | Some t =>
         (Forall (passed_over (lower t)) variation_indicators
          /\ estimate_variations_from_text text = 1)
         \/ exists skipped p later g w n,
              variation_indicators = skipped ++ p :: later
              /\ Forall (passed_over (lower t)) skipped
              /\ search p (lower t) = Some g
              /\ group 1 g = Some w /\ digit_run w
              /\ (List.length w <= 4300)%nat
              /\ int w = Some (Z.of_N n)
              /\ estimate_variations_from_text text = Z.min (Z.of_N n) 20
     end.
Proof.
  destruct text as [[| c t] |].
  1, 3: simpl; split; [lia | reflexivity].
  pose proof (first_indicator_cases variation_indicators (lower (c :: t))
                (incl_refl _)) as H.
  unfold estimate_variations_from_text.
  destruct H as [[F E] | (sk & p & la & g & w & n & S & F & Hs & G & D & L & I & E)].
  - split; [rewrite E; lia |]. left. now split.
  - split; [rewrite E; lia |]. right. exists sk, p, la, g, w, n. auto 10.
Qed.

Example estimate_variations_examples :
  estimate_variations_from_text (Some (lit "Disponível em 5 cores")) = 5
  /\ estimate_variations_from_text (Some (lit "produto incrível")) = 1
  /\ estimate_variations_from_text (Some (lit "100 cores")) = 20.
Proof. repeat split; vm_compute; reflexivity. Qed.

(** Claim C5 as stated fails: ["0 cores"] gives 0, below 1; and a captured
    number that fails to parse does not give 1 when a later pattern is
    found: here the first pattern captures 4301 digits, [int] raises, and
    the second pattern gives 5. *)
Lemma estimate_variations_zero_cores :
  estimate_variations_from_text (Some (lit "0 cores")) = 0
  /\ ~ (1 <= estimate_variations_from_text (Some (lit "0 cores")) <= 20)
  /\ estimate_variations_from_text (Some long_count_text) = 5.
Proof.
  split; [vm_compute; reflexivity |].
  split; [vm_compute; intros [H _]; apply H; reflexivity |].
  vm_compute. reflexivity.
Qed.

End VariationFacts.

(* ================================================================= *)
(** ** DateNormalizer *)

Section DateFacts.

Import PyStr Re Dates.
Local Open Scope Z_scope.

(** The ordinal of a date counts days: it grows by one from a day to the
    next. *)
Lemma days_before_year_succ (y : Z) :
  days_before_year (y + 1)
  = days_before_year y + (if is_leap y then 366 else 365).
Proof.
  unfold days_before_year, is_leap.
  replace (y + 1 - 1) with y by lia.
  destruct (y mod 4 =? 0) eqn:E4; destruct (y mod 100 =? 0) eqn:E100;
    destruct (y mod 400 =? 0) eqn:E400; simpl;
    rewrite ?Z.eqb_eq, ?Z.eqb_neq in *;
    Z.div_mod_to_equations; lia.
Qed.

Lemma toordinal_tomorrow (d : date) :
  valid_date d -> toordinal (tomorrow d) = toordinal d + 1.
Proof.
  destruct d as [y m dd]. unfold valid_date, check_date_fields, tomorrow, toordinal.
  simpl. rewrite !andb_true_iff, !Z.leb_le.
  intros [[[[[Hy1 Hy2] Hm1] Hm2] Hd1] Hd2].
  destruct (dd <? days_in_month y m) eqn:E; simpl; [lia |].
  apply Z.ltb_ge in E. assert (Ed : dd = days_in_month y m) by lia.
  clear E Hd2. subst dd.
  assert (Hm : m = 1 \/ m = 2 \/ m = 3 \/ m = 4 \/ m = 5 \/ m = 6 \/ m = 7
               \/ m = 8 \/ m = 9 \/ m = 10 \/ m = 11 \/ m = 12) by lia.
  destruct (m <? 12) eqn:E12; simpl.
  - apply Z.ltb_lt in E12.
    unfold days_before_month, days_in_month.
    destruct Hm as [-> | [-> | [-> | [-> | [-> | [-> | [-> | [-> | [-> | [-> | [-> | ->]]]]]]]]]]];
      try lia; simpl; destruct (is_leap y); simpl; lia.
  - apply Z.ltb_ge in E12. assert (m = 12) by lia. subst m.
    rewrite days_before_year_succ.
    unfold days_before_month, days_in_month. simpl.
    destruct (is_leap y); simpl; lia.
Qed.

(** The groups a match adds do not depend on the groups already there. *)
Lemma run_groups_app (r : regex) (s : str) (g : groups) :
  run r s g = map (fun sg => (fst sg, snd sg ++ g)) (run r s []).
Proof.
  revert s g. induction r; intros s g; simpl.
  - reflexivity.
  - destruct s as [| x s']; [reflexivity |]. destruct (N.eqb x c); reflexivity.
  - destruct s as [| x s']; [reflexivity |]. destruct (b x); reflexivity.
  - rewrite (IHr1 s g). rewrite flat_map_concat_map, map_map.
    rewrite flat_map_concat_map, concat_map, map_map. f_equal.
    apply map_ext. intros [s1 g1]. simpl.
    rewrite (IHr2 s1 (g1 ++ g)), (IHr2 s1 g1), map_map.
    apply map_ext. intros [s2 g2]. simpl. now rewrite app_assoc.
  - rewrite (IHr1 s g), (IHr2 s g), map_app. reflexivity.
  - rewrite map_map. reflexivity.
  - rewrite (IHr s g), !map_map. reflexivity.
Qed.

Lemma in_N_range (lo hi x : N) : (lo <= x <= hi)%N -> In x (N_range lo hi).
Proof.
  intros H. unfold N_range. apply in_map_iff. exists (N.to_nat x).
  split; [apply N2Nat.id |]. apply in_seq. lia.
Qed.

Lemma years_ok : forallb year_ok (N_range 1 9999) = true.
Proof. vm_compute. reflexivity. Qed.

Lemma tails_ok :
  forallb (fun m => forallb (tail_ok m) (N_range 1 31)) (N_range 1 12) = true.
Proof. vm_compute. reflexivity. Qed.

Lemma firstn_consumed (w rest : str) :
  firstn (List.length (w ++ rest) - List.length rest) (w ++ rest) = w.
Proof.
  rewrite length_app, Nat.add_sub, firstn_app, Nat.sub_diag, firstn_all.
  simpl. apply app_nil_r.
Qed.

Lemma year_ok_run (n : N) (rest : str) :
  year_ok n = true ->
  run (Grp 1 re_Y) (pad 4 n ++ rest) [] = [(rest, [(1%nat, pad 4 n)])]
  /\ int (pad 4 n) = Some (Z.of_N n).
Proof.
  unfold year_ok. destruct (pad 4 n) as [| a [| b [| c [| d [| e l]]]]];
    try discriminate.
  rewrite !andb_true_iff. intros [[[[Ha Hb] Hc] Hd] Hi].
  split.
  - assert (R : run re_Y ([a; b; c; d] ++ rest) [] = [(rest, [])]).
    { simpl. rewrite Ha. simpl. rewrite Hb. simpl. rewrite Hc. simpl.
      rewrite Hd. reflexivity. }
    change (run (Grp 1 re_Y) ([a; b; c; d] ++ rest) [])
      with (map (fun sg : str * groups =>
                   (fst sg,
                    (1%nat, firstn (List.length ([a; b; c; d] ++ rest)
                                    - List.length (fst sg))
                              ([a; b; c; d] ++ rest)) :: snd sg))
              (run re_Y ([a; b; c; d] ++ rest) [])).
    rewrite R. cbn [map fst snd]. now rewrite firstn_consumed.
  - destruct (int [a; b; c; d]) as [v |]; [| discriminate].
    apply Z.eqb_eq in Hi. now subst.
Qed.

Lemma strptime_isoformat (d : date) :
  valid_date d -> strptime_ymd (isoformat d) = Some d.
Proof.
  destruct d as [y m dd]. unfold valid_date, check_date_fields. simpl.
  rewrite !andb_true_iff, !Z.leb_le. intros [[[[[Hy1 Hy2] Hm1] Hm2] Hd1] Hd2].
  assert (Hd3 : dd <= 31).
  { unfold days_in_month in Hd2.
    destruct ((m =? 2) && is_leap y); [lia |].
    assert (K : (Z.to_nat m < 13)%nat) by lia.
    destruct (Z.to_nat m) as [| [| [| [| [| [| [| [| [| [| [| [| [| k]]]]]]]]]]]]];
      simpl in Hd2; lia. }
  assert (Yok : year_ok (Z.to_N y) = true).
  { pose proof years_ok as H. rewrite forallb_forall in H. apply H.
    apply in_N_range. lia. }
  assert (Tok : tail_ok (Z.to_N m) (Z.to_N dd) = true).
  { pose proof tails_ok as H. rewrite forallb_forall in H.
    assert (Hm : In (Z.to_N m) (N_range 1 12)) by (apply in_N_range; lia).
    specialize (H _ Hm). rewrite forallb_forall in H. apply H.
    apply in_N_range. lia. }
  unfold strptime_ymd, isoformat, rmatch. simpl year. simpl month. simpl day.
  set (T := lit "-" ++ pad 2 (Z.to_N m) ++ lit "-" ++ pad 2 (Z.to_N dd)).
  destruct (year_ok_run (Z.to_N y) T Yok) as [RY IY].
  change format_regex with (Seq (Grp 1 re_Y) tail_regex).
  change (run (Seq (Grp 1 re_Y) tail_regex) (pad 4 (Z.to_N y) ++ T) [])
    with (flat_map (fun sg => run tail_regex (fst sg) (snd sg))
            (run (Grp 1 re_Y) (pad 4 (Z.to_N y) ++ T) [])).
  rewrite RY. cbn [flat_map fst snd]. rewrite app_nil_r, run_groups_app.
  unfold tail_ok in Tok. fold T in Tok.
  destruct (run tail_regex T []) as [| [[| ? ?] g] l]; try discriminate Tok.
  destruct g as [| [[| [| [| [| i]]]] D] [| [[| [| [| j]]] M] [| ? ?]]];
    try discriminate Tok.
  cbn [map fst snd app group Nat.eqb].
  rewrite IY.
  destruct (int M) as [vm |]; [| discriminate Tok].
  destruct (int D) as [vd |]; [| discriminate Tok].
  apply andb_true_iff in Tok as [E1 E2].
  apply Z.eqb_eq in E1, E2. subst vm vd.
  rewrite !Z2N.id by lia.
  unfold make_date, check_date_fields.
  assert (C : (1 <=? y) && (y <=? 9999) && (1 <=? m) && (m <=? 12)
              && (1 <=? dd) && (dd <=? days_in_month y m) = true).
  { rewrite !andb_true_iff, !Z.leb_le. repeat split; assumption. }
  now rewrite C.
Qed.

(** [strftime] and [isoformat] agree from the year 1000 on; below, the
    year comes on fewer than four digits and [strptime] rejects the
    string. *)
Lemma zfill_long (width : nat) (s : str) :
  (width <= List.length s)%nat -> zfill width s = s.
Proof.
  intros H. unfold zfill.
  replace (width - List.length s)%nat with 0%nat by lia. cbn [repeat app].
  destruct s as [| c s]; [reflexivity |].
  destruct ((c =? ch "+")%N || (c =? ch "-")%N); reflexivity.
Qed.

Lemma long_years (n : N) :
  (1000 <= n <= 9999)%N -> List.length (str_of_N n) = 4%nat.
Proof.
  intros H. unfold str_of_N.
  assert (L : (9 <= N.log2 n)%N).
  { change 9%N with (N.log2 1000). apply N.log2_le_mono. lia. }
  remember (N.to_nat (N.log2 n)) as k eqn:K.
  assert (Hk : (9 <= k)%nat) by lia.
  destruct k as [| [| [| [| k]]]]; try lia.
  assert (H1 : (100 <= n / 10 <= 999)%N).
  { split; [apply N.div_le_lower_bound; lia |].
    apply N.lt_succ_r. apply N.Div0.div_lt_upper_bound; lia. }
  assert (H2 : (10 <= n / 10 / 10 <= 99)%N).
  { split; [apply N.div_le_lower_bound; lia |].
    apply N.lt_succ_r. apply N.Div0.div_lt_upper_bound; lia. }
  assert (H3 : (n / 10 / 10 / 10 < 10)%N).
  { apply N.Div0.div_lt_upper_bound; lia. }
  cbn [digits_of].
  replace (n <? 10)%N with false by (symmetry; apply N.ltb_ge; lia).
  replace (n / 10 <? 10)%N with false by (symmetry; apply N.ltb_ge; lia).
  replace (n / 10 / 10 <? 10)%N with false by (symmetry; apply N.ltb_ge; lia).
  replace (n / 10 / 10 / 10 <? 10)%N with true by (symmetry; apply N.ltb_lt; lia).
  reflexivity.
Qed.

Lemma short_years :
  forallb (fun n => Nat.leb (List.length (str_of_N n)) 3) (N_range 0 999) = true.
Proof. vm_compute. reflexivity. Qed.

Lemma strftime_ymd_isoformat (d : date) :
  1000 <= year d <= 9999 -> strftime_ymd d = isoformat d.
Proof.
  intros H. unfold strftime_ymd, isoformat, pad. f_equal.
  symmetry. apply zfill_long.
  rewrite (long_years (Z.to_N (year d))); lia.
Qed.

Lemma short_year_rejected (p rest : str) :
  (List.length p <= 3)%nat -> rmatch format_regex (p ++ lit "-" ++ rest) = None.
Proof.
  intros H. unfold rmatch.
  assert (R : run (Grp 1 re_Y) (p ++ lit "-" ++ rest) [] = []).
  { destruct p as [| a [| b [| c [| e p]]]]; [| | | | simpl in H; lia];
      cbn [app]; cbn [run re_Y flat_map map fst snd app];
      repeat match goal with
             | |- context [isdecimal ?x] =>
                 is_var x; destruct (isdecimal x); cbn [run flat_map map fst snd app]
             end;
      reflexivity. }
  unfold format_regex.
  change (run (Seq (Grp 1 re_Y) ?b) ?s [])
    with (flat_map (fun sg => run b (fst sg) (snd sg)) (run (Grp 1 re_Y) s [])).
  rewrite R. reflexivity.
Qed.

Lemma strptime_short_year (d : date) :
  0 <= year d < 1000 -> strptime_ymd (strftime_ymd d) = None.
Proof.
  intros H. unfold strptime_ymd, strftime_ymd.
  rewrite short_year_rejected; [reflexivity |].
  pose proof short_years as L. rewrite forallb_forall in L.
  specialize (L (Z.to_N (year d))). rewrite Nat.leb_le in L.
  apply L, in_N_range. lia.
Qed.

(** The year as [strftime] renders it. *)
Example strftime_ymd_examples :
  strftime_ymd (mkdate 2025 3 4) = lit "2025-03-04"
  /\ strftime_ymd (mkdate 999 12 31) = lit "999-12-31"
  /\ strftime_ymd (mkdate 99 1 1) = lit "99-01-01"
  /\ isoformat (mkdate 99 1 1) = lit "0099-01-01"
  /\ strptime_ymd (lit "99-01-01") = None.
Proof. repeat split; vm_compute; reflexivity. Qed.

End DateFacts.

Section ParseFacts.

Import PyStr Re Dates.
Local Open Scope Z_scope.

Lemma zfill_2_digits (w : str) :
  digits_upto 2 w -> digits_exactly 2 (zfill 2 w).
Proof.
  intros [Hd Hl]. destruct w as [| a [| b [| c w]]]; simpl in Hl; try lia.
  - assert (Ha : isdecimal a = true) by now inversion Hd.
    destruct (decimal_not_sign a Ha) as [E1 E2].
    unfold zfill. rewrite E1, E2. simpl. split; [| reflexivity].
    constructor; [reflexivity | exact Hd].
  - assert (Ha : isdecimal a = true) by now inversion Hd.
    destruct (decimal_not_sign a Ha) as [E1 E2].
    unfold zfill. rewrite E1, E2. simpl. now split.
Qed.

Lemma dict_get_in (d : list (str * str)) (key default : str) :
  In (dict_get d key default) (default :: map snd d).
Proof.
  induction d as [| [k v] d IH]; simpl; [now left |].
  destruct (str_eqb k key); [right; now left |].
  destruct IH as [IH | IH]; [now left | right; now right].
Qed.

Lemma two_digits_spec (w : str) : two_digits w = true -> digits_exactly 2 w.
Proof.
  destruct w as [| a [| b [| c w]]]; try discriminate. simpl.
  rewrite andb_true_iff. intros [Ha Hb]. split; [| reflexivity].
  repeat constructor; assumption.
Qed.

Lemma month_of_name_digits (name : str) : digits_exactly 2 (month_of_name name).
Proof.
  apply two_digits_spec. unfold month_of_name.
  assert (A : forallb two_digits (lit "01" :: map snd meses_pt) = true)
    by (vm_compute; reflexivity).
  rewrite forallb_forall in A. apply A, dict_get_in.
Qed.

Lemma zfill_2_exact (w : str) : digits_exactly 2 w -> zfill 2 w = w.
Proof.
  intros [Hd Hl]. destruct w as [| a [| b [| c w]]]; simpl in Hl; try lia.
  assert (Ha : isdecimal a = true) by now inversion Hd.
  destruct (decimal_not_sign a Ha) as [E1 E2].
  unfold zfill. rewrite E1, E2. reflexivity.
Qed.

Lemma ymd_shaped (y m d : str) :
  digits_exactly 4 y -> digits_exactly 2 (zfill 2 m) ->
  digits_exactly 2 (zfill 2 d) -> date_shaped (ymd y m d).
Proof.
  intros [Y1 Y2] [M1 M2] [D1 D2]. unfold ymd.
  exists y, (zfill 2 m), (zfill 2 d). repeat split; assumption.
Qed.

Variable fuzzy_parse : str -> option date.
Variable isalnum : char -> bool.

Lemma exactly_of_bounds (n : nat) (w : str) :
  is_true_on isdecimal w -> (n <= List.length w)%nat ->
  (forall h, Some n = Some h -> (List.length w <= h)%nat) ->
  digits_exactly n w.
Proof. intros H L U. split; [exact H |]. specialize (U n eq_refl). lia. Qed.

Lemma upto_of_bounds (n : nat) (w : str) :
  is_true_on isdecimal w -> (1 <= List.length w)%nat ->
  (forall h, Some n = Some h -> (List.length w <= h)%nat) ->
  digits_upto n w.
Proof. intros H L U. split; [exact H |]. specialize (U n eq_refl). lia. Qed.

(** What the groups of each pattern hold, and so what is assembled. *)
Lemma pattern_assembles (pattern : regex) (l : layout) (s : str) (g : groups) :
  In (pattern, l) (patterns isalnum) -> search pattern s = Some g ->
  exists g1 g2 g3,
    group 1 g = Some g1 /\ group 2 g = Some g2 /\ group 3 g = Some g3
    /\ date_shaped (assemble l g1 g2 g3).
Proof.
  intros Hp Hs. apply search_some in Hs as (before & s0 & s' & _ & H).
  unfold patterns in Hp. simpl in Hp.
  destruct Hp as [E | [E | [E | [E | [E | []]]]]]; injection E as <- <-;
    unfold pattern0, pattern1, pattern2, pattern3, pattern4, digits, spaces1,
      word1 in H;
    invert_run; subst; simpl;
    do 3 eexists; (split; [reflexivity |]); (split; [reflexivity |]);
    (split; [reflexivity |]);
    apply ymd_shaped;
    try (apply exactly_of_bounds; assumption);
    try (apply zfill_2_digits, upto_of_bounds; assumption);
    try (rewrite zfill_2_exact; apply month_of_name_digits).
Qed.

Lemma fallback_cases (ps : list (regex * layout)) (t : str) :
  incl ps (patterns isalnum) ->
  (none_found ps t /\ fallback ps t = None)
  \/ exists before p l after g g1 g2 g3,
       ps = before ++ (p, l) :: after /\ none_found before t
       /\ search p (lower t) = Some g
       /\ group 1 g = Some g1 /\ group 2 g = Some g2 /\ group 3 g = Some g3
       /\ fallback ps t = Some (assemble l g1 g2 g3)
       /\ date_shaped (assemble l g1 g2 g3).
Proof.
  induction ps as [| [p l] ps IH]; intros Hincl; cbn [fallback].
  - left. split; [constructor | reflexivity].
  - assert (Hrest : incl ps (patterns isalnum))
      by (intros x Hx; apply Hincl; now right).
    destruct (search p (lower t)) as [g |] eqn:E.
    + assert (Hp : In (p, l) (patterns isalnum)) by (apply Hincl; now left).
      destruct (pattern_assembles p l (lower t) g Hp E)
        as (g1 & g2 & g3 & G1 & G2 & G3 & Hshape).
      right. exists [], p, l, ps, g, g1, g2, g3. rewrite G1, G2, G3.
      split; [reflexivity |]. split; [constructor |]. auto 10.
    + destruct (IH Hrest)
        as [[N F] | (be & p0 & l0 & af & g & g1 & g2 & g3 & -> & N & R)].
      * left. split; [| exact F]. constructor; [exact E | exact N].
      * right. exists ((p, l) :: be), p0, l0, af, g, g1, g2, g3.
        split; [reflexivity |]. split; [| exact R].
        constructor; [exact E | exact N].
Qed.

(** Claim C9, amended.  [parse_date_any] returns a value for every input,
    it has no failing input.  For an absent or empty text it returns
    [None].  When the fuzzy parse reads a date it returns the rendering
    [%Y-%m-%d] of that date, whose year has no leading zeros.  When the
    fuzzy parse fails it returns [None] if none of the five patterns is
    found in the lowered text, and otherwise the string put together from
    the groups of the first pattern found: four digits, two digits and
    two digits with hyphens between, not checked to be a day of the
    calendar. *)
Theorem parse_date_any_result (date_text : option str) :
  match date_text with
  | None | Some [] => parse_date_any fuzzy_parse isalnum date_text = None
  | Some t =>
      match fuzzy_parse (strip t) with
      | Some d =>
          parse_date_any fuzzy_parse isalnum date_text = Some (strftime_ymd d)
      | None =>
          (none_found (patterns isalnum) (strip t)
           /\ parse_date_any fuzzy_parse isalnum date_text = None)
          \/ exists before p l after g g1 g2 g3,
               patterns isalnum = before ++ (p, l) :: after
               /\ none_found before (strip t)
               /\ search p (lower (strip t)) = Some g
               /\ group 1 g = Some g1 /\ group 2 g = Some g2
               /\ group 3 g = Some g3
               /\ parse_date_any fuzzy_parse isalnum date_text
                  = Some (assemble l g1 g2 g3)
               /\ date_shaped (assemble l g1 g2 g3)
      end
  end.
Proof.
  destruct date_text as [[| c t] |]; [reflexivity | | reflexivity].
  cbv beta iota zeta delta [parse_date_any].
  destruct (fuzzy_parse (strip (c :: t))) as [d |] eqn:F; [reflexivity |].
  exact (fallback_cases (patterns isalnum) (strip (c :: t)) (incl_refl _)).
Qed.

End ParseFacts.

Section ParseCounterexample.

Import PyStr Re Dates.

Lemma february_31 (fuzzy_parse : str -> option date) (isalnum : char -> bool) :
  fuzzy_parse (lit "31/02/2025") = None ->
  parse_date_any fuzzy_parse isalnum (Some (lit "31/02/2025"))
  = Some (lit "2025-02-31").
Proof.
  intros H. unfold parse_date_any.
  change (strip (lit "31/02/2025")) with (lit "31/02/2025").
  rewrite H. vm_compute. reflexivity.
Qed.

Lemma february_31_not_canonical : ~ canonical_date (lit "2025-02-31").
Proof.
  intros [d [V E]]. pose proof (strptime_isoformat d V) as R.
  rewrite <- E in R. vm_compute in R. discriminate R.
Qed.

(** Claim C9 as stated fails: it does not hold, for every fuzzy parser that
    gives valid dates only, that every returned string is the canonical
    string of a day of the calendar.  With a parser that rejects
    ["31/02/2025"], as [dateutil] does (no such day), the first pattern
    gives ["2025-02-31"] ([february_31]). *)
Lemma parse_date_any_not_calendar :
  ~ (forall (fuzzy_parse : str -> option date) (isalnum : char -> bool),
       (forall t d, fuzzy_parse t = Some d -> valid_date d) ->
       forall date_text,
         match parse_date_any fuzzy_parse isalnum date_text with
         | Some s => canonical_date s
         | None => True
         end).
Proof.
  intros H.
  specialize (H (fun _ => None) (fun _ => false)).
  assert (V : forall (t : str) (d : date),
             (fun _ : str => @None date) t = Some d -> valid_date d)
    by (intros t d E; discriminate E).
  specialize (H V (Some (lit "31/02/2025"))).
  rewrite february_31 in H by reflexivity.
  exact (february_31_not_canonical H).
Qed.

End ParseCounterexample.

Section DaysFacts.

Import PyStr Re Dates.
Local Open Scope Z_scope.

(** [strptime] takes a month or a day of one digit and decimal digits of
    any script; it rejects a day the month does not have, text after the
    day, and the year 0. *)
Example strptime_examples :
  strptime_ymd (lit "2025-01-01") = Some (mkdate 2025 1 1)
  /\ strptime_ymd (lit "2025-1-1") = Some (mkdate 2025 1 1)
  /\ strptime_ymd (lit "٢٠٢٥-01-01") = Some (mkdate 2025 1 1)
  /\ strptime_ymd (lit "2024-02-29") = Some (mkdate 2024 2 29)
  /\ strptime_ymd (lit "2025-02-29") = None
  /\ strptime_ymd (lit "2025-01-011") = None
  /\ strptime_ymd (lit "2025-13-01") = None
  /\ strptime_ymd (lit "0000-01-01") = None
  /\ strptime_ymd (lit "01/01/2025") = None.
Proof. repeat split; vm_compute; reflexivity. Qed.

(** The fallback patterns, with a fuzzy parse that fails. *)
Example parse_date_any_examples :
  let parse := parse_date_any (fun _ => None) latin_isalnum in
  parse (Some (lit "iniciou em 3 de Março de 2025")) = Some (lit "2025-03-03")
  /\ parse (Some (lit "Ad started Mar 3, 2025")) = Some (lit "2025-03-03")
  /\ parse (Some (lit "  15/08/2024 ")) = Some (lit "2024-08-15")
  /\ parse (Some (lit "started Foo 7 2025")) = Some (lit "2025-01-07")
  /\ parse (Some (lit "sem data")) = None
  /\ parse (Some []) = None
  /\ parse None = None.
Proof. repeat split; vm_compute; reflexivity. Qed.

Lemma days_between_nonneg (clock : date) (date_str : option str)
    (today : option date) :
  0 <= days_between clock date_str today.
Proof.
  unfold days_between. destruct date_str as [[| c s] |]; try lia.
  destruct (strptime_ymd (c :: s)); lia.
Qed.

(** Claim C6.  With a reference date injected, [days_between] of the
    canonical string of a calendar day [d] is [max(0, reference - d)] in
    days; for every string it is that difference for the date [strptime]
    reads from it and 0 when the string is absent or [strptime] rejects
    it, so never negative; the two examples of the specification give 9
    and 0. *)
Theorem days_between_reference
    (clock reference d : date) (date_str : option str) :
  valid_date d ->
  days_between clock (Some (isoformat d)) (Some reference)
    = Z.max 0 (toordinal reference - toordinal d)
  /\ days_between clock date_str (Some reference)
     = match date_str with
       | Some s =>
           match strptime_ymd s with
           | Some start_date =>
               Z.max 0 (toordinal reference - toordinal start_date)
           | None => 0
           end
       | None => 0
       end
  /\ 0 <= days_between clock date_str (Some reference)
  /\ days_between clock (Some (lit "2025-01-01")) (Some (mkdate 2025 1 10)) = 9
  /\ days_between clock (Some (lit "2099-01-01")) (Some (mkdate 2025 1 10)) = 0.
Proof.
  intros V. repeat split.
  - pose proof (strptime_isoformat d V) as R. unfold days_between.
    destruct (isoformat d) as [| c s] eqn:E; [discriminate R |].
    now rewrite R.
  - unfold days_between. destruct date_str as [[| c s] |]; reflexivity.
  - apply days_between_nonneg.
Qed.

Lemma days_between_reference_witness :
  valid_date (mkdate 2025 1 1)
  /\ days_between (mkdate 2026 11 3) (Some (isoformat (mkdate 2025 1 1)))
       (Some (mkdate 2025 1 10))
     = Z.max 0 (toordinal (mkdate 2025 1 10) - toordinal (mkdate 2025 1 1)).
Proof.
  split; [reflexivity |].
  apply (days_between_reference (mkdate 2026 11 3) (mkdate 2025 1 10)
           (mkdate 2025 1 1) None).
  reflexivity.
Defined.

End DaysFacts.

(* ================================================================= *)
(** ** TextNormalizer *)

Section TextFacts.

Import PyStr Text.

(** *** Trimming *)

Lemma lstrip_idem (s : str) : lstrip (lstrip s) = lstrip s.
Proof.
  induction s as [| c s IH]; simpl; [reflexivity |].
  destruct (isspace c) eqn:E; [exact IH |]. simpl. now rewrite E.
Qed.

Lemma lstrip_incl (s : str) : incl (lstrip s) s.
Proof.
  induction s as [| c s IH]; simpl; [apply incl_refl |].
  destruct (isspace c); [now apply incl_tl | apply incl_refl].
Qed.

Lemma lstrip_app_nonspace (w : str) (a : char) :
  isspace a = false -> lstrip (w ++ [a]) = lstrip w ++ [a].
Proof.
  intros Ha. induction w as [| c w IH]; simpl; [now rewrite Ha |].
  destruct (isspace c); [exact IH | reflexivity].
Qed.

Lemma rstrip_cons_nonspace (a : char) (s : str) :
  isspace a = false -> rstrip (a :: s) = a :: rstrip s.
Proof.
  intros Ha. unfold rstrip. simpl.
  now rewrite lstrip_app_nonspace, rev_app_distr.
Qed.

Lemma rstrip_idem (s : str) : rstrip (rstrip s) = rstrip s.
Proof. unfold rstrip. now rewrite rev_involutive, lstrip_idem. Qed.

Lemma rstrip_incl (s : str) : incl (rstrip s) s.
Proof.
  unfold rstrip. intros x Hx. apply in_rev in Hx. apply lstrip_incl in Hx.
  now apply in_rev.
Qed.

Lemma strip_incl (s : str) : incl (strip s) s.
Proof.
  unfold strip. intros x Hx. now apply lstrip_incl, rstrip_incl.
Qed.

Lemma lstrip_fixed_head (s : str) :
  lstrip s = s -> s = [] \/ exists a s', s = a :: s' /\ isspace a = false.
Proof.
  destruct s as [| a s']; [now left |]. intros H. right. exists a, s'.
  split; [reflexivity |]. destruct (isspace a) eqn:E; [| reflexivity].
  simpl in H. rewrite E in H.
  assert (L : forall v, (List.length (lstrip v) <= List.length v)%nat).
  { induction v as [| c v IHv]; simpl; [lia |].
    destruct (isspace c); simpl; lia. }
  specialize (L s'). rewrite H in L. simpl in L. lia.
Qed.

Lemma rstrip_fixed_last (s : str) :
  rstrip s = s -> s = [] \/ exists s' z, s = s' ++ [z] /\ isspace z = false.
Proof.
  unfold rstrip. intros H.
  assert (H' : lstrip (rev s) = rev s) by (rewrite <- H at 2; now rewrite rev_involutive).
  destruct (lstrip_fixed_head _ H') as [E | [a [r [E Ha]]]].
  - left. apply (f_equal (@rev char)) in E. now rewrite rev_involutive in E.
  - right. exists (rev r), a. split; [| exact Ha].
    apply (f_equal (@rev char)) in E. now rewrite rev_involutive in E.
Qed.

Lemma strip_trimmed (s : str) : trimmed (strip s).
Proof.
  unfold trimmed, strip. split; [| apply rstrip_idem].
  destruct (lstrip_fixed_head (lstrip s) (lstrip_idem s)) as [-> | [a [r [-> Ha]]]].
  - reflexivity.
  - rewrite rstrip_cons_nonspace by exact Ha. simpl. now rewrite Ha.
Qed.

Lemma trimmed_strip (s : str) : trimmed s -> strip s = s.
Proof. intros [L R]. unfold strip. now rewrite L. Qed.

Lemma strip_idem (s : str) : strip (strip s) = strip s.
Proof. apply trimmed_strip, strip_trimmed. Qed.

(** *** The two substitutions *)

Lemma sub_spaces_idem (b : bool) (s : str) :
  sub_spaces b (sub_spaces b s) = sub_spaces b s.
Proof.
  revert b. induction s as [| c s IH]; intros b; simpl; [reflexivity |].
  destruct (isspace c) eqn:E.
  - destruct b; [apply IH |].
    change (sub_spaces false (32%N :: sub_spaces true s))
      with (32%N :: sub_spaces true (sub_spaces true s)).
    now rewrite IH.
  - simpl. now rewrite E, IH.
Qed.

Lemma sub_spaces_app_nonspace (b : bool) (w : str) (z : char) :
  isspace z = false -> sub_spaces b (w ++ [z]) = sub_spaces b w ++ [z].
Proof.
  intros Hz. revert b. induction w as [| c w IH]; intros b; simpl.
  - now rewrite Hz.
  - destruct (isspace c); [destruct b |]; simpl; now rewrite IH.
Qed.

Lemma sub_spaces_chars (b : bool) (s : str) :
  Forall (fun c => c = ch " " \/ (isspace c = false /\ In c s)) (sub_spaces b s).
Proof.
  revert b. induction s as [| c s IH]; intros b; simpl; [constructor |].
  assert (W : forall b', Forall (fun x => x = ch " " \/ (isspace x = false /\ (c = x \/ In x s)))
                (sub_spaces b' s)).
  { intros b'. eapply Forall_impl; [| apply (IH b')].
    intros x [-> | [H1 H2]]; [now left | right; auto]. }
  destruct (isspace c) eqn:E.
  - destruct b; [apply W |]. constructor; [now left | apply W].
  - constructor; [right; auto | apply W].
Qed.

Lemma sub_spaces_trimmed (s : str) : trimmed s -> trimmed (sub_spaces false s).
Proof.
  intros [L R]. split.
  - destruct (lstrip_fixed_head s L) as [-> | [a [r [-> Ha]]]]; [reflexivity |].
    simpl. rewrite Ha. simpl. now rewrite Ha.
  - destruct (rstrip_fixed_last s R) as [-> | [r [z [-> Hz]]]]; [reflexivity |].
    rewrite sub_spaces_app_nonspace by exact Hz.
    unfold rstrip. rewrite rev_app_distr. simpl. rewrite Hz.
    simpl. now rewrite rev_involutive.
Qed.

Lemma sub_spaces_true_head (s : str) : starts_space (sub_spaces true s) = false.
Proof.
  induction s as [| c s IH]; simpl; [reflexivity |].
  destruct (isspace c) eqn:E; [exact IH | simpl; exact E].
Qed.

Lemma sub_spaces_single (b : bool) (s : str) :
  has_double_space (sub_spaces b s) = false.
Proof.
  revert b. induction s as [| c s IH]; intros b; [reflexivity |].
  simpl sub_spaces. destruct (isspace c) eqn:E.
  - destruct b; [apply IH |].
    pose proof (sub_spaces_true_head s) as Hh. specialize (IH true).
    destruct (sub_spaces true s) as [| x r]; [reflexivity |].
    simpl in Hh. change (has_double_space (32%N :: x :: r))
      with (((32 =? 32) && (x =? ch " "))%N || has_double_space (x :: r)).
    rewrite IH. destruct (N.eqb_spec x (ch " ")) as [-> |];
      [discriminate Hh | reflexivity].
  - specialize (IH false).
    destruct (sub_spaces false s) as [| x r]; [reflexivity |].
    change (has_double_space (c :: x :: r))
      with (((c =? ch " ") && (x =? ch " "))%N || has_double_space (x :: r)).
    rewrite IH. destruct (N.eqb_spec c (ch " ")) as [-> |];
      [discriminate E | reflexivity].
Qed.

Lemma sub_control_fixed (s : str) :
  Forall (fun c => iscontrol c = false) s -> sub_control s = s.
Proof.
  unfold sub_control. induction 1 as [| c s Hc _ IH]; simpl; [reflexivity |].
  now rewrite Hc, IH.
Qed.

Lemma collapsed_no_control (s : str) :
  Forall (fun c => hidden_control c = false) s ->
  Forall (fun c => iscontrol c = false) (sub_spaces false (strip s)).
Proof.
  intros H. eapply Forall_impl; [| apply sub_spaces_chars].
  intros c [-> | [Hs Hin]]; [reflexivity |].
  apply strip_incl in Hin. rewrite Forall_forall in H. specialize (H c Hin).
  unfold hidden_control in H. rewrite Hs in H. simpl in H.
  now rewrite andb_true_r in H.
Qed.

(** Without hidden control characters [normalize_text] is the collapse of
    the trimmed text; it has no double space and is idempotent. *)
Lemma normalize_text_plain (s : str) :
  Forall (fun c => hidden_control c = false) s ->
  normalize_text (Some s) = sub_spaces false (strip s)
  /\ has_double_space (normalize_text (Some s)) = false
  /\ normalize_text (Some (normalize_text (Some s))) = normalize_text (Some s).
Proof.
  intros H.
  assert (E : normalize_text (Some s) = sub_spaces false (strip s)).
  { destruct s as [| c s]; [reflexivity |].
    unfold normalize_text. apply sub_control_fixed, collapsed_no_control, H. }
  split; [exact E |]. split; [rewrite E; apply sub_spaces_single |].
  rewrite E. set (y := sub_spaces false (strip s)).
  assert (T : trimmed y) by apply sub_spaces_trimmed, strip_trimmed.
  assert (C : Forall (fun c => iscontrol c = false) y)
    by apply collapsed_no_control, H.
  assert (I : sub_spaces false y = y) by apply sub_spaces_idem.
  clearbody y. destruct y as [| c r]; [reflexivity |].
  unfold normalize_text. rewrite (trimmed_strip _ T), I.
  now apply sub_control_fixed.
Qed.

Lemma normalize_text_strip (s : str) :
  normalize_text (Some (strip s)) = normalize_text (Some s).
Proof.
  destruct s as [| c s]; [reflexivity |].
  destruct (strip (c :: s)) as [| a r] eqn:E.
  - unfold normalize_text. now rewrite E.
  - unfold normalize_text. rewrite <- E, strip_idem. reflexivity.
Qed.

(** *** [clean_headline] *)

Lemma fold_remove_first (prefixes : list str) (headline : str) :
  fold_left remove_prefix prefixes headline
  = match first_match prefixes headline with
    | Some (prefix, later) =>
        fold_left remove_prefix later
          (strip (skipn (List.length prefix) headline))
    | None => headline
    end.
Proof.
  induction prefixes as [| p ps IH]; simpl; [reflexivity |].
  unfold remove_prefix at 2.
  destruct (startswith headline p); [reflexivity | exact IH].
Qed.

(** Claim C4, amended.  For every string, [clean_headline] removes the
    first label prefix of the list that the string starts with, and only
    when it starts with it; it trims the rest and goes on with the
    prefixes later in the list only, removing each one the text then
    starts with; no prefix is tried twice.  [normalize_text] is applied to
    what is left. *)
Theorem clean_headline_prefixes (headline : str) :
  clean_headline (Some headline)
  = normalize_text
      (Some (match first_match prefixes_to_remove headline with
             | Some (prefix, later) =>
                 fold_left remove_prefix later
                   (strip (skipn (List.length prefix) headline))
             | None => headline
             end)).
Proof.
  destruct headline as [| c h]; [reflexivity |].
  unfold clean_headline. now rewrite fold_remove_first.
Qed.

(** Claim C4 as stated fails: ["Anúncio Ad: Oferta"] loses two prefixes. *)
Lemma clean_headline_removes_two :
  clean_headline (Some (lit "Anúncio Ad: Oferta")) = lit "Oferta"
  /\ clean_headline_first_only (Some (lit "Anúncio Ad: Oferta")) = lit "Ad: Oferta"
  /\ clean_headline (Some (lit "Anúncio Ad: Oferta"))
     <> clean_headline_first_only (Some (lit "Anúncio Ad: Oferta")).
Proof.
  repeat split; try (vm_compute; reflexivity).
  vm_compute. discriminate.
Qed.

(** When the text left after the first prefix starts with no later prefix,
    [clean_headline] does what the specification says. *)
Lemma clean_headline_single_prefix (headline : str) :
  match first_match prefixes_to_remove headline with
  | Some (prefix, later) =>
      first_match later (strip (skipn (List.length prefix) headline)) = None
  | None => True
  end ->
  clean_headline (Some headline) = clean_headline_first_only (Some headline).
Proof.
  intros H. destruct headline as [| c h]; [reflexivity |].
  unfold clean_headline, clean_headline_first_only.
  rewrite fold_remove_first.
  destruct (first_match prefixes_to_remove (c :: h)) as [[p later] |];
    [| reflexivity].
  rewrite fold_remove_first, H. apply normalize_text_strip.
Qed.

(** What holds of claim C3 for every input: no character of the output is
    in the control ranges. *)
Lemma normalize_text_no_control (text : option str) :
  Forall (fun c => iscontrol c = false) (normalize_text text).
Proof.
  destruct text as [[| c t] |]; simpl; try constructor.
  unfold sub_control. apply Forall_forall. intros x Hx.
  apply filter_In in Hx as [_ Hx]. now apply negb_true_iff in Hx.
Qed.

(** Claim C3 at a failing input: a control character between two spaces is
    removed after the white space was collapsed, which leaves two spaces;
    normalising again collapses them, so the function is not idempotent. *)
Lemma normalize_text_double_space :
  let x := [ch "a"; ch " "; 0x96%N; ch " "; ch "b"] in
  normalize_text (Some x) = [ch "a"; ch " "; ch " "; ch "b"]
  /\ normalize_text (Some (normalize_text (Some x))) = [ch "a"; ch " "; ch "b"]
  /\ normalize_text (Some (normalize_text (Some x))) <> normalize_text (Some x).
Proof.
  repeat split; try (vm_compute; reflexivity).
  vm_compute. discriminate.
Qed.

End TextFacts.


(* ================================================================= *)
(** ** ResultPipeline *)

Section PipelineFacts.

Import PyStr Models Pipeline.
Local Open Scope Z_scope.

(** *** The classifiers on the examples of the specification *)

Example is_marketplace_examples :
  Url.is_marketplace (Some (lit "https://www.mercadolivre.com.br/x")) = true
  /\ Url.is_marketplace (Some (lit "https://mystore.com")) = false
  /\ Url.is_marketplace None = false
  /\ Url.is_probable_dropshipping (Some (lit "https://x.MyShopify.com/a")) = true.
Proof. repeat split; vm_compute; reflexivity. Qed.

(** *** The filter stage *)

Lemma is_marketplace_truthy (url : option str) :
  Url.is_marketplace url = true -> truthy url = true.
Proof. destruct url as [[| c s] |]; simpl; intros H; congruence. Qed.

Lemma filter_result_outcome (request : SearchRequest) (result : AdOut) :
  match filter_result request result with
  | Some kept => [kept]
  | None => []
  end = outcome_untouched request result.
Proof.
  unfold filter_result, outcome_untouched, first_rule, soft_exclude.
  destruct (exclude_marketplaces request); simpl.
  - destruct (Url.is_marketplace (landing_url (ad result))) eqn:M.
    + rewrite (is_marketplace_truthy _ M). reflexivity.
    + destruct (truthy (landing_url (ad result)));
        destruct (days_active (ad result) <? min_days request);
        destruct (advertiser_active_ads_est (ad result) <? min_active_ads request); reflexivity.
  - destruct (days_active (ad result) <? min_days request);
      destruct (advertiser_active_ads_est (ad result) <? min_active_ads request); reflexivity.
Qed.

Lemma filter_results_flat_map (results : list AdOut) (request : SearchRequest) :
  filter_results results request = flat_map (outcome_untouched request) results.
Proof.
  induction results as [| r rs IH]; simpl; [reflexivity |].
  rewrite <- filter_result_outcome, <- IH.
  destruct (filter_result request r); reflexivity.
Qed.

Lemma outcome_unset_when_unset (request : SearchRequest) (result : AdOut) :
  exclusion_reason (ad result) = None ->
  outcome_untouched request result = outcome_unset request result.
Proof.
  intros H. unfold outcome_untouched, outcome_unset.
  destruct (first_rule _ _); try reflexivity.
  destruct result as [q c a]. destruct a. simpl in *. subst. reflexivity.
Qed.

(** With every record arriving unannotated, as the builders leave them, the
    kept records are unannotated. *)
Lemma filter_results_unset_inputs (results : list AdOut) (request : SearchRequest) :
  Forall (fun r => exclusion_reason (ad r) = None) results ->
  filter_results results request = flat_map (outcome_unset request) results.
Proof.
  intros H. rewrite filter_results_flat_map.
  induction H as [| r rs Hr _ IH]; simpl; [reflexivity |].
  now rewrite IH, (outcome_unset_when_unset request r Hr).
Qed.

(** Claim C1, amended.  For every list of records and every request,
    [filter_results] treats each record by the first rule that applies:
    with [exclude_marketplaces] set and a landing URL that classifies as
    marketplace the record is kept with [exclusion_reason] set to
    ["Marketplace"], whatever its counters; otherwise it is dropped when
    [days_active < min_days]; otherwise dropped when
    [advertiser_active_ads_est < min_active_ads]; otherwise it is kept as
    it came, its [exclusion_reason] left as it was.  The order of the
    records is kept. *)
Theorem filter_results_first_matching_rule
    (results : list AdOut) (request : SearchRequest) :
  filter_results results request = flat_map (outcome_untouched request) results.
Proof.
  induction results as [| r rs IH]; simpl; [reflexivity |].
  rewrite <- filter_result_outcome, <- IH.
  destruct (filter_result request r); reflexivity.
Qed.

(** Claim C1 as stated fails: a record that arrives with a reason already
    set, and that no rule excludes or drops, is kept with that reason, not
    with the reason unset. *)
Lemma filter_results_keeps_stale_reason :
  first_rule no_exclusion (ad stale_record) = Keep
  /\ filter_results [stale_record] no_exclusion = [stale_record]
  /\ filter_results [stale_record] no_exclusion
     <> flat_map (outcome_unset no_exclusion) [stale_record].
Proof.
  repeat split.
  intros H.
  apply (f_equal (map (fun r => exclusion_reason (ad r)))) in H.
  vm_compute in H. discriminate H.
Qed.

(** *** The order of tuples *)

Lemma Rltb_spec (x y : R) : Rltb x y = true <-> (x < y)%R.
Proof. unfold Rltb. destruct (Rlt_dec x y); split; intros; congruence || lra. Qed.

Lemma Reqb_spec (x y : R) : Reqb x y = true <-> x = y.
Proof. unfold Reqb. destruct (Req_dec_T x y); split; intros; congruence. Qed.

Lemma key_lt_spec (k1 k2 : R * Z) :
  key_lt k1 k2 = true
  <-> (fst k1 < fst k2)%R \/ (fst k1 = fst k2 /\ snd k1 < snd k2).
Proof.
  unfold key_lt. destruct (Reqb (fst k1) (fst k2)) eqn:E.
  - apply Reqb_spec in E. rewrite Z.ltb_lt. split; [auto | intros [H | H]; [lra | tauto]].
  - rewrite Rltb_spec. split; [auto |].
    intros [H | [H _]]; [exact H |].
    apply Reqb_spec in H. congruence.
Qed.

Lemma key_eqb_spec (k1 k2 : R * Z) : key_eqb k1 k2 = true <-> k1 = k2.
Proof.
  unfold key_eqb. rewrite andb_true_iff, Reqb_spec, Z.eqb_eq.
  destruct k1, k2; simpl. split; [intros [-> ->]; reflexivity | intros H; now inversion H].
Qed.

Lemma key_not_lt_spec (x y : AdOut) :
  key_lt (sort_key y) (sort_key x) = false <-> ranks_before x y.
Proof.
  unfold ranks_before. rewrite <- not_true_iff_false, key_lt_spec. simpl.
  split.
  - intros G.
    destruct (Rtotal_order (score (ad x)) (score (ad y))) as [H | [H | H]].
    + exfalso. apply G. left. lra.
    + right. split; [exact H |].
      destruct (Z_lt_le_dec (days_active (ad x)) (days_active (ad y))); [| lia].
      exfalso. apply G. right. split; [lra | lia].
    + left. exact H.
  - intros [K | [K1 K2]] [G | [G1 G2]]; lra || lia.
Qed.

Lemma ranks_before_trans (x y z : AdOut) :
  ranks_before x y -> ranks_before y z -> ranks_before x z.
Proof.
  unfold ranks_before. intros [H1 | [H1 H1']] [H2 | [H2 H2']].
  - left; lra.
  - left; lra.
  - left; lra.
  - right. split; [congruence | lia].
Qed.

Lemma ranks_before_total (x y : AdOut) :
  key_lt (sort_key y) (sort_key x) = true -> ranks_before y x.
Proof.
  rewrite key_lt_spec. unfold ranks_before. simpl.
  intros [H | [H H']]; [left; lra | right; split; [lra | lia]].
Qed.

(** *** Insertion *)

Lemma insert_perm (x : AdOut) (l : list AdOut) : Permutation (insert x l) (x :: l).
Proof.
  induction l as [| y l IH]; simpl; [reflexivity |].
  destruct (key_lt (sort_key y) (sort_key x)); [| reflexivity].
  rewrite IH. apply perm_swap.
Qed.

Lemma list_sort_perm (l : list AdOut) : Permutation (list_sort l) l.
Proof.
  induction l as [| x l IH]; simpl; [reflexivity |].
  rewrite insert_perm. now constructor.
Qed.

Lemma insert_sorted (x : AdOut) (l : list AdOut) :
  StronglySorted ranks_before l -> StronglySorted ranks_before (insert x l).
Proof.
  induction 1 as [| y l Hs IH Hy]; simpl.
  - repeat constructor.
  - destruct (key_lt (sort_key y) (sort_key x)) eqn:E.
    + constructor; [exact IH |].
      apply (Permutation_Forall (Permutation_sym (insert_perm x l))).
      constructor; [now apply ranks_before_total | exact Hy].
    + apply key_not_lt_spec in E.
      constructor; [now constructor |].
      constructor; [exact E |].
      eapply Forall_impl; [| exact Hy].
      intros z Hz. now apply ranks_before_trans with y.
Qed.

Lemma list_sort_sorted (l : list AdOut) : StronglySorted ranks_before (list_sort l).
Proof.
  induction l as [| x l IH]; simpl; [constructor | now apply insert_sorted].
Qed.

Lemma with_key_insert (k : R * Z) (x : AdOut) (l : list AdOut) :
  with_key k (insert x l) = with_key k (x :: l).
Proof.
  unfold with_key.
  induction l as [| y l IH]; simpl; [reflexivity |].
  destruct (key_lt (sort_key y) (sort_key x)) eqn:E; [| reflexivity].
  simpl. rewrite IH. simpl.
  destruct (key_eqb (sort_key x) k) eqn:Ex; [| reflexivity].
  destruct (key_eqb (sort_key y) k) eqn:Ey; [| reflexivity].
  apply key_eqb_spec in Ex, Ey. rewrite Ex, Ey in E.
  apply key_lt_spec in E. destruct E as [E | [_ E]]; [lra | lia].
Qed.

Lemma list_sort_stable (k : R * Z) (l : list AdOut) :
  with_key k (list_sort l) = with_key k l.
Proof.
  induction l as [| x l IH]; simpl; [reflexivity |].
  rewrite with_key_insert. unfold with_key in *. simpl. now rewrite IH.
Qed.

Lemma insert_before_all (x : AdOut) (l : list AdOut) :
  Forall (ranks_before x) l -> insert x l = x :: l.
Proof.
  intros H. destruct H as [| y l Hy _]; simpl; [reflexivity |].
  apply key_not_lt_spec in Hy. now rewrite Hy.
Qed.

Lemma list_sort_fixes_sorted (l : list AdOut) :
  StronglySorted ranks_before l -> list_sort l = l.
Proof.
  induction 1 as [| x l _ IH Hx]; simpl; [reflexivity |].
  rewrite IH. now apply insert_before_all.
Qed.

(** *** Records that the pipeline leaves as they are *)

(** What [enhance_results] makes of one record when the score is [sc]. *)
Lemma enhance_result_inv (r e : AdOut) :
  enhance_result r = Some e ->
  exists sc,
    Score.compute_score (Some (advertiser_active_ads_est (ad r)))
      (Some (days_active (ad r))) (Some (variations_count (ad r))) = Some sc
    /\ e = set_ad r
             (set_is_probable_dropshipping (set_score (ad r) sc)
                (is_probable_dropshipping (ad r)
                 || Url.is_probable_dropshipping (landing_url (ad r)))).
Proof.
  unfold enhance_result. cbv zeta.
  destruct (Score.compute_score _ _ _) as [sc |]; [| discriminate].
  intros H. exists sc. split; [reflexivity |].
  assert (E : e = set_ad r
                    (if negb (is_probable_dropshipping (set_score (ad r) sc))
                        && truthy (landing_url (set_score (ad r) sc))
                     then set_is_probable_dropshipping (set_score (ad r) sc)
                            (Url.is_probable_dropshipping
                               (landing_url (set_score (ad r) sc)))
                     else set_score (ad r) sc)) by congruence.
  rewrite E. clear H E. destruct r as [q c a]. destruct a.
  unfold set_ad, set_score, set_is_probable_dropshipping. cbn.
  destruct is_probable_dropshipping0; cbn; [reflexivity |].
  destruct landing_url0 as [[| x u] |]; reflexivity.
Qed.

Lemma enhance_result_none (r : AdOut) :
  enhance_result r = None
  <-> Score.compute_score (Some (advertiser_active_ads_est (ad r)))
        (Some (days_active (ad r))) (Some (variations_count (ad r))) = None.
Proof.
  unfold enhance_result. cbv zeta.
  destruct (Score.compute_score _ _ _); split; intros H; congruence.
Qed.

Lemma enhance_result_counters (r e : AdOut) :
  enhance_result r = Some e ->
  advertiser_active_ads_est (ad e) = advertiser_active_ads_est (ad r)
  /\ days_active (ad e) = days_active (ad r)
  /\ variations_count (ad e) = variations_count (ad r)
  /\ landing_url (ad e) = landing_url (ad r).
Proof.
  intros H. apply enhance_result_inv in H as (sc & _ & ->).
  repeat split; reflexivity.
Qed.

Lemma enhance_result_fresh (r e : AdOut) :
  enhance_result r = Some e -> score_is_fresh e.
Proof.
  intros H. apply enhance_result_inv in H as (sc & S & ->).
  unfold score_is_fresh. cbn. exact S.
Qed.

Lemma enhance_result_idem (r e : AdOut) :
  enhance_result r = Some e -> enhance_result e = Some e.
Proof.
  intros H. apply enhance_result_inv in H as (sc & S & ->).
  unfold enhance_result. cbn. rewrite S. cbv zeta.
  destruct r as [q c a]. destruct a.
  unfold set_ad, set_score, set_is_probable_dropshipping. cbn.
  destruct is_probable_dropshipping0; cbn; [reflexivity |].
  destruct (Url.is_probable_dropshipping landing_url0) eqn:E; cbn;
    [reflexivity |].
  destruct (truthy landing_url0); cbn; rewrite ?E; reflexivity.
Qed.

Lemma enhance_soft_exclude_commute (r : AdOut) :
  enhance_result (soft_exclude r) = option_map soft_exclude (enhance_result r).
Proof.
  destruct r as [q c a]. destruct a.
  unfold enhance_result, soft_exclude, set_ad, set_score,
    set_is_probable_dropshipping, set_exclusion_reason. cbn.
  destruct (Score.compute_score _ _ _); cbn; [| reflexivity].
  destruct (negb is_probable_dropshipping0 && truthy landing_url0); reflexivity.
Qed.

Lemma enhance_result_soft_exclude (r : AdOut) :
  enhance_result r = Some r ->
  enhance_result (soft_exclude r) = Some (soft_exclude r).
Proof. intros H. now rewrite enhance_soft_exclude_commute, H. Qed.

Lemma filter_result_cases (request : SearchRequest) (r kept : AdOut) :
  filter_result request r = Some kept ->
  (kept = r /\ first_rule request (ad r) = Keep)
  \/ (kept = soft_exclude r /\ first_rule request (ad r) = SoftExclude).
Proof.
  intros H. pose proof (filter_result_outcome request r) as O. rewrite H in O.
  unfold outcome_untouched in O.
  destruct (first_rule request (ad r)); [right | discriminate O | left];
    injection O as ->; split; reflexivity.
Qed.

Lemma filter_result_of_rule (request : SearchRequest) (r : AdOut) :
  filter_result request r
  = match first_rule request (ad r) with
    | SoftExclude => Some (soft_exclude r)
    | Drop => None
    | Keep => Some r
    end.
Proof.
  pose proof (filter_result_outcome request r) as O.
  unfold outcome_untouched in O.
  destruct (filter_result request r), (first_rule request (ad r));
    try discriminate O; try reflexivity; injection O as ->; reflexivity.
Qed.

Lemma first_rule_soft_exclude (request : SearchRequest) (r : AdOut) :
  first_rule request (ad (soft_exclude r)) = first_rule request (ad r).
Proof. reflexivity. Qed.

(** The list [enhance_results] returns, record by record. *)
Lemma enhance_results_inv (results enhanced : list AdOut) :
  enhance_results results = Some enhanced ->
  Forall2 (fun r e => enhance_result r = Some e) results enhanced.
Proof.
  revert enhanced. induction results as [| r rs IH]; intros enhanced;
    cbn [enhance_results].
  - intros H. injection H as <-. constructor.
  - destruct (enhance_result r) as [e |] eqn:E; [| discriminate].
    destruct (enhance_results rs) as [es |]; [| discriminate].
    intros H. injection H as <-. constructor; [exact E | now apply IH].
Qed.

Lemma enhance_results_none (results : list AdOut) :
  enhance_results results = None
  <-> Exists (fun r => enhance_result r = None) results.
Proof.
  induction results as [| r rs IH]; cbn [enhance_results].
  - split; [discriminate | intros H; inversion H].
  - destruct (enhance_result r) as [e |] eqn:E.
    + destruct (enhance_results rs) as [es |].
      * split; [discriminate |]. intros H. inversion H as [? ? H1 | ? ? H1]; subst.
        -- congruence.
        -- apply IH in H1. discriminate H1.
      * split; [| reflexivity]. intros _. right. now apply IH.
    + split; [| reflexivity]. intros _. now left.
Qed.

Lemma filter_enhanced_settled (request : SearchRequest)
    (results enhanced : list AdOut) :
  enhance_results results = Some enhanced ->
  Forall (settled request) (filter_results enhanced request).
Proof.
  intros H. apply enhance_results_inv in H.
  induction H as [| x e l es He _ IH]; cbn [filter_results]; [constructor |].
  destruct (filter_result request e) as [kept |] eqn:F; [| exact IH].
  constructor; [| exact IH].
  pose proof (enhance_result_idem _ _ He) as I.
  destruct (filter_result_cases _ _ _ F) as [[-> K] | [-> K]]; split.
  - exact I.
  - exact F.
  - now apply enhance_result_soft_exclude.
  - rewrite filter_result_of_rule, first_rule_soft_exclude, K. reflexivity.
Qed.

Lemma settled_fixed (request : SearchRequest) (l : list AdOut) :
  Forall (settled request) l ->
  enhance_results l = Some l /\ filter_results l request = l.
Proof.
  induction 1 as [| x l [He Hf] _ [IH1 IH2]]; cbn [enhance_results filter_results];
    [split; reflexivity |].
  rewrite He, IH1, Hf, IH2. split; reflexivity.
Qed.

Lemma filter_enhanced_fresh (request : SearchRequest)
    (results enhanced : list AdOut) :
  enhance_results results = Some enhanced ->
  Forall score_is_fresh (filter_results enhanced request).
Proof.
  intros H. apply enhance_results_inv in H.
  induction H as [| x e l es He _ IH]; cbn [filter_results]; [constructor |].
  destruct (filter_result request e) as [kept |] eqn:F; [| exact IH].
  constructor; [| exact IH].
  pose proof (enhance_result_fresh _ _ He) as Fr.
  destruct (filter_result_cases _ _ _ F) as [[-> _] | [-> _]]; exact Fr.
Qed.

(** Claim C7.  For every list of filtered records the sort of [search_ads]
    gives the same records in descending order of score, with descending
    [days_active] between records of equal score, and records that tie on
    both keys keep their relative order; the output of the pipeline is that
    sort of the filtered list of the enhanced records, and each score in it
    is the recomputed one.  The pipeline has no output exactly when
    [compute_score] raises on one of the records. *)
Theorem pipeline_output_ranked_stable
    (filtered results : list AdOut) (request : SearchRequest) :
  StronglySorted ranks_before (list_sort filtered)
  /\ Permutation (list_sort filtered) filtered
  /\ (forall k, with_key k (list_sort filtered) = with_key k filtered)
  /\ pipeline results request
     = match enhance_results results with
       | Some enhanced => Some (list_sort (filter_results enhanced request))
       | None => None
       end
  /\ match pipeline results request with
     | Some output => Forall score_is_fresh output
     | None => Exists (fun r => enhance_result r = None) results
     end.
Proof.
  split; [apply list_sort_sorted |].
  split; [apply list_sort_perm |].
  split; [intros k; apply list_sort_stable |].
  split; [reflexivity |].
  unfold pipeline. destruct (enhance_results results) as [enhanced |] eqn:E.
  - cbv zeta.
    apply (Permutation_Forall (Permutation_sym (list_sort_perm _))).
    now apply filter_enhanced_fresh with (results := results).
  - now apply enhance_results_none.
Qed.

(** Claim C8.  The pipeline is idempotent: for every list of records and
    every request, the pipeline applied to its own output with the same
    request gives that output again, in the same order. *)
Theorem pipeline_idempotent (results : list AdOut) (request : SearchRequest) :
  match pipeline results request with
  | Some output => pipeline output request = Some output
  | None => True
  end.
Proof.
  unfold pipeline at 1.
  destruct (enhance_results results) as [enhanced |] eqn:E; [| exact I].
  cbv zeta.
  set (filtered := filter_results enhanced request).
  assert (S : Forall (settled request) (list_sort filtered)).
  { apply (Permutation_Forall (Permutation_sym (list_sort_perm _))).
    now apply filter_enhanced_settled with (results := results). }
  destruct (settled_fixed request _ S) as [S1 S2].
  unfold pipeline. rewrite S1. cbv zeta. rewrite S2. f_equal.
  apply list_sort_fixes_sorted, list_sort_sorted.
Qed.

(** *** The scenario of the specification *)

Lemma scenario_enhanced :
  exists x y,
    enhance_result record_X = Some x /\ enhance_result record_Y = Some y
    /\ first_rule default_request (ad x) = SoftExclude
    /\ first_rule default_request (ad y) = Keep
    /\ (score (ad x) < score (ad y))%R.
Proof.
  assert (F : forall r, (Z.abs (advertiser_active_ads_est (ad r)) < 1000) ->
              (Z.abs (days_active (ad r)) < 1000) ->
              (0 < variations_count (ad r) < 1000) ->
              exists e, enhance_result r = Some e).
  { intros r Ha Hd Hv. pose proof float_limit_large as L.
    destruct (enhance_result r) as [e |] eqn:E; [now exists e |].
    apply enhance_result_none, compute_score_none in E.
    rewrite !int_or_some_0, int_or_some_1 in E by lia. lia. }
  destruct (F record_X) as [x Ex]; [cbn; lia | cbn; lia | cbn; lia |].
  destruct (F record_Y) as [y Ey]; [cbn; lia | cbn; lia | cbn; lia |].
  exists x, y. split; [exact Ex |]. split; [exact Ey |].
  pose proof (enhance_result_counters _ _ Ex) as (Xa & Xd & Xv & Xu).
  pose proof (enhance_result_counters _ _ Ey) as (Ya & Yd & Yv & Yu).
  pose proof (enhance_result_fresh _ _ Ex) as Fx.
  pose proof (enhance_result_fresh _ _ Ey) as Fy.
  unfold score_is_fresh in Fx, Fy. rewrite Xa, Xd, Xv in Fx.
  rewrite Ya, Yd, Yv in Fy.
  repeat split.
  - unfold first_rule. rewrite Xu. lazy. reflexivity.
  - unfold first_rule. rewrite Yu, Yd, Ya. lazy. reflexivity.
  - pose proof (compute_score_window 10 5 (Some 1) _ ltac:(lia) ltac:(lia) Fx) as HX.
    pose proof (compute_score_window 40 50 (Some 3) _ ltac:(lia) ltac:(lia) Fy) as HY.
    simpl in HX, HY. lra.
Qed.

Lemma score_soft_exclude (r : AdOut) :
  score (ad (soft_exclude r)) = score (ad r).
Proof. reflexivity. Qed.

(** A soft-excluded record of lower score goes after a kept record,
    whatever the order they came in. *)
Lemma pipeline_pair (x y x' y' : AdOut) (request : SearchRequest) :
  enhance_result x = Some x' -> enhance_result y = Some y' ->
  first_rule request (ad x') = SoftExclude ->
  first_rule request (ad y') = Keep ->
  (score (ad x') < score (ad y'))%R ->
  pipeline [x; y] request = Some [y'; soft_exclude x']
  /\ pipeline [y; x] request = Some [y'; soft_exclude x'].
Proof.
  intros Ex Ey RX RY Hs.
  assert (FX : filter_result request x' = Some (soft_exclude x'))
    by (rewrite filter_result_of_rule, RX; reflexivity).
  assert (FY : filter_result request y' = Some y')
    by (rewrite filter_result_of_rule, RY; reflexivity).
  assert (K : key_lt (sort_key y') (sort_key (soft_exclude x')) = true).
  { apply key_lt_spec. left. unfold sort_key. cbn [fst snd].
    rewrite score_soft_exclude. lra. }
  assert (K' : key_lt (sort_key (soft_exclude x')) (sort_key y') = false).
  { apply not_true_iff_false. rewrite key_lt_spec. unfold sort_key.
    cbn [fst snd]. rewrite score_soft_exclude.
    intros [H1 | [H1 _]]; lra. }
  unfold pipeline. cbn [enhance_results]. rewrite Ex, Ey. cbv zeta.
  split; cbn [filter_results]; rewrite ?FX, ?FY; cbn [filter_results];
    rewrite ?FX, ?FY; cbn [list_sort insert]; rewrite ?K, ?K'; reflexivity.
Qed.

Example scenario_order :
  exists x y,
    enhance_result record_X = Some x /\ enhance_result record_Y = Some y
    /\ pipeline [record_X; record_Y] default_request = Some [y; soft_exclude x]
    /\ pipeline [record_Y; record_X] default_request = Some [y; soft_exclude x].
Proof.
  destruct scenario_enhanced as (x & y & Ex & Ey & RX & RY & Hs).
  exists x, y. split; [exact Ex |]. split; [exact Ey |].
  exact (pipeline_pair _ _ _ _ _ Ex Ey RX RY Hs).
Qed.

End PipelineFacts.

(* ================================================================= *)

Section UrlFacts.
Import PyStr Url.

Lemma startswith_spec (s p : str) :
  startswith s p = true <-> exists rest, s = p ++ rest.
Proof.
  revert s. induction p as [| a p IH]; intros s; simpl.
  - split; [intros _; now exists s | intros _; destruct s; reflexivity].
  - destruct s as [| c s]; simpl.
    + split; [discriminate | intros [rest E]; discriminate E].
    + rewrite andb_true_iff, N.eqb_eq, IH. split.
      * intros [-> [rest ->]]. now exists rest.
      * intros [rest E]. injection E as -> ->. split; [reflexivity | now exists rest].
Qed.

Lemma contains_spec (sub s : str) :
  contains sub s = true <-> exists pre post, s = pre ++ sub ++ post.
Proof.
  induction s as [| c s IH].
  - change (contains sub []) with (startswith [] sub || false).
    rewrite orb_false_r, startswith_spec. split.
    + intros [rest E]. now exists [], rest.
    + intros [pre [post E]]. destruct pre as [| x pre]; [| discriminate E].
      now exists post.
  - change (contains sub (c :: s))
      with (startswith (c :: s) sub || contains sub s).
    rewrite orb_true_iff, startswith_spec, IH. split.
    + intros [[rest E] | [pre [post E]]].
      * now exists [], rest.
      * exists (c :: pre), post. simpl. now rewrite E.
    + intros [pre [post E]]. destruct pre as [| x pre].
      * left. now exists post.
      * right. injection E as -> ->. now exists pre, post.
Qed.

Lemma lower_app (a b : str) : lower (a ++ b) = lower a ++ lower b.
Proof. unfold lower. apply flat_map_app. Qed.

Lemma lower_char_idem (c : char) : lower (lower_char c) = lower_char c.
Proof.
  unfold lower_char.
  destruct ((0x41 <=? c) && (c <=? 0x5A))%N eqn:E1.
  { apply andb_true_iff in E1 as [A B]. apply N.leb_le in A, B.
    unfold lower. simpl. unfold lower_char.
    replace ((65 <=? c + 32) && (c + 32 <=? 90))%N with false
      by (symmetry; apply andb_false_iff; right; apply N.leb_gt; lia).
    replace ((192 <=? c + 32) && (c + 32 <=? 222) && negb (c + 32 =? 215))%N with false
      by (symmetry; apply andb_false_iff; left; apply andb_false_iff; left;
          apply N.leb_gt; lia).
    repeat match goal with
    | |- context [(c + 32 =? ?k)%N] =>
        replace (c + 32 =? k)%N with false by (symmetry; apply N.eqb_neq; lia)
    end.
    reflexivity. }
  destruct ((0xC0 <=? c) && (c <=? 0xDE) && negb (c =? 0xD7))%N eqn:E2.
  { apply andb_true_iff in E2 as [E2 C]. apply andb_true_iff in E2 as [A B].
    apply N.leb_le in A, B. apply negb_true_iff, N.eqb_neq in C.
    unfold lower. simpl. unfold lower_char.
    replace ((65 <=? c + 32) && (c + 32 <=? 90))%N with false
      by (symmetry; apply andb_false_iff; right; apply N.leb_gt; lia).
    replace ((192 <=? c + 32) && (c + 32 <=? 222) && negb (c + 32 =? 215))%N with false
      by (symmetry; apply andb_false_iff; left; apply andb_false_iff; right;
          apply N.leb_gt; lia).
    repeat match goal with
    | |- context [(c + 32 =? ?k)%N] =>
        replace (c + 32 =? k)%N with false by (symmetry; apply N.eqb_neq; lia)
    end.
    reflexivity. }
  destruct (N.eqb_spec c 0x130) as [-> |]; [reflexivity |].
  destruct (N.eqb_spec c 0x178) as [-> |]; [reflexivity |].
  destruct (N.eqb_spec c 0x1E9E) as [-> |]; [reflexivity |].
  destruct (N.eqb_spec c 0x212A) as [-> |]; [reflexivity |].
  destruct (N.eqb_spec c 0x212B) as [-> |]; [reflexivity |].
  unfold lower. simpl. unfold lower_char. rewrite E1, E2.
  repeat match goal with
  | H : c <> ?k |- context [(c =? ?k)%N] =>
      replace (c =? k)%N with false by (symmetry; now apply N.eqb_neq)
  end.
  reflexivity.
Qed.

Lemma lower_idem (s : str) : lower (lower s) = lower s.
Proof.
  induction s as [| c s IH]; [reflexivity |].
  change (lower (c :: s)) with (lower_char c ++ lower s).
  now rewrite lower_app, lower_char_idem, IH.
Qed.

Lemma lower_nil (s : str) : lower s = [] -> s = [].
Proof.
  destruct s as [| c s]; [reflexivity |].
  change (lower (c :: s)) with (lower_char c ++ lower s).
  intros H. apply app_eq_nil in H as [H _]. unfold lower_char in H.
  repeat match type of H with
  | (if ?b then _ else _) = _ => destruct b; try discriminate H
  end.
Qed.

(** A URL is classified by the substrings of its lowered text. *)
Lemma any_contains_spec (needles : list str) (url : option str) :
  Forall (fun n => n <> []) needles ->
  (match url with
   | None | Some [] => false
   | Some u => existsb (fun n => contains n (lower u)) needles
   end = true
   <-> exists u n pre post,
         url = Some u /\ In n needles /\ lower u = pre ++ n ++ post).
Proof.
  intros Hne. destruct url as [[| c u] |].
  - split; [discriminate |]. intros (u & n & pre & post & E & Hin & L).
    injection E as <-. simpl in L. rewrite Forall_forall in Hne.
    specialize (Hne n Hin). destruct pre; destruct n; simpl in L; congruence.
  - rewrite existsb_exists. split.
    + intros [n [Hin C]]. apply contains_spec in C as [pre [post E]].
      now exists (c :: u), n, pre, post.
    + intros (u' & n & pre & post & E & Hin & L). injection E as <-.
      exists n. split; [exact Hin |]. apply contains_spec. now exists pre, post.
  - split; [discriminate |]. intros (u & n & pre & post & E & _). discriminate E.
Qed.

(** Property X4.  [is_marketplace] answers [True] exactly for the URLs whose lowered
    text contains one of the marketplace names, anywhere in the URL. *)
Theorem is_marketplace_substring (url : option str) :
  is_marketplace url = true
  <-> exists u m pre post,
        url = Some u /\ In m marketplaces /\ lower u = pre ++ m ++ post.
Proof.
  apply any_contains_spec. unfold marketplaces.
  repeat constructor; discriminate.
Qed.

(** Property X5.  [is_probable_dropshipping] answers [True] exactly for the URLs whose
    lowered text contains one of the patterns, anywhere in the URL. *)
Theorem is_probable_dropshipping_substring (url : option str) :
  is_probable_dropshipping url = true
  <-> exists u m pre post,
        url = Some u /\ In m dropshipping_patterns /\ lower u = pre ++ m ++ post.
Proof.
  apply any_contains_spec. unfold dropshipping_patterns.
  repeat constructor; discriminate.
Qed.

(** Property X6.  Both classifiers give the same answer on a URL and on its lowered
    text. *)
Theorem classifiers_ignore_case (u : str) :
  is_marketplace (Some (lower u)) = is_marketplace (Some u)
  /\ is_probable_dropshipping (Some (lower u)) = is_probable_dropshipping (Some u).
Proof.
  unfold is_marketplace, is_probable_dropshipping.
  destruct u as [| c u]; [split; reflexivity |].
  destruct (lower (c :: u)) as [| a r] eqn:E.
  - apply lower_nil in E. discriminate E.
  - rewrite <- E, lower_idem. split; reflexivity.
Qed.

End UrlFacts.

(* ================================================================= *)

Section AdIdFacts.
Import PyStr Re AdId.

Lemma id_char_not_amp (w : str) : is_true_on id_char w -> is_true_on not_amp w.
Proof.
  apply Forall_impl. intros c H. unfold not_amp.
  destruct (N.eqb_spec c (ch "&")) as [-> |]; [discriminate H | reflexivity].
Qed.

Lemma decimal_not_amp (w : str) : is_true_on isdecimal w -> is_true_on not_amp w.
Proof.
  apply Forall_impl. intros c H. unfold not_amp.
  destruct (N.eqb_spec c (ch "&")) as [-> |]; [discriminate H | reflexivity].
Qed.

Lemma pattern_captures (pattern : regex) (url : str) (g : groups) :
  In pattern patterns -> search pattern url = Some g ->
  exists w pre post,
    group 1 g = Some w /\ w <> [] /\ is_true_on not_amp w
    /\ url = pre ++ w ++ post.
Proof.
  intros Hp Hs. apply search_some in Hs as (before & s0 & s' & -> & H).
  unfold patterns in Hp. cbn [In] in Hp.
  destruct Hp as [<- | [<- | [<- | [<- | []]]]]; invert_run; subst;
    cbn [group Nat.eqb]; eexists; eexists; exists s';
    (split; [reflexivity |]);
    (split; [now apply length_pos_nonempty |]);
    (split; [first [assumption | now apply decimal_not_amp
                    | now apply id_char_not_amp] |]);
    rewrite app_assoc; reflexivity.
Qed.

Lemma first_id_cases (ps : list regex) (url : str) :
  incl ps patterns ->
  (Forall (fun p => search p url = None) ps /\ first_id ps url = None)
  \/ exists before p after g w pre post,
       ps = before ++ p :: after
       /\ Forall (fun p => search p url = None) before
       /\ search p url = Some g /\ group 1 g = Some w
       /\ first_id ps url = Some w
       /\ w <> [] /\ is_true_on not_amp w /\ url = pre ++ w ++ post.
Proof.
  induction ps as [| p ps IH]; intros Hincl; cbn [first_id].
  - left. split; [constructor | reflexivity].
  - destruct (search p url) as [g |] eqn:E.
    + assert (Hp : In p patterns) by (apply Hincl; now left).
      destruct (pattern_captures p url g Hp E)
        as (w & pre & post & G & Hne & Ha & Hu).
      right. exists [], p, ps, g, w, pre, post. rewrite G.
      split; [reflexivity |]. split; [constructor |]. auto 10.
    + assert (Hrest : incl ps patterns) by (intros x Hx; apply Hincl; now right).
      destruct (IH Hrest)
        as [[N F] | (be & p0 & af & g & w & pre & post & -> & N & R)].
      * left. split; [| exact F]. constructor; [exact E | exact N].
      * right. exists (p :: be), p0, af, g, w, pre, post.
        split; [reflexivity |]. split; [| exact R].
        constructor; [exact E | exact N].
Qed.

(** Property X7.  [extract_ad_id_from_url] returns [None] for a missing or
    empty URL and when none of the four patterns is found in the URL;
    otherwise it returns the first group of the first pattern, in the order
    of the list, that is found, and that identifier is not empty, holds no
    [&] and occurs in the URL. *)
Theorem extract_ad_id_from_url_result (url : option str) :
  match url with
  | None | Some [] => extract_ad_id_from_url url = None
  | Some u =>
      (Forall (fun p => search p u = None) patterns
       /\ extract_ad_id_from_url url = None)
      \/ exists before p after g w pre post,
           patterns = before ++ p :: after
           /\ Forall (fun p => search p u = None) before
           /\ search p u = Some g /\ group 1 g = Some w
           /\ extract_ad_id_from_url url = Some w
           /\ w <> [] /\ is_true_on not_amp w /\ u = pre ++ w ++ post
  end.
Proof.
  destruct url as [[| c u] |]; [reflexivity | | reflexivity].
  exact (first_id_cases patterns (c :: u) (incl_refl _)).
Qed.

(** The order of the patterns decides: [ad_id=] before [/ads/], before
    [creative_id=], before [id=]. *)
Example extract_ad_id_examples :
  extract_ad_id_from_url (Some (lit "https://www.facebook.com/ads/library/?id=123_ab&x=1"))
    = Some (lit "123_ab")
  /\ extract_ad_id_from_url (Some (lit "https://x/ads/42?creative_id=7")) = Some (lit "42")
  /\ extract_ad_id_from_url (Some (lit "https://x/?paid_id=9&ad_id=5")) = Some (lit "5")
  /\ extract_ad_id_from_url (Some (lit "https://x/?ad_id=&id=q")) = Some (lit "q")
  /\ extract_ad_id_from_url (Some (lit "https://mystore.com")) = None.
Proof. repeat split; vm_compute; reflexivity. Qed.

End AdIdFacts.

(* ================================================================= *)

Section ClampFacts.
Import Score.
Local Open Scope R_scope.

(** Property X1.  [clamp] with bounds in order: the result lies between the bounds; a
    value inside them is returned as it is, a value below gives the lower
    bound, a value above the upper bound; clamping twice is clamping once. *)
Theorem clamp_three_cases (value min_val max_val : R) :
  min_val <= max_val ->
  min_val <= clamp value min_val max_val <= max_val
  /\ (min_val <= value <= max_val -> clamp value min_val max_val = value)
  /\ (value <= min_val -> clamp value min_val max_val = min_val)
  /\ (max_val <= value -> clamp value min_val max_val = max_val)
  /\ clamp (clamp value min_val max_val) min_val max_val
     = clamp value min_val max_val.
Proof.
  intros H. unfold clamp, Rmax, Rmin.
  repeat split; intros; repeat destruct (Rle_dec _ _); lra.
Qed.

Lemma clamp_three_cases_witness :
  0 <= 50
  /\ 0 <= clamp 70 0 50 <= 50
  /\ clamp 70 0 50 = 50.
Proof.
  assert (H : 0 <= 50) by lra.
  pose proof (clamp_three_cases 70 0 50 H) as (B & _ & _ & Hi & _).
  split; [exact H |]. split; [exact B |]. apply Hi. lra.
Defined.

(** Property X2.  [clamp] with the bounds crossed: the lower bound wins, whatever the
    value. *)
Theorem clamp_crossed_bounds (value min_val max_val : R) :
  max_val < min_val -> clamp value min_val max_val = min_val.
Proof.
  intros H. unfold clamp, Rmax, Rmin. repeat destruct (Rle_dec _ _); lra.
Qed.

End ClampFacts.

Section TextExtras.
Import PyStr Text.

Lemma lstrip_length (s : str) : (List.length (lstrip s) <= List.length s)%nat.
Proof.
  induction s as [| c s IH]; simpl; [lia |].
  destruct (isspace c); simpl; lia.
Qed.

Lemma strip_length (s : str) : (List.length (strip s) <= List.length s)%nat.
Proof.
  unfold strip, rstrip. rewrite length_rev.
  etransitivity; [apply lstrip_length |]. rewrite length_rev.
  apply lstrip_length.
Qed.

Lemma sub_spaces_length (b : bool) (s : str) :
  (List.length (sub_spaces b s) <= List.length s)%nat.
Proof.
  revert b. induction s as [| c s IH]; intros b; simpl; [lia |].
  destruct (isspace c); [destruct b |]; simpl;
    try (specialize (IH true); lia); specialize (IH false); lia.
Qed.

(** Property X8.  The output of [normalize_text] is made of plain spaces and of
    characters of the input that are neither white space nor control
    characters, and it is no longer than the input. *)
Theorem normalize_text_chars (text : str) :
  Forall (fun c => (c = ch " " \/ (isspace c = false /\ In c text))
                   /\ iscontrol c = false)
         (normalize_text (Some text))
  /\ (List.length (normalize_text (Some text)) <= List.length text)%nat.
Proof.
  destruct text as [| a text]; [split; [constructor | simpl; lia] |].
  unfold normalize_text. set (t := a :: text). split.
  - unfold sub_control. apply Forall_forall. intros c Hc.
    apply filter_In in Hc as [Hin Hctl]. split.
    + pose proof (sub_spaces_chars false (strip t)) as F.
      rewrite Forall_forall in F. destruct (F c Hin) as [E | [Hs Hi]].
      * now left.
      * right. split; [exact Hs |]. now apply strip_incl.
    + now apply negb_true_iff in Hctl.
  - unfold sub_control.
    etransitivity; [apply filter_length_le |].
    etransitivity; [apply sub_spaces_length |]. apply strip_length.
Qed.

(** Property X9.  On a text whose control characters are all white space,
    [normalize_text] is idempotent and leaves no two spaces in a row. *)
Theorem normalize_text_idempotent_plain (text : str) :
  Forall (fun c => hidden_control c = false) text ->
  normalize_text (Some (normalize_text (Some text))) = normalize_text (Some text)
  /\ has_double_space (normalize_text (Some text)) = false.
Proof.
  intros H. destruct (normalize_text_plain text H) as (_ & D & I).
  split; [exact I | exact D].
Qed.

Lemma normalize_text_idempotent_plain_witness :
  Forall (fun c => hidden_control c = false) [ch " "; ch "O"; ch "i"; ch " "; ch " "; ch "x"; ch " "]
  /\ normalize_text (Some (normalize_text (Some [ch " "; ch "O"; ch "i"; ch " "; ch " "; ch "x"; ch " "])))
     = normalize_text (Some [ch " "; ch "O"; ch "i"; ch " "; ch " "; ch "x"; ch " "])
  /\ has_double_space (normalize_text (Some [ch " "; ch "O"; ch "i"; ch " "; ch " "; ch "x"; ch " "])) = false.
Proof.
  assert (H : Forall (fun c => hidden_control c = false) [ch " "; ch "O"; ch "i"; ch " "; ch " "; ch "x"; ch " "])
    by (repeat constructor).
  split; [exact H |]. exact (normalize_text_idempotent_plain _ H).
Defined.

End TextExtras.

(* ================================================================= *)

Section PipelineExtras.
Import PyStr Models Pipeline.
Local Open Scope Z_scope.

Lemma soft_exclude_idem (r : AdOut) : soft_exclude (soft_exclude r) = soft_exclude r.
Proof. reflexivity. Qed.

Lemma filter_result_tighten (loose strict : SearchRequest) (r : AdOut) :
  exclude_marketplaces loose = exclude_marketplaces strict ->
  min_days loose <= min_days strict ->
  min_active_ads loose <= min_active_ads strict ->
  match filter_result loose r with
  | Some kept => filter_result strict kept
  | None => None
  end = filter_result strict r.
Proof.
  intros He Hd Ha. rewrite (filter_result_of_rule loose r).
  rewrite (filter_result_of_rule strict r).
  destruct (first_rule loose (ad r)) eqn:EL.
  - rewrite filter_result_of_rule, first_rule_soft_exclude.
    unfold first_rule in *. rewrite <- He.
    destruct (exclude_marketplaces loose && Url.is_marketplace (landing_url (ad r)));
      [reflexivity |].
    destruct (days_active (ad r) <? min_days loose); [discriminate EL |].
    destruct (advertiser_active_ads_est (ad r) <? min_active_ads loose);
      discriminate EL.
  - unfold first_rule in *. rewrite <- He.
    destruct (exclude_marketplaces loose && Url.is_marketplace (landing_url (ad r)));
      [discriminate EL |].
    destruct (days_active (ad r) <? min_days loose) eqn:E1.
    + apply Z.ltb_lt in E1.
      replace (days_active (ad r) <? min_days strict) with true
        by (symmetry; apply Z.ltb_lt; lia).
      reflexivity.
    + destruct (advertiser_active_ads_est (ad r) <? min_active_ads loose) eqn:E2;
        [| discriminate EL].
      apply Z.ltb_lt in E2.
      replace (advertiser_active_ads_est (ad r) <? min_active_ads strict) with true
        by (symmetry; apply Z.ltb_lt; lia).
      destruct (days_active (ad r) <? min_days strict); reflexivity.
  - rewrite filter_result_of_rule. reflexivity.
Qed.

(** Property X11.  Filtering with a request and then with a stricter one, the same
    marketplace switch and thresholds at least as high, gives what the
    stricter request gives alone. *)
Theorem filter_results_tighten (results : list AdOut) (loose strict : SearchRequest) :
  exclude_marketplaces loose = exclude_marketplaces strict ->
  min_days loose <= min_days strict ->
  min_active_ads loose <= min_active_ads strict ->
  filter_results (filter_results results loose) strict
  = filter_results results strict.
Proof.
  intros He Hd Ha. induction results as [| r results IH]; [reflexivity |].
  cbn [filter_results].
  pose proof (filter_result_tighten loose strict r He Hd Ha) as T.
  destruct (filter_result loose r) as [kept |].
  - cbn [filter_results]. rewrite T, IH. reflexivity.
  - rewrite <- T, IH. reflexivity.
Qed.

Lemma filter_results_tighten_witness :
  filter_results (filter_results [record_X; record_Y] default_request)
    (mkSearchRequest (lit "lamp") standard true 7 20)
  = filter_results [record_X; record_Y]
      (mkSearchRequest (lit "lamp") standard true 7 20).
Proof.
  apply (filter_results_tighten [record_X; record_Y] default_request
           (mkSearchRequest (lit "lamp") standard true 7 20)).
  - reflexivity.
  - simpl. lia.
  - simpl. lia.
Defined.

(** Property X12.  When every record reaches both thresholds, [filter_results] drops
    nothing: the output is the input, record by record, the marketplace
    records annotated. *)
Theorem filter_results_nothing_dropped (results : list AdOut) (request : SearchRequest) :
  Forall (fun r => min_days request <= days_active (ad r)
                   /\ min_active_ads request <= advertiser_active_ads_est (ad r))
         results ->
  filter_results results request
  = map (fun r => if exclude_marketplaces request
                     && Url.is_marketplace (landing_url (ad r))
                  then soft_exclude r else r) results.
Proof.
  induction 1 as [| r results [Hd Ha] _ IH]; [reflexivity |].
  cbn [filter_results map]. rewrite filter_result_of_rule. unfold first_rule.
  destruct (exclude_marketplaces request && Url.is_marketplace (landing_url (ad r))).
  - now rewrite IH.
  - replace (days_active (ad r) <? min_days request) with false
      by (symmetry; apply Z.ltb_ge; lia).
    replace (advertiser_active_ads_est (ad r) <? min_active_ads request) with false
      by (symmetry; apply Z.ltb_ge; lia).
    now rewrite IH.
Qed.

Lemma filter_results_nothing_dropped_witness :
  filter_results [record_X; record_Y] default_request
  = map (fun r => if exclude_marketplaces default_request
                     && Url.is_marketplace (landing_url (ad r))
                  then soft_exclude r else r) [record_X; record_Y].
Proof.
  apply (filter_results_nothing_dropped [record_X; record_Y] default_request).
  repeat constructor; simpl; lia.
Defined.

Lemma is_probable_dropshipping_falsy (url : option str) :
  truthy url = false -> Url.is_probable_dropshipping url = false.
Proof. destruct url as [[| c u] |]; [reflexivity | discriminate | reflexivity]. Qed.



Lemma Forall2_in_right {A B : Type} (R : A -> B -> Prop) (l : list A)
    (l' : list B) (e : B) :
  Forall2 R l l' -> In e l' -> exists x, In x l /\ R x e.
Proof.
  induction 1 as [| x y l l' H _ IH]; intros Hin; [destruct Hin |].
  destruct Hin as [<- | Hin].
  - exists x. split; [now left | exact H].
  - destruct (IH Hin) as (x' & Hx & Hr). exists x'. split; [now right | exact Hr].
Qed.







End PipelineExtras.

(* ================================================================= *)

Section CaptchaFacts.
Import PyStr Re Models Pipeline Acquisition.
Local Open Scope Z_scope.

Lemma visible_captcha_spec (q : lookup) (selectors : list selector) :
  visible_captcha q selectors = true
  <-> exists sel e, In sel selectors /\ q sel = Returned (Some e)
                    /\ is_visible e = Returned true.
Proof.
  induction selectors as [| a l IH]; simpl.
  - split; [discriminate | intros (sel & e & [] & _)].
  - split.
    + intros H. destruct (q a) as [| [e |]] eqn:Eq.
      * apply IH in H as (sel & e & Hin & H1 & H2). exists sel, e. auto.
      * destruct (is_visible e) as [| [|]] eqn:Ev.
        -- apply IH in H as (sel & e' & Hin & H1 & H2). exists sel, e'. auto.
        -- exists a, e. auto.
        -- apply IH in H as (sel & e' & Hin & H1 & H2). exists sel, e'. auto.
      * apply IH in H as (sel & e & Hin & H1 & H2). exists sel, e. auto.
    + intros (sel & e & [<- | Hin] & H1 & H2).
      * rewrite H1, H2. reflexivity.
      * assert (V : visible_captcha q l = true) by (apply IH; eauto).
        destruct (q a) as [| [e' |]]; auto.
        destruct (is_visible e') as [| [|]]; auto.
Qed.

Lemma check_for_captcha_word (q : lookup) (c w pre post : str) :
  In w captcha_texts -> lower c = pre ++ w ++ post ->
  check_for_captcha q (Returned c) = Returned true.
Proof.
  intros Hin E. unfold check_for_captcha.
  destruct (visible_captcha q captcha_selectors); [reflexivity |].
  f_equal. apply existsb_exists. exists w. split; [exact Hin |].
  apply contains_spec. now exists pre, post.
Qed.

(** Property X16.  [check_for_captcha] answers [True] exactly when one of its selectors
    finds a visible element, or the page's content, lowered, contains one
    of the words captcha, verification, robot, human; it raises only when
    reading the content raises. *)
Theorem check_for_captcha_true (q : lookup) (content : outcome str) :
  (check_for_captcha q content = Returned true
   <-> (exists sel e, In sel captcha_selectors /\ q sel = Returned (Some e)
                      /\ is_visible e = Returned true)
       \/ (exists c w pre post, content = Returned c /\ In w captcha_texts
                                /\ lower c = pre ++ w ++ post))
  /\ (check_for_captcha q content = Raised -> content = Raised).
Proof.
  split.
  - split.
    + unfold check_for_captcha.
      destruct (visible_captcha q captcha_selectors) eqn:V.
      * intros _. left. now apply visible_captcha_spec.
      * destruct content as [| c]; [discriminate |]. intros H.
        assert (H' : existsb (fun text => contains text (lower c)) captcha_texts
                     = true) by (injection H as H; exact H).
        apply existsb_exists in H' as (w & Hin & C).
        apply contains_spec in C as (pre & post & E).
        right. now exists c, w, pre, post.
    + intros [H | (c & w & pre & post & -> & Hin & E)].
      * apply visible_captcha_spec in H. unfold check_for_captcha.
        now rewrite H.
      * now apply check_for_captcha_word with (w := w) (pre := pre) (post := post).
  - unfold check_for_captcha.
    destruct (visible_captcha q captcha_selectors); [discriminate |].
    destruct content; [reflexivity | discriminate].
Qed.

Section WithParsers.

Variable fuzzy_parse : str -> option Dates.date.
Variable isalnum : char -> bool.

(** Property X17.  A results page whose content mentions one of the four words, in any
    case, is taken for a CAPTCHA: the navigation answers [False] and
    [scrape_ads] returns no ad. *)
Theorem scrape_ads_captcha_word (s : scraper) (query : str) (depth : Depth)
    (c w pre post : str) :
  content (results_page s) = Returned c ->
  In w captcha_texts -> lower c = pre ++ w ++ post ->
  navigate_to_ads_library (goto s) (results_page s) query = false
  /\ scrape_ads fuzzy_parse isalnum s query depth = [].
Proof.
  intros Hc Hin E.
  assert (N : navigate_to_ads_library (goto s) (results_page s) query = false).
  { unfold navigate_to_ads_library. destruct (goto s (full_url query)); [reflexivity |].
    rewrite Hc.
    now rewrite (check_for_captcha_word _ c w pre post Hin E). }
  split; [exact N |]. unfold scrape_ads. now rewrite N.
Qed.

End WithParsers.

Lemma scrape_ads_captcha_word_witness :
  scrape_ads (fun _ => None) (fun _ => false) robot_scraper (lit "robot vacuum") standard = [].
Proof.
  apply (scrape_ads_captcha_word (fun _ => None) (fun _ => false) robot_scraper
           (lit "robot vacuum") standard (lit "Robot vacuum cleaners")
           (lit "robot") [] (lit " vacuum cleaners")).
  - reflexivity.
  - right. right. left. reflexivity.
  - vm_compute. reflexivity.
Defined.

End CaptchaFacts.

(* ================================================================= *)

Section EstimateFacts.
Import PyStr Re Models Acquisition.
Local Open Scope Z_scope.

Lemma findall_digits_runs (cur s : str) :
  is_true_on isdecimal cur -> Forall digit_run (findall_digits cur s).
Proof.
  revert cur. induction s as [| c s IH]; intros cur Hcur; simpl.
  - destruct cur as [| d cur]; [constructor |].
    constructor; [| constructor]. split.
    + intros E. apply (f_equal (@List.length _)) in E.
      rewrite length_rev in E. discriminate E.
    + unfold is_true_on. now apply Forall_rev.
  - destruct (isdecimal c) eqn:D.
    + apply IH. constructor; assumption.
    + destruct cur as [| d cur]; [apply IH; constructor |].
      constructor; [| apply IH; constructor]. split.
      * intros E. apply (f_equal (@List.length _)) in E.
        rewrite length_rev in E. discriminate E.
      * unfold is_true_on. now apply Forall_rev.
Qed.

Lemma count_loop_range (q : lookup) (closing : outcome unit)
    (selectors : list selector) (n : Z) :
  count_loop q closing selectors = Returned (Some n) ->
  0 <= n <= 500 /\ closing = Returned tt.
Proof.
  induction selectors as [| sel l IH]; simpl; [discriminate |].
  destruct (q sel) as [| [e |]]; [discriminate | | exact IH].
  destruct (inner_text e) as [| t]; [discriminate |].
  pose proof (findall_digits_runs [] (remove_separators t) (Forall_nil _)) as F.
  destruct (findall_digits [] (remove_separators t)) as [| w ws]; [exact IH |].
  apply Forall_inv in F. destruct F as [Hne Hd].
  destruct closing as [| []]; [discriminate |].
  destruct (int w) as [m |] eqn:I; [| discriminate].
  pose proof (int_digits_nonneg w m Hd I) as Hm.
  intros H. injection H as <-. split; [lia | reflexivity].
Qed.

Lemma page_id_captured (url : str) (g : groups) :
  search page_id_pattern url = Some g ->
  exists pre page_id post,
    group 1 g = Some page_id /\ digit_run page_id
    /\ url = pre ++ [ch "/"] ++ page_id ++ post.
Proof.
  intros Hs. apply search_some in Hs as (before & s0 & s' & -> & H).
  unfold page_id_pattern in H. invert_run; subst.
  cbn [group Nat.eqb]. eexists; eexists; eexists.
  split; [reflexivity |]. split.
  - split; [now apply length_pos_nonempty | assumption].
  - cbn [app]. reflexivity.
Qed.

(** Property X18.  [estimate_advertiser_active_ads] lies in [0, 500]; it is not 0 only
    for a URL that contains [facebook.com] and a slash followed by digits,
    after the advertiser's page was loaded and the tab closed. *)
Theorem estimate_advertiser_active_ads_range (b : browser) (advertiser_url : option str) :
  0 <= estimate_advertiser_active_ads b advertiser_url <= 500
  /\ (estimate_advertiser_active_ads b advertiser_url <> 0 ->
      exists url pre page_id post q,
        advertiser_url = Some url
        /\ contains (lit "facebook.com") url = true
        /\ url = pre ++ [ch "/"] ++ page_id ++ post /\ digit_run page_id
        /\ new_page_goto b (ads_url page_id) = Returned q
        /\ new_page_close b = Returned tt).
Proof.
  unfold estimate_advertiser_active_ads.
  destruct advertiser_url as [[| c u] |]; try (split; [lia | congruence]).
  destruct (new_page b); try (split; [lia | congruence]).
  destruct (contains (lit "facebook.com") (c :: u)) eqn:C;
    try (split; [lia | congruence]).
  destruct (search page_id_pattern (c :: u)) as [g |] eqn:S;
    try (split; [lia | congruence]).
  destruct (page_id_captured _ _ S) as (pre & page_id & post & -> & D & E).
  destruct (new_page_goto b (ads_url page_id)) as [| q] eqn:G;
    try (split; [lia | congruence]).
  destruct (count_loop q (new_page_close b) count_selectors) as [| [n |]] eqn:L;
    try (split; [lia | congruence]).
  apply count_loop_range in L as [R Cl]. split; [exact R |].
  intros _. exists (c :: u), pre, page_id, post, q. auto 10.
Qed.

End EstimateFacts.

(* ================================================================= *)

Ltac fields :=
  cbn [Models.ad_id Models.advertiser_name Models.advertiser_url
       Models.landing_url Models.headline Models.text Models.media_type
       Models.start_date Models.days_active Models.active_status
       Models.variations_count Models.advertiser_active_ads_est
       Models.is_probable_dropshipping Models.exclusion_reason Models.score
       Models.ad_library_result_url] in *.

Section BuilderFacts.
Import PyStr Re Models Acquisition.
Local Open Scope Z_scope.

Variable fuzzy_parse : str -> option Dates.date.
Variable isalnum : char -> bool.
Variable clock : Dates.date.

Lemma first_break_some {A : Type} (q : lookup) (body : element -> turn A)
    (selectors : list selector) (a : A) :
  first_break q body selectors = Some a ->
  exists sel e, In sel selectors /\ q sel = Returned (Some e) /\ body e = Break a.
Proof.
  induction selectors as [| s l IH]; simpl; [discriminate |].
  destruct (q s) as [| [e |]] eqn:Eq; [discriminate | |].
  - destruct (body e) as [| | x] eqn:Eb; [discriminate | |].
    + intros H. apply IH in H as (sel & e' & Hin & H1 & H2).
      exists sel, e'. auto.
    + intros H. injection H as ->. exists s, e. auto.
  - intros H. apply IH in H as (sel & e' & Hin & H1 & H2).
    exists sel, e'. auto.
Qed.

Lemma clean_headline_no_control (headline : option str) :
  Forall (fun c => Text.iscontrol c = false) (Text.clean_headline headline).
Proof.
  unfold Text.clean_headline. destruct headline as [[| c h] |]; try constructor.
  apply normalize_text_no_control.
Qed.

Lemma estimate_variations_range (text : option str) :
  0 <= Variations.estimate_variations_from_text text <= 20.
Proof.
  unfold Variations.estimate_variations_from_text.
  destruct text as [[| c t] |]; try lia.
  destruct (first_indicator_cases Variations.variation_indicators
              (lower (c :: t)) (incl_refl _))
    as [[_ E] | (sk & p & la & g & w & n & _ & _ & _ & _ & _ & _ & _ & E)];
    rewrite E; lia.
Qed.

Lemma default_built : built clock false 0 AdData_default.
Proof.
  unfold built, AdData_default. fields.
  repeat split; try reflexivity; try lia; try exact I.
  left. reflexivity.
Qed.

Lemma advertiser_step_built (bound : Z) (q : lookup) (a : AdData) :
  built clock false bound a -> built clock false bound (advertiser_step q a).
Proof.
  intros B. unfold advertiser_step.
  destruct (q PageNameLink) as [| [e |]]; try exact B.
  destruct (inner_text e) as [| t]; [exact B |].
  pose proof (normalize_text_no_control (Some t)) as Hn.
  set (n := Text.normalize_text (Some t)) in *.
  assert (B' : built clock false bound (set_advertiser_name a (Some n))).
  { unfold built, set_advertiser_name in *. fields.
    destruct B as (B1 & B2 & B3 & B4 & B5 & B6 & B7 & B8 & B9 & B10 & B11 & B12 & B13).
    repeat split; try assumption; try apply B5; try apply B6. }
  destruct (href e) as [| h]; [exact B' |].
  unfold built, set_advertiser_url in *. fields. exact B'.
Qed.

Lemma headline_step_built (bound : Z) (q : lookup) (a : AdData) :
  built clock false bound a -> built clock false bound (headline_step q a).
Proof.
  intros B. unfold headline_step.
  destruct (first_break q headline_turn headline_selectors) as [h |] eqn:E;
    [| exact B].
  apply first_break_some in E as (sel & e & _ & _ & T).
  unfold headline_turn in T. destruct (inner_text e) as [| t]; [discriminate |].
  destruct (nonempty t && _); [| discriminate]. assert (E : h = Text.clean_headline (Some t)) by congruence.
  assert (Hh : no_control (Some h))
    by (rewrite E; apply clean_headline_no_control).
  clear E.
  clear T. unfold built, set_headline in *. fields.
  destruct B as (B1 & B2 & B3 & B4 & B5 & B6 & B7 & B8 & B9 & B10 & B11 & B12 & B13).
  repeat split; try assumption; try apply B5; try apply B6.
Qed.

Lemma text_step_built (bound : Z) (q : lookup) (a : AdData) :
  built clock false bound a -> built clock false bound (text_step q a).
Proof.
  intros B. unfold text_step.
  destruct (first_break q text_turn text_selectors) as [h |] eqn:E; [| exact B].
  apply first_break_some in E as (sel & e & _ & _ & T).
  unfold text_turn in T. destruct (inner_text e) as [| t]; [discriminate |].
  destruct (nonempty t && _); [| discriminate]. assert (E : h = Text.normalize_text (Some t)) by congruence.
  assert (Hh : no_control (Some h))
    by (rewrite E; apply normalize_text_no_control).
  clear E.
  clear T. unfold built, set_text in *. fields.
  destruct B as (B1 & B2 & B3 & B4 & B5 & B6 & B7 & B8 & B9 & B10 & B11 & B12 & B13).
  repeat split; try assumption; try apply B5; try apply B6.
Qed.

Lemma link_step_built (bound : Z) (q : lookup) (a : AdData) :
  built clock false bound a -> built clock false bound (link_step q a).
Proof.
  intros B. unfold link_step.
  destruct (first_break q link_turn link_selectors) as [h |] eqn:E; [| exact B].
  apply first_break_some in E as (sel & e & _ & _ & T).
  unfold link_turn in T. destruct (href e) as [| [t |]]; try discriminate.
  destruct (nonempty t) eqn:Ne; [| discriminate]. cbn [andb] in T.
  destruct (contains (lit "l.facebook.com") t || contains (lit "http") t) eqn:C;
    [| discriminate].
  assert (E : h = t) by congruence. subst h. clear T Ne.
  unfold built, set_landing_url in *. fields.
  destruct B as (B1 & B2 & B3 & B4 & B5 & B6 & B7 & B8 & B9 & B10 & B11 & B12 & B13).
  repeat split; try assumption; try apply B5; try apply B6.
Qed.

Lemma date_step_built (bound : Z) (q : lookup) (a : AdData) :
  built clock false bound a ->
  built clock false bound (date_step fuzzy_parse isalnum clock q a).
Proof.
  intros B. unfold date_step.
  destruct (first_break q (date_turn fuzzy_parse isalnum clock) date_selectors)
    as [[parsed days] |] eqn:E; [| exact B].
  apply first_break_some in E as (sel & e & _ & _ & T).
  unfold date_turn in T. destruct (inner_text e) as [| t]; [discriminate |].
  destruct (nonempty t); [| discriminate].
  destruct (Dates.parse_date_any fuzzy_parse isalnum (Some t)) as [p |];
    [| discriminate].
  destruct (nonempty p); [| discriminate].
  assert (Ep : parsed = p) by congruence.
  assert (Hd : days = Dates.days_between clock (Some parsed) None) by congruence.
  clear T Ep.
  unfold built, set_start in *. fields.
  destruct B as (B1 & B2 & B3 & B4 & B5 & B6 & B7 & B8 & B9 & B10 & B11 & B12 & B13).
  repeat split; try assumption; try apply B5; try apply B6.
Qed.

Lemma media_step_built (bound : Z) (q : lookup) (a : AdData) :
  built clock false bound a -> built clock false bound (media_step q a).
Proof.
  intros B. unfold media_step.
  destruct (q Video) as [| [e |]]; [exact B | |].
  - unfold built, set_media_type in *. fields.
    destruct B as (B1 & B2 & B3 & B4 & B5 & B6 & B7 & B8 & B9 & B10 & B11 & B12 & B13).
    repeat split; try assumption; try apply B5; try apply B6.
    right. left. reflexivity.
  - destruct (q Img) as [| [e |]]; try exact B.
    unfold built, set_media_type in *. fields.
    destruct B as (B1 & B2 & B3 & B4 & B5 & B6 & B7 & B8 & B9 & B10 & B11 & B12 & B13).
    repeat split; try assumption; try apply B5; try apply B6.
    right. right. left. reflexivity.
Qed.

Lemma url_step_built (bound : Z) (page_url : outcome str) (a : AdData) :
  built clock false bound a -> built clock false bound (url_step page_url a).
Proof.
  intros B. unfold url_step. destruct page_url as [| u]; [exact B |].
  unfold built, set_ad_library_result_url in *. fields. exact B.
Qed.

Lemma variations_step_built (bound : Z) (a : AdData) :
  built clock false bound a -> built clock false bound (variations_step a).
Proof.
  intros B. unfold variations_step.
  destruct (truthy (text a) || truthy (headline a)); [| exact B].
  cbv zeta.
  pose proof (estimate_variations_range
                (Some (or_empty (text a) ++ lit " " ++ or_empty (headline a)))) as V.
  set (v := Variations.estimate_variations_from_text _) in *. clearbody v.
  unfold built, set_variations_count in *. fields.
  destruct B as (B1 & B2 & B3 & B4 & B5 & B6 & B7 & B8 & B9 & B10 & B11 & B12 & B13).
  repeat split; try assumption; try apply B5; apply V.
Qed.

Lemma dropshipping_step_built (bound : Z) (a : AdData) :
  built clock false bound a -> built clock true bound (dropshipping_step a).
Proof.
  intros B. unfold dropshipping_step.
  destruct (truthy (landing_url a)) eqn:T.
  - set (f := Url.is_probable_dropshipping (landing_url a)).
    assert (Hf : f = Url.is_probable_dropshipping (landing_url a)) by reflexivity.
    clearbody f. clear T.
    unfold built, set_is_probable_dropshipping in *. fields.
    destruct B as (B1 & B2 & B3 & B4 & B5 & B6 & B7 & B8 & B9 & B10 & B11 & B12 & B13).
    repeat split; try assumption; try apply B5; try apply B6.
  - unfold built in *.
    destruct B as (B1 & B2 & B3 & B4 & B5 & B6 & B7 & B8 & B9 & B10 & B11 & B12 & B13).
    repeat split; try assumption; try apply B5; try apply B6.
    rewrite B13. symmetry. now apply is_probable_dropshipping_falsy.
Qed.

Lemma extract_ad_data_some (q : lookup) (page_url : outcome str) :
  exists a, extract_ad_data fuzzy_parse isalnum clock q page_url = Some a
            /\ built clock true 0 a.
Proof.
  unfold extract_ad_data. cbv zeta. eexists. split; [reflexivity |].
  apply dropshipping_step_built, variations_step_built, url_step_built,
    media_step_built, date_step_built, link_step_built, text_step_built,
    headline_step_built, advertiser_step_built, default_built.
Qed.

(** Property X19.  [extract_ad_data] always returns a record, whatever the element
    answers and whichever calls raise.  In it [ad_id] and
    [exclusion_reason] are unset, the score and the advertiser's estimate
    are 0, [days_active] is the number of days since [start_date] and is
    not negative, [variations_count] lies in [0, 20], the media type is
    one of unknown, video, image, the texts hold no control character, a
    landing URL contains [http] or [l.facebook.com], and the dropshipping
    flag is the classification of the landing URL. *)
Theorem extract_ad_data_built (q : lookup) (page_url : outcome str) :
  exists ad_data,
    extract_ad_data fuzzy_parse isalnum clock q page_url = Some ad_data
    /\ built clock true 0 ad_data
    /\ advertiser_active_ads_est ad_data = 0
    /\ 0 <= days_active ad_data.
Proof.
  destruct (extract_ad_data_some q page_url) as (a & E & B).
  exists a. split; [exact E |]. split; [exact B |]. split.
  - unfold built in B. lia.
  - unfold built in B. destruct B as (_ & _ & _ & _ & _ & _ & B7 & _).
    rewrite B7. apply days_between_nonneg.
Qed.

Lemma built_bound (final : bool) (bound bound' : Z) (a : AdData) :
  bound <= bound' -> built clock final bound a -> built clock final bound' a.
Proof.
  intros L B. unfold built in *.
  destruct B as (B1 & B2 & B3 & B4 & B5 & B6 & B7 & B8 & B9 & B10 & B11 & B12 & B13).
  repeat split; try assumption; try apply B5; try apply B6. lia.
Qed.

Lemma built_estimate (final : bool) (bound v : Z) (a : AdData) :
  0 <= v <= bound -> built clock final 0 a ->
  built clock final bound (set_advertiser_active_ads_est a v).
Proof.
  intros L B. unfold built, set_advertiser_active_ads_est in *. fields.
  destruct B as (B1 & B2 & B3 & B4 & B5 & B6 & B7 & B8 & B9 & B10 & B11 & B12 & B13).
  repeat split; try assumption; try apply B6; lia.
Qed.

Lemma built_days_active (final : bool) (bound : Z) (a : AdData) :
  built clock final bound a -> 0 <= days_active a.
Proof.
  intros B. unfold built in B.
  destruct B as (B1 & B2 & B3 & B4 & B5 & B6 & B7 & B8).
  rewrite B7. apply days_between_nonneg.
Qed.

End BuilderFacts.

Section ScrapeFacts.
Import PyStr Re Models Pipeline Acquisition Api.
Local Open Scope Z_scope.

Variable fuzzy_parse : str -> option Dates.date.
Variable isalnum : char -> bool.

Lemma estimate_bounds (b : browser) (advertiser_url : option str) :
  0 <= estimate_advertiser_active_ads b advertiser_url <= 500.
Proof.
  unfold estimate_advertiser_active_ads.
  destruct advertiser_url as [[| c u] |]; try lia.
  destruct (new_page b); try lia.
  destruct (contains (lit "facebook.com") (c :: u)); try lia.
  destruct (search page_id_pattern (c :: u)) as [g |]; try lia.
  destruct (group 1 g) as [page_id |]; try lia.
  destruct (new_page_goto b (ads_url page_id)) as [| q]; try lia.
  destruct (count_loop q (new_page_close b) count_selectors) as [| [n |]] eqn:L;
    try lia.
  now apply count_loop_range in L as [R _].
Qed.

Lemma process_ads_cons (s : scraper) (i : Z) (q : lookup) (l : list lookup) :
  exists a,
    process_ads fuzzy_parse isalnum s i (q :: l)
    = a :: process_ads fuzzy_parse isalnum s (i + 1) l
    /\ built (today (moments s i)) true 500 a
    /\ (10 <= i -> advertiser_active_ads_est a = 0).
Proof.
  cbn [process_ads]. cbv zeta.
  destruct (extract_ad_data_some fuzzy_parse isalnum (today (moments s i)) q
              (page_url (moments s i))) as (a & -> & B).
  eexists. split; [reflexivity |].
  destruct ((i <? 10) && truthy (advertiser_url a)) eqn:E.
  - split.
    + apply built_estimate; [apply estimate_bounds | exact B].
    + intros H. apply andb_prop in E as [E _]. apply Z.ltb_lt in E. lia.
  - split.
    + apply built_bound with (bound := 0); [lia | exact B].
    + intros _. unfold built in B. lia.
Qed.

Lemma process_ads_length (s : scraper) (l : list lookup) (i : Z) :
  List.length (process_ads fuzzy_parse isalnum s i l) = List.length l.
Proof.
  revert i. induction l as [| q l IH]; intros i; [reflexivity |].
  destruct (process_ads_cons s i q l) as (a & -> & _). simpl. now rewrite IH.
Qed.

Lemma process_ads_all (s : scraper) (l : list lookup) (i : Z) :
  Forall (scraped s) (process_ads fuzzy_parse isalnum s i l).
Proof.
  revert i. induction l as [| q l IH]; intros i; [constructor |].
  destruct (process_ads_cons s i q l) as (a & -> & B & _).
  constructor; [now exists i | apply IH].
Qed.

Lemma process_ads_late (s : scraper) (l : list lookup) (n : nat) (i : Z) :
  10 <= i + Z.of_nat n ->
  Forall (fun a => advertiser_active_ads_est a = 0)
         (skipn n (process_ads fuzzy_parse isalnum s i l)).
Proof.
  revert n i. induction l as [| q l IH]; intros n i H.
  - cbn [process_ads]. rewrite skipn_nil. constructor.
  - destruct (process_ads_cons s i q l) as (a & -> & _ & L).
    destruct n as [| n].
    + cbn [skipn]. constructor; [apply L; lia |].
      apply (IH 0%nat). lia.
    + cbn [skipn]. apply IH. lia.
Qed.

Lemma scrape_ads_all (s : scraper) (query : str) (depth : Depth) :
  Forall (scraped s) (scrape_ads fuzzy_parse isalnum s query depth)
  /\ (List.length (scrape_ads fuzzy_parse isalnum s query depth) <= 50)%nat.
Proof.
  unfold scrape_ads.
  destruct (negb (navigate_to_ads_library (goto s) (results_page s) query));
    [split; [constructor | simpl; lia] |].
  destruct (scroll_and_load (results_page s) depth);
    [split; [constructor | simpl; lia] |].
  destruct (find_ads (query_selector_all (results_page s)) ad_selectors) as [| l];
    [split; [constructor | simpl; lia] |].
  split; [apply process_ads_all |].
  rewrite process_ads_length. apply firstn_le_length.
Qed.

(** Property X20.  [scrape_ads] returns at most 50 records, each one built as
    [extract_ad_data] builds it with an estimate in [0, 500], and from the
    eleventh record on the estimate is 0. *)
Theorem scrape_ads_result (s : scraper) (query : str) (depth : Depth) :
  let ads_data := scrape_ads fuzzy_parse isalnum s query depth in
  (List.length ads_data <= 50)%nat
  /\ Forall (fun a => exists i, built (today (moments s i)) true 500 a) ads_data
  /\ Forall (fun a => advertiser_active_ads_est a = 0) (skipn 10 ads_data).
Proof.
  cbv zeta. destruct (scrape_ads_all s query depth) as [F L].
  split; [exact L |]. split; [exact F |].
  unfold scrape_ads.
  destruct (negb (navigate_to_ads_library (goto s) (results_page s) query));
    [constructor |].
  destruct (scroll_and_load (results_page s) depth); [constructor |].
  destruct (find_ads (query_selector_all (results_page s)) ad_selectors) as [| l];
    [constructor |].
  apply process_ads_late. simpl. lia.
Qed.

Lemma with_score_delivered (s : scraper) (d : str) (a : AdData) (r : AdOut) :
  with_score d a = Some r -> scraped s a -> delivered d r.
Proof.
  intros W [i B]. pose proof (built_days_active _ _ _ _ B) as Hd.
  unfold built in B.
  destruct B as (B1 & B2 & B3 & B4 & B5 & B6 & B7 & B8 & B9 & B10 & B11 & B12 & B13).
  unfold with_score in W.
  destruct (Score.compute_score (Some (advertiser_active_ads_est a))
              (Some (days_active a)) (Some (variations_count a)))
    as [sc |] eqn:S; [| discriminate].
  assert (E : r = mkAdOut d (lit "BR") (set_score a sc)) by congruence.
  subst r. clear W.
  unfold delivered, score_is_fresh, enhance_result.
  cbn [query country ad set_ad]. unfold set_score. fields.
  repeat split; try assumption; try apply B5; try apply B6.
  rewrite S. cbv zeta. unfold set_ad. cbn [query country ad]. fields.
  do 2 f_equal. rewrite B13.
  destruct (Url.is_probable_dropshipping (landing_url a)) eqn:F; cbn [negb andb];
    [reflexivity |].
  destruct (truthy (landing_url a)); [| reflexivity].
  unfold set_is_probable_dropshipping. fields. reflexivity.
Qed.

Lemma score_all_inv (d : str) (ads : list AdData) (rs : list AdOut) :
  score_all d ads = Some rs ->
  Forall2 (fun a r => with_score d a = Some r) ads rs.
Proof.
  revert rs. induction ads as [| a ads IH]; intros rs; cbn [score_all].
  - intros H. injection H as <-. constructor.
  - destruct (with_score d a) as [r |] eqn:W; [| discriminate].
    destruct (score_all d ads) as [rs' |]; [| discriminate].
    intros H. injection H as <-. constructor; [exact W | now apply IH].
Qed.

Lemma buscar_results (s : scraper) (d : str) (depth : Depth) (rs : list AdOut) :
  buscar_criativos_facebook fuzzy_parse isalnum s d depth = Results rs ->
  StronglySorted ranks_before rs /\ (List.length rs <= 50)%nat
  /\ Forall (delivered d) rs.
Proof.
  unfold buscar_criativos_facebook.
  assert (Nil : forall rs', Results [] = Results rs' ->
            StronglySorted ranks_before rs' /\ (List.length rs' <= 50)%nat
            /\ Forall (delivered d) rs').
  { intros rs' E. assert (rs' = []) by congruence. subst rs'.
    split; [constructor |]. split; [simpl; lia | constructor]. }
  destruct (entered s); [apply Nil |].
  destruct (check_for_captcha (query_selector (first_page s)) (content (first_page s)))
    as [| [|]]; [apply Nil | |].
  - destruct (exited s); [apply Nil | discriminate].
  - cbv zeta.
    destruct (score_all d (scrape_ads fuzzy_parse isalnum s d depth))
      as [results |] eqn:A; [| apply Nil].
    destruct (exited s); [apply Nil |].
    intros E. assert (E' : rs = list_sort results) by congruence.
    clear E. subst rs.
    destruct (scrape_ads_all s d depth) as [F L].
    pose proof (score_all_inv _ _ _ A) as F2.
    pose proof (list_sort_perm results) as P.
    split; [apply list_sort_sorted |]. split.
    + rewrite (Permutation_length P), <- (Forall2_length F2). exact L.
    + apply Forall_forall. intros r Hr. apply (Permutation_in _ P) in Hr.
      destruct (Forall2_in_right _ _ _ _ F2 Hr) as (a & Ha & W).
      rewrite Forall_forall in F.
      apply (with_score_delivered s d a r W). now apply F.
Qed.

(** Property X21.  [buscar_criativos_facebook] either asks for a manual solve, with the
    message of the source, or returns at most 50 records in ranking
    order; each carries the description as query and BR as country, a
    score computed from its counters, no exclusion reason, counters in
    range, and is left unchanged by [enhance_results]. *)
Theorem buscar_criativos_facebook_results (s : scraper) (descricao_produto : str)
    (depth : Depth) :
  match buscar_criativos_facebook fuzzy_parse isalnum s descricao_produto depth with
  | NeedsManualSolve message => message = lit "CAPTCHA detectado"
  | Results results =>
      StronglySorted ranks_before results
      /\ (List.length results <= 50)%nat
      /\ Forall (fun r =>
                   query r = descricao_produto /\ country r = lit "BR"
                   /\ score_is_fresh r /\ exclusion_reason (ad r) = None
                   /\ enhance_result r = Some r
                   /\ 0 <= days_active (ad r)
                   /\ 0 <= advertiser_active_ads_est (ad r) <= 500
                   /\ 0 <= variations_count (ad r) <= 20) results
  end.
Proof.
  destruct (buscar_criativos_facebook fuzzy_parse isalnum s descricao_produto depth)
    as [m | rs] eqn:E.
  - unfold buscar_criativos_facebook in E.
    destruct (entered s); [discriminate |].
    destruct (check_for_captcha _ _) as [| [|]]; [discriminate | |].
    + destruct (exited s); [discriminate | congruence].
    + cbv zeta in E. destruct (score_all _ _); [| discriminate].
      destruct (exited s); discriminate.
  - exact (buscar_results s descricao_produto depth rs E).
Qed.


(** Property X23.  [search_ads] answers with HTTP 400 exactly when the query, trimmed,
    has fewer than two characters, whatever the acquisition would give. *)
Theorem search_ads_rejects_short_query (use_selenium_fallback : bool)
    (playwright selenium : outcome acquired) (request : SearchRequest) :
  (exists detail,
      search_ads use_selenium_fallback playwright selenium request
      = BadRequest detail)
  <-> (List.length (strip (request_query request)) < 2)%nat.
Proof.
  unfold search_ads.
  destruct (strip (request_query request)) as [| c0 [| c1 q]] eqn:Q.
  - cbn [nonempty negb]. split; [simpl; lia | intros _; eauto].
  - cbn [nonempty negb]. cbn [List.length Z.of_nat Z.ltb Z.compare Pos.of_succ_nat
                               Pos.compare Pos.compare_cont].
    split; [simpl; lia | intros _; eauto].
  - cbn [nonempty negb].
    replace (Z.of_nat (List.length (c0 :: c1 :: q)) <? 2) with false
      by (symmetry; apply Z.ltb_ge; simpl List.length; lia).
    split; [| simpl; lia].
    intros [detail E]. destruct playwright as [| [m | rs]].
    + destruct use_selenium_fallback; [| discriminate].
      destruct selenium as [| [m | rs]]; try discriminate.
      destruct rs; [discriminate |].
      destruct (pipeline _ _); discriminate.
    + discriminate.
    + destruct rs; [discriminate |].
      destruct (pipeline _ _); discriminate.
Qed.

End ScrapeFacts.


(* ================================================================= *)

Section SaturationFacts.
Import Score.
Local Open Scope R_scope.

Lemma clamp_above (value min_val max_val : R) :
  min_val <= max_val -> max_val <= value -> clamp value min_val max_val = max_val.
Proof.
  intros H1 H2. unfold clamp, Rmax, Rmin. repeat destruct (Rle_dec _ _); lra.
Qed.

Lemma clamp_below (value min_val max_val : R) :
  min_val <= max_val -> value <= min_val -> clamp value min_val max_val = min_val.
Proof.
  intros H1 H2. unfold clamp, Rmax, Rmin. repeat destruct (Rle_dec _ _); lra.
Qed.

(** Property X3.  [compute_score] saturates below the limit of [float]: an estimate
    above 50 counts as 50, a number of days above 60 as 60; an estimate or
    a number of days that is 0 or negative counts as a missing one, and a
    variation count below 2 as a missing one.  A counter at the limit or
    beyond makes it raise. *)
Theorem compute_score_saturates (a d v : option Z) :
  (forall n, (50 <= n < float_limit)%Z ->
     compute_score (Some n) d v = compute_score (Some 50%Z) d v)
  /\ (forall n, (60 <= n < float_limit)%Z ->
        compute_score a (Some n) v = compute_score a (Some 60%Z) v)
  /\ (forall n, (- float_limit < n <= 0)%Z ->
        compute_score (Some n) d v = compute_score None d v)
  /\ (forall n, (- float_limit < n <= 0)%Z ->
        compute_score a (Some n) v = compute_score a None v)
  /\ (forall n, (- float_limit < n <= 1)%Z ->
        compute_score a d (Some n) = compute_score a d None)
  /\ (forall n, (float_limit <= Z.abs n)%Z ->
        compute_score (Some n) d v = None
        /\ compute_score a (Some n) v = None
        /\ compute_score a d (Some n) = None).
Proof.
  pose proof float_limit_large as L.
  split; [| split; [| split; [| split; [| split]]]]; intros n H;
    [| | | | | split; [| split]].
  - unfold compute_score. rewrite !int_or_some_0.
    rewrite (float_fits n), (float_fits 50) by lia. cbv beta iota zeta.
    rewrite (clamp_above (IZR n) 0 50) by (first [lra | apply IZR_le; lia]).
    rewrite (clamp_above 50 0 50) by lra. reflexivity.
  - unfold compute_score. rewrite !int_or_some_0.
    destruct (float (int_or a 0)) as [fa |]; [| reflexivity].
    rewrite (float_fits n), (float_fits 60) by lia. cbv beta iota zeta.
    rewrite (clamp_above (IZR n) 0 60) by (first [lra | apply IZR_le; lia]).
    rewrite (clamp_above 60 0 60) by lra. reflexivity.
  - unfold compute_score. rewrite int_or_some_0. cbn [int_or].
    rewrite (float_fits n), (float_fits 0) by lia. cbv beta iota zeta.
    rewrite (clamp_below (IZR n) 0 50) by (first [lra | apply IZR_le; lia]).
    rewrite (clamp_below 0 0 50) by lra. reflexivity.
  - unfold compute_score. rewrite int_or_some_0. cbn [int_or].
    destruct (float (int_or a 0)) as [fa |]; [| reflexivity].
    rewrite (float_fits n), (float_fits 0) by lia. cbv beta iota zeta.
    rewrite (clamp_below (IZR n) 0 60) by (first [lra | apply IZR_le; lia]).
    rewrite (clamp_below 0 0 60) by lra. reflexivity.
  - assert (F : (Z.abs (int_or (Some n) 1) < float_limit)%Z)
      by (destruct n; cbn [int_or]; lia).
    assert (E : Rmax 1 (IZR (int_or (Some n) 1)) = Rmax 1 (IZR 1)).
    { rewrite (Rmax_left 1 (IZR 1)) by lra. apply Rmax_left.
      destruct n as [| p | p]; cbn [int_or]; try lra.
      - apply IZR_le. lia.
      - apply IZR_le. lia. }
    unfold compute_score.
    destruct (float (int_or a 0)) as [fa |]; [| reflexivity].
    destruct (float (int_or d 0)) as [fd |]; [| reflexivity].
    rewrite (float_fits _ F). change (int_or None 1) with 1%Z.
    rewrite (float_fits 1) by lia.
    cbv beta iota zeta. rewrite E. reflexivity.
  - apply compute_score_none. left. now rewrite int_or_some_0.
  - apply compute_score_none. right. left. now rewrite int_or_some_0.
  - apply compute_score_none. right. right.
    destruct n; cbn [int_or]; [| exact H | exact H].
    cbn [Z.abs] in H. lia.
Qed.

End SaturationFacts.

Section ParsedDays.
Import PyStr Re Dates.
Local Open Scope Z_scope.

Variable fuzzy_parse : str -> option date.
Variable isalnum : char -> bool.

(** Property X10.  [parse_date_any] followed by [days_between]: when the
    date parser reads a calendar date in the text, the result is the
    number of days from that date to today, 0 for a date in the future,
    provided the year is 1000 or later; for an earlier year [strftime]
    renders the year on fewer than four digits, [strptime] rejects the
    string and the result is 0. *)
Theorem days_between_parsed (clock d : date) (date_text : str) :
  date_text <> [] -> fuzzy_parse (strip date_text) = Some d -> valid_date d ->
  parse_date_any fuzzy_parse isalnum (Some date_text) = Some (strftime_ymd d)
  /\ days_between clock (parse_date_any fuzzy_parse isalnum (Some date_text)) None
     = if 1000 <=? year d then Z.max 0 (toordinal clock - toordinal d) else 0.
Proof.
  intros Hne Hf Hv.
  assert (P : parse_date_any fuzzy_parse isalnum (Some date_text)
              = Some (strftime_ymd d)).
  { unfold parse_date_any. destruct date_text as [| c t]; [congruence |].
    cbv zeta. now rewrite Hf. }
  split; [exact P |]. rewrite P.
  assert (Hy : 1 <= year d <= 9999).
  { unfold valid_date, check_date_fields in Hv.
    rewrite !andb_true_iff, !Z.leb_le in Hv. lia. }
  destruct (1000 <=? year d) eqn:E.
  - apply Z.leb_le in E. rewrite strftime_ymd_isoformat by lia.
    pose proof (strptime_isoformat d Hv) as R.
    unfold days_between. destruct (isoformat d) as [| c s] eqn:I.
    + discriminate R.
    + now rewrite R.
  - apply Z.leb_gt in E. pose proof (strptime_short_year d ltac:(lia)) as R.
    unfold days_between. destruct (strftime_ymd d) as [| c s]; [reflexivity |].
    now rewrite R.
Qed.

End ParsedDays.

Lemma days_between_parsed_witness :
  Dates.days_between (Dates.mkdate 2025 1 10)
    (Dates.parse_date_any (fun _ => Some (Dates.mkdate 2025 1 1)) (fun _ => false)
       (Some (PyStr.lit "Started running on Jan 1, 2025"))) None
  = Z.max 0 (Dates.toordinal (Dates.mkdate 2025 1 10)
             - Dates.toordinal (Dates.mkdate 2025 1 1))
  /\ Dates.days_between (Dates.mkdate 2025 1 10)
       (Dates.parse_date_any (fun _ => Some (Dates.mkdate 99 1 1)) (fun _ => false)
          (Some (PyStr.lit "01/01/0099"))) None
     = 0%Z.
Proof.
  split.
  - apply (days_between_parsed (fun _ => Some (Dates.mkdate 2025 1 1))
             (fun _ => false) (Dates.mkdate 2025 1 10) (Dates.mkdate 2025 1 1)
             (PyStr.lit "Started running on Jan 1, 2025")).
    + discriminate.
    + reflexivity.
    + reflexivity.
  - apply (days_between_parsed (fun _ => Some (Dates.mkdate 99 1 1))
             (fun _ => false) (Dates.mkdate 2025 1 10) (Dates.mkdate 99 1 1)
             (PyStr.lit "01/01/0099")).
    + discriminate.
    + reflexivity.
    + reflexivity.
Defined.

(* ================================================================= *)

Section Witnesses.
Import PyStr Re Models Pipeline Acquisition Api.

Lemma clamp_crossed_bounds_witness : Score.clamp 7 50 0 = 50%R.
Proof. apply (clamp_crossed_bounds 7 50 0). lra. Defined.

Lemma compute_score_saturates_witness :
  Score.compute_score (Some 500%Z) (Some 90%Z) (Some 3%Z)
  = Score.compute_score (Some 50%Z) (Some 60%Z) (Some 3%Z).
Proof.
  transitivity (Score.compute_score (Some 50%Z) (Some 90%Z) (Some 3%Z)).
  - apply (compute_score_saturates None (Some 90%Z) (Some 3%Z)).
    split; [lia | vm_compute; reflexivity].
  - apply (compute_score_saturates (Some 50%Z) None (Some 3%Z)).
    split; [lia | vm_compute; reflexivity].
Defined.

(** A count of 1.234 results is read as 1234 and capped at 500; a URL
    with no page number, a URL outside [facebook.com] and a browser that
    opens no tab give 0. *)
Example estimate_advertiser_active_ads_examples :
  estimate_advertiser_active_ads counting_browser
    (Some (lit "https://www.facebook.com/12345/")) = 500%Z
  /\ estimate_advertiser_active_ads counting_browser
       (Some (lit "https://www.facebook.com/lumina")) = 0%Z
  /\ estimate_advertiser_active_ads counting_browser
       (Some (lit "https://example.com/12345/")) = 0%Z
  /\ estimate_advertiser_active_ads closed_browser
       (Some (lit "https://www.facebook.com/12345/")) = 0%Z.
Proof. repeat split; vm_compute; reflexivity. Qed.

Lemma estimate_advertiser_active_ads_range_witness :
  exists url pre page_id post q,
    Some (lit "https://www.facebook.com/12345/") = Some url
    /\ contains (lit "facebook.com") url = true
    /\ url = pre ++ [ch "/"] ++ page_id ++ post /\ digit_run page_id
    /\ new_page_goto counting_browser (ads_url page_id) = Returned q
    /\ new_page_close counting_browser = Returned tt.
Proof.
  apply (estimate_advertiser_active_ads_range counting_browser
           (Some (lit "https://www.facebook.com/12345/"))).
  vm_compute. discriminate.
Defined.

Lemma check_for_captcha_true_witness :
  check_for_captcha no_element Raised = Raised /\ @Raised str = Raised.
Proof.
  split; [reflexivity |].
  apply (check_for_captcha_true no_element Raised). reflexivity.
Defined.

End Witnesses.

(* ================================================================= *)

Section CommuteFacts.
Import PyStr Models Pipeline.
Local Open Scope Z_scope.

Lemma first_rule_enhance (request : SearchRequest) (r e : AdOut) :
  enhance_result r = Some e ->
  first_rule request (ad e) = first_rule request (ad r).
Proof.
  intros H. apply enhance_result_counters in H as (Ha & Hd & _ & Hu).
  unfold first_rule. now rewrite Ha, Hd, Hu.
Qed.

Lemma filter_enhance_commute_some (request : SearchRequest)
    (results enhanced : list AdOut) :
  enhance_results results = Some enhanced ->
  enhance_results (filter_results results request)
  = Some (filter_results enhanced request).
Proof.
  intros H. apply enhance_results_inv in H.
  induction H as [| r e rs es He _ IH]; [reflexivity |].
  cbn [filter_results].
  rewrite !filter_result_of_rule, (first_rule_enhance request r e He).
  destruct (first_rule request (ad r)); cbn [enhance_results].
  - rewrite enhance_soft_exclude_commute, He. cbn [option_map].
    now rewrite IH.
  - exact IH.
  - now rewrite He, IH.
Qed.

(** Property X14.  Enhancing and filtering commute: the filter decides on fields that
    [enhance_results] does not write, so whenever [enhance_results] returns
    on the records, enhancing the filtered records returns the filtered
    enhanced records. *)
Theorem filter_enhance_commute (results : list AdOut) (request : SearchRequest) :
  match enhance_results results with
  | Some enhanced =>
      enhance_results (filter_results results request)
      = Some (filter_results enhanced request)
  | None => Exists (fun r => enhance_result r = None) results
  end.
Proof.
  destruct (enhance_results results) as [enhanced |] eqn:E.
  - now apply filter_enhance_commute_some.
  - now apply enhance_results_none.
Qed.

End CommuteFacts.
